(** * A shallow embedding of the from-scratch CNN of [ScratchImplementation.ipynb]

    The notebook builds a three-layer image classifier on top of NumPy:
    [Conv2D], [MaxPooling2D], [Dense], the helpers [softmax],
    [cross_entropy_loss] and [preprocess_image], the drivers [forward] and
    [train], and the script that initialises the layers, trains them over the
    samples and evaluates them.

    The embedding has three levels.
    - [Scalar] and [Elementary]: the float64 arithmetic of NumPy, kept
      abstract (two type classes).  The properties of the layers hold for
      every arithmetic; the exact integers run the layers on small inputs and
      the real numbers give the arithmetic float64 approximates.
    - [ndarray]: a shape and a row-major buffer, with the NumPy operations the
      notebook calls (slicing, broadcasting, reductions, item assignment),
      and the exceptions they raise.
    - the layers and the driver, statement by statement, in a state and
      exception monad: a method is a function from the object to the object
      after the call and either a value or the exception raised.

    A reduction ([np.sum], [np.dot], [np.amax]) combines its operands from
    the first to the last.  NumPy does not fix the order in which it
    associates a float64 sum; the order matters to the roundings alone. *)

From Stdlib Require Import List Arith ZArith Lia Bool Reals Lra.
Import ListNotations.

Set Implicit Arguments.

(** ** Exceptions and results *)

Inductive exn : Type :=
| UnpackError          (* ValueError: not enough / too many values to unpack *)
| NegativeDimensions   (* ValueError: negative dimensions are not allowed *)
| BroadcastError       (* ValueError: operands could not be broadcast together *)
| DotShapeError        (* ValueError: shapes not aligned *)
| ReshapeError         (* ValueError: cannot reshape array *)
| ZeroSizeReduction    (* ValueError: zero-size array to reduction operation *)
| AxisError            (* numpy.AxisError: axis out of bounds *)
| IndexError           (* IndexError: index out of bounds / too many indices *)
| ZeroDivisionError    (* ZeroDivisionError: integer division by zero *)
| AttributeError.      (* AttributeError: object has no attribute *)

Inductive result (A : Type) : Type :=
| Ok (a : A)
| Err (e : exn).
Arguments Ok {A} a.
Arguments Err {A} e.

Definition rbind {A B} (r : result A) (k : A -> result B) : result B :=
  match r with
  | Ok a => k a
  | Err e => Err e
  end.

Declare Scope result_scope.
Delimit Scope result_scope with res.
Notation "x <- c ;; k" := (rbind c (fun x => k))
  (at level 61, c at next level, right associativity) : result_scope.
Notation "' pat <- c ;; k" := (rbind c (fun x => match x with pat => k end))
  (at level 61, pat pattern, c at next level, right associativity) : result_scope.

(** A Python [for] loop whose body may raise: the loop state is threaded
    through the iterations and the first exception ends the loop. *)
Fixpoint for_ {A S} (l : list A) (s : S) (body : S -> A -> result S) : result S :=
  match l with
  | [] => Ok s
  | x :: r =>
      match body s x with
      | Ok s' => for_ r s' body
      | Err e => Err e
      end
  end.

(** [range(n)] for a Python integer [n]: empty when [n <= 0]. *)
Definition range (n : Z) : list nat := seq 0 (Z.to_nat n).

(** ** Scalars *)

(** The element type of the arrays with the operations the notebook applies to
    elements.  [fmax] is [np.maximum], [feqb] is [==], [fltb] is [<]. *)
Class Scalar (F : Type) : Type := {
  f0 : F;
  f1 : F;
  fadd : F -> F -> F;
  fsub : F -> F -> F;
  fmul : F -> F -> F;
  fneg : F -> F;
  fmax : F -> F -> F;
  feqb : F -> F -> bool;
  fltb : F -> F -> bool
}.

(** The operations only the network driver uses: true division, [np.exp],
    [np.log] and the literals [255] and [0.5]. *)
Class Elementary (F : Type) : Type := {
  fdiv : F -> F -> F;
  fexp : F -> F;
  flog : F -> F;
  f255 : F;
  fhalf : F
}.

(** ** Shapes and indices *)

(** Number of elements of an array of shape [s] ([a.size]). *)
Definition size (s : list nat) : nat := fold_right Nat.mul 1 s.

(** Row-major offset of the multi-index [idx] in an array of shape [s]. *)
Fixpoint ravel (s idx : list nat) : nat :=
  match s, idx with
  | _ :: s', i :: idx' => i * size s' + ravel s' idx'
  | _, _ => 0
  end.

(** All the multi-indices of shape [s], in row-major order ([np.ndindex]). *)
Fixpoint indices (s : list nat) : list (list nat) :=
  match s with
  | [] => [[]]
  | d :: s' => flat_map (fun i => map (cons i) (indices s')) (seq 0 d)
  end.

(** [idx] is a full index within shape [s]. *)
Fixpoint in_boundsb (s idx : list nat) : bool :=
  match s, idx with
  | [], [] => true
  | d :: s', i :: idx' => (i <? d) && in_boundsb s' idx'
  | _, _ => false
  end.

Definition in_bounds (s idx : list nat) : Prop := in_boundsb s idx = true.

(** [p] is a prefix of [idx]. *)
Fixpoint prefixb (p idx : list nat) : bool :=
  match p, idx with
  | [], _ => true
  | i :: p', j :: idx' => (i =? j) && prefixb p' idx'
  | _ :: _, [] => false
  end.

(** NumPy broadcasting of two shapes, on the reversed shapes (trailing
    dimensions first). *)
Fixpoint broadcast_rev (s1 s2 : list nat) : option (list nat) :=
  match s1, s2 with
  | [], s => Some s
  | s, [] => Some s
  | d1 :: r1, d2 :: r2 =>
      match broadcast_rev r1 r2 with
      | None => None
      | Some r =>
          if d1 =? d2 then Some (d1 :: r)
          else if d1 =? 1 then Some (d2 :: r)
          else if d2 =? 1 then Some (d1 :: r)
          else None
      end
  end.

Definition broadcast_shapes (s1 s2 : list nat) : option (list nat) :=
  option_map (@rev nat) (broadcast_rev (rev s1) (rev s2)).

Definition shape_eqb (s1 s2 : list nat) : bool :=
  if list_eq_dec Nat.eq_dec s1 s2 then true else false.

(** The index into an operand of shape [s] that the index [idx] of the
    broadcast result reads: the trailing [length s] components, with the
    components of the dimensions of extent 1 set to 0. *)
Fixpoint zip_bc (s idx : list nat) : list nat :=
  match s, idx with
  | d :: s', i :: idx' => (if d =? 1 then 0 else i) :: zip_bc s' idx'
  | _, _ => []
  end.

Definition bc_index (s idx : list nat) : list nat :=
  zip_bc s (skipn (length idx - length s) idx).

(** ** Arrays *)

Section Arrays.

Context {F : Type} {SF : Scalar F}.

Record ndarray : Type := mk_ndarray {
  shape : list nat;
  data : list F
}.

(** NumPy keeps the buffer as long as the shape says. *)
Definition wf (a : ndarray) : Prop := length (data a) = size (shape a).

Definition get (a : ndarray) (idx : list nat) : F :=
  nth (ravel (shape a) idx) (data a) f0.

(** The array of shape [s] whose element at [idx] is [f idx]. *)
Definition tabulate (s : list nat) (f : list nat -> F) : ndarray :=
  {| shape := s; data := map f (indices s) |}.

(** A 0-dimensional array holding one number. *)
Definition scalar (x : F) : ndarray := {| shape := []; data := [x] |}.

(** [np.zeros(dims)], the dimensions being Python integers. *)
Definition np_zeros (dims : list Z) : result ndarray :=
  if forallb (fun d => (0 <=? d)%Z) dims
  then Ok {| shape := map Z.to_nat dims;
             data := repeat f0 (size (map Z.to_nat dims)) |}
  else Err NegativeDimensions.

(** [a[idx]] with an integer for every axis: one element.  (With fewer
    integers NumPy returns a sub-array, see [subarray]; where the notebook reads
    one element it gives an integer for each of the three axes.) *)
Definition item (a : ndarray) (idx : list nat) : result F :=
  if in_boundsb (shape a) idx then Ok (get a idx) else Err IndexError.

(** [a[i0:i1, j0:j1]]: basic slicing of the first two axes with non-negative
    bounds, which Python clamps to the extent of the axis. *)
Definition slice2 (a : ndarray) (i0 i1 j0 j1 : nat) : result ndarray :=
  match shape a with
  | d0 :: d1 :: rest =>
      let lo0 := Nat.min i0 d0 in
      let lo1 := Nat.min j0 d1 in
      Ok (tabulate ((Nat.min i1 d0 - lo0) :: (Nat.min j1 d1 - lo1) :: rest)
            (fun idx => match idx with
                        | i :: j :: t => get a (lo0 + i :: lo1 + j :: t)
                        | _ => f0
                        end))
  | _ => Err IndexError
  end.

(** An element-wise binary operation with broadcasting ([a * b], [a + b],
    [a / b]). *)
Definition np_binop (op : F -> F -> F) (a b : ndarray) : result ndarray :=
  match broadcast_shapes (shape a) (shape b) with
  | Some s =>
      Ok (tabulate s (fun idx => op (get a (bc_index (shape a) idx))
                                    (get b (bc_index (shape b) idx))))
  | None => Err BroadcastError
  end.

(** An in-place binary operation ([a -= b], [a += b]): the broadcast result
    must have the shape of [a]. *)
Definition np_ibinop (op : F -> F -> F) (a b : ndarray) : result ndarray :=
  match broadcast_shapes (shape a) (shape b) with
  | Some s =>
      if shape_eqb s (shape a)
      then Ok (tabulate (shape a)
                 (fun idx => op (get a idx) (get b (bc_index (shape b) idx))))
      else Err BroadcastError
  | None => Err BroadcastError
  end.

(** An operation applied to every element ([np.exp(a)], [x * a], [a / x]). *)
Definition np_map (f : F -> F) (a : ndarray) : ndarray :=
  tabulate (shape a) (fun idx => f (get a idx)).

(** [a[p]] with an integer index for each of the leading axes: the
    sub-array at [p]. *)
Definition subarray (a : ndarray) (p : list nat) : result ndarray :=
  if in_boundsb (firstn (length p) (shape a)) p
  then Ok (tabulate (skipn (length p) (shape a)) (fun t => get a (p ++ t)))
  else Err IndexError.

(** [a[p] = v]: assignment to the sub-array at [p], [v] being broadcast to
    its shape.  (NumPy also accepts a [v] with more axes when the additional
    ones have extent 1; the notebook assigns no such value.) *)
Definition setitem (a : ndarray) (p : list nat) (v : ndarray) : result ndarray :=
  if in_boundsb (firstn (length p) (shape a)) p then
    let sub := skipn (length p) (shape a) in
    match broadcast_shapes sub (shape v) with
    | Some s =>
        if shape_eqb s sub
        then Ok (tabulate (shape a)
                   (fun idx => if prefixb p idx
                               then get v (bc_index (shape v) (skipn (length p) idx))
                               else get a idx))
        else Err BroadcastError
    | None => Err BroadcastError
    end
  else Err IndexError.

(** Reductions start from the first element ([np.add.reduce],
    [np.maximum.reduce]); the sum of no element is zero, the maximum of no
    element is an error. *)
Definition add_reduce (l : list F) : F :=
  match l with
  | [] => f0
  | x :: r => fold_left fadd r x
  end.

Definition max_reduce (l : list F) : result F :=
  match l with
  | [] => Err ZeroSizeReduction
  | x :: r => Ok (fold_left fmax r x)
  end.

(** [np.sum(a, axis=(1, 2, 3))] of a 4-dimensional array, the only use of it
    in the notebook (below four axes NumPy raises an AxisError). *)
Definition np_sum_axes123 (a : ndarray) : result ndarray :=
  match shape a with
  | [n; d1; d2; d3] =>
      Ok (tabulate [n]
            (fun idx => add_reduce (map (fun t => get a (idx ++ t))
                                        (indices [d1; d2; d3]))))
  | _ => Err AxisError
  end.

(** [np.amax(a, axis=(0, 1))] of an array of at least two dimensions. *)
Definition np_amax_axes01 (a : ndarray) : result ndarray :=
  match shape a with
  | d0 :: d1 :: rest =>
      if size [d0; d1] =? 0 then Err ZeroSizeReduction
      else Ok (tabulate rest
                 (fun idx =>
                    match max_reduce (map (fun h => get a (h ++ idx))
                                          (indices [d0; d1])) with
                    | Ok m => m
                    | Err _ => f0
                    end))
  | _ => Err AxisError
  end.

(** The elements in row-major order ([a.flat]). *)
Definition elements (a : ndarray) : list F := map (get a) (indices (shape a)).

(** [np.max(a)]: the maximum of all the elements. *)
Definition np_max (a : ndarray) : result F := max_reduce (elements a).

(** [a.sum(axis=0)]. *)
Definition np_sum_axis0 (a : ndarray) : result ndarray :=
  match shape a with
  | d0 :: rest =>
      Ok (tabulate rest
            (fun idx => add_reduce (map (fun i => get a (i :: idx)) (seq 0 d0))))
  | [] => Err AxisError
  end.

(** [np.argmax(a)]: the first index, in the flattened array, of the
    maximum. *)
Fixpoint argmax_from (best : F) (bi : nat) (i : nat) (l : list F) : nat :=
  match l with
  | [] => bi
  | x :: r => if fltb best x then argmax_from x i (S i) r
              else argmax_from best bi (S i) r
  end.

Definition np_argmax (a : ndarray) : result nat :=
  match elements a with
  | [] => Err ZeroSizeReduction
  | x :: r => Ok (argmax_from x 0 1 r)
  end.

(** [a.flatten()] and [a.reshape(s)]. *)
Definition flatten (a : ndarray) : ndarray :=
  {| shape := [size (shape a)]; data := data a |}.

Definition reshape (a : ndarray) (s : list nat) : result ndarray :=
  if size s =? size (shape a)
  then Ok {| shape := s; data := data a |}
  else Err ReshapeError.

(** [a[:, np.newaxis]] and [a[np.newaxis, :]]. *)
Definition newaxis_col (a : ndarray) : result ndarray :=
  match shape a with
  | d0 :: rest => Ok {| shape := d0 :: 1 :: rest; data := data a |}
  | [] => Err IndexError
  end.

Definition newaxis_row (a : ndarray) : result ndarray :=
  match shape a with
  | _ :: _ => Ok {| shape := 1 :: shape a; data := data a |}
  | [] => Err IndexError
  end.

(** [np.dot(a, b)] for operands of one or two dimensions (the notebook has
    no other use of it). *)
Definition np_dot (a b : ndarray) : result ndarray :=
  match shape a, shape b with
  | [n], [m] =>
      if n =? m
      then Ok (scalar (add_reduce (map (fun k => fmul (get a [k]) (get b [k]))
                                       (seq 0 n))))
      else Err DotShapeError
  | [n], [m; c] =>
      if n =? m
      then Ok (tabulate [c]
                 (fun idx => add_reduce
                    (map (fun k => fmul (get a [k]) (get b (k :: idx))) (seq 0 n))))
      else Err DotShapeError
  | [l; n], [m] =>
      if n =? m
      then Ok (tabulate [l]
                 (fun idx => add_reduce
                    (map (fun k => fmul (get a (idx ++ [k])) (get b [k])) (seq 0 n))))
      else Err DotShapeError
  | [l; n], [m; c] =>
      if n =? m
      then Ok (tabulate [l; c]
                 (fun idx => add_reduce
                    (map (fun k => fmul (get a (firstn 1 idx ++ [k]))
                                        (get b (k :: skipn 1 idx))) (seq 0 n))))
      else Err DotShapeError
  | _, _ => Err DotShapeError
  end.

End Arrays.

Arguments ndarray F : clear implicits.

(** ** Methods: state and exceptions *)

(** A method of an object of type [S] returning an [A]: the object after the
    call (attribute assignments made before an exception stay) and the value
    or the exception. *)
Definition M (S A : Type) : Type := S -> S * result A.

Definition ret {S A} (a : A) : M S A := fun s => (s, Ok a).

Definition bind {S A B} (m : M S A) (k : A -> M S B) : M S B :=
  fun s => match m s with
           | (s', Ok a) => k a s'
           | (s', Err e) => (s', Err e)
           end.

Definition liftR {S A} (r : result A) : M S A := fun s => (s, r).

Definition self_ {S} : M S S := fun s => (s, Ok s).

Definition assign {S} (f : S -> S) : M S unit := fun s => (f s, Ok tt).

(** A method of a component called on the whole: [conv.forward(...)] on the
    global state. *)
Definition on {S T A} (proj : S -> T) (upd : S -> T -> S) (m : M T A) : M S A :=
  fun s => let (t', r) := m (proj s) in (upd s t', r).

Declare Scope method_scope.
Delimit Scope method_scope with meth.
Notation "x <- c ;; k" := (bind c (fun x => k))
  (at level 61, c at next level, right associativity) : method_scope.
Notation "' pat <- c ;; k" := (bind c (fun x => match x with pat => k end))
  (at level 61, pat pattern, c at next level, right associativity) : method_scope.
Notation "c ;;; k" := (bind c (fun _ => k))
  (at level 61, right associativity) : method_scope.
Notation "x <~ c ;; k" := (bind (liftR c) (fun x => k))
  (at level 61, c at next level, right associativity) : method_scope.
Notation "' pat <~ c ;; k" :=
  (bind (liftR c) (fun x => match x with pat => k end))
  (at level 61, pat pattern, c at next level, right associativity) : method_scope.

(** [h, w, _ = a.shape] *)
Definition unpack3 (s : list nat) : result (nat * nat * nat) :=
  match s with
  | [h; w; c] => Ok (h, w, c)
  | _ => Err UnpackError
  end.

(** [n, m = a.shape] *)
Definition unpack2 (s : list nat) : result (nat * nat) :=
  match s with
  | [n; m] => Ok (n, m)
  | _ => Err UnpackError
  end.

(** [a // b] on non-negative Python integers. *)
Definition floordiv (a b : nat) : result nat :=
  if b =? 0 then Err ZeroDivisionError else Ok (a / b).

(** An attribute that exists only once it has been assigned. *)
Definition attr {A} (o : option A) : result A :=
  match o with
  | Some a => Ok a
  | None => Err AttributeError
  end.

(** The values a generator yields, computed in turn; the first exception ends
    the iteration. *)
Fixpoint mapM {A B} (f : A -> result B) (l : list A) : result (list B) :=
  match l with
  | [] => Ok []
  | x :: r =>
      match f x with
      | Ok y => match mapM f r with
                | Ok ys => Ok (y :: ys)
                | Err e => Err e
                end
      | Err e => Err e
      end
  end.

(** The pairs [(i, j)] of [for i in range(n): for j in range(m)]. *)
Definition positions (n m : Z) : list (nat * nat) :=
  flat_map (fun i => map (fun j => (i, j)) (range m)) (range n).

Definition IMG_HEIGHT : nat := 100.
Definition IMG_WIDTH : nat := 100.
Definition IMG_CHANNELS : nat := 3.

(** ** Convolutional layer *)

Module Conv2D.
Section Conv2D.
Context {F : Type} {SF : Scalar F}.

Record t : Type := mk {
  num_filters : nat;
  filter_size : nat;
  filters : ndarray F;
  last_input : option (ndarray F)
}.

(** [__init__]: [randn] stands for the values that
    [np.random.randn(...) / 9] produced. *)
Definition init (num_filters filter_size : nat) (randn : list F) : t :=
  {| num_filters := num_filters;
     filter_size := filter_size;
     filters := {| shape := [num_filters; filter_size; filter_size; IMG_CHANNELS];
                   data := randn |};
     last_input := None |}.

Definition set_last_input (input : ndarray F) (self : t) : t :=
  {| num_filters := num_filters self; filter_size := filter_size self;
     filters := filters self; last_input := Some input |}.

Definition set_filters (w : ndarray F) (self : t) : t :=
  {| num_filters := num_filters self; filter_size := filter_size self;
     filters := w; last_input := last_input self |}.

Definition iterate_regions (self : t) (image : ndarray F)
  : result (list (ndarray F * nat * nat)) :=
  ('(h, w, _) <- unpack3 (shape image) ;;
   let new_h := (Z.of_nat h - Z.of_nat (filter_size self) + 1)%Z in
   let new_w := (Z.of_nat w - Z.of_nat (filter_size self) + 1)%Z in
   mapM (fun '(i, j) =>
           region <- slice2 image i (i + filter_size self) j (j + filter_size self) ;;
           Ok (region, i, j))
        (positions new_h new_w))%res.

Definition forward (input : ndarray F) : M t (ndarray F) :=
  (assign (set_last_input input) ;;;
   self <- self_ ;;
   '(h, w, _) <~ unpack3 (shape input) ;;
   output <~ np_zeros [(Z.of_nat h - Z.of_nat (filter_size self) + 1)%Z;
                       (Z.of_nat w - Z.of_nat (filter_size self) + 1)%Z;
                       Z.of_nat (num_filters self)] ;;
   regions <~ iterate_regions self input ;;
   liftR (for_ regions output
            (fun output '(region, i, j) =>
               (prod <- np_binop fmul region (filters self) ;;
                s <- np_sum_axes123 prod ;;
                setitem output [i; j] s)%res)))%meth.

Definition backward (d_L_d_out : ndarray F) (learn_rate : F) : M t unit :=
  (self <- self_ ;;
   d_L_d_filters <~ np_zeros (map Z.of_nat (shape (filters self))) ;;
   input <~ attr (last_input self) ;;
   regions <~ iterate_regions self input ;;
   d_L_d_filters <~
     for_ regions d_L_d_filters
       (fun d '(region, i, j) =>
          for_ (seq 0 (num_filters self)) d
            (fun d f =>
               (acc <- subarray d [f] ;;
                g <- item d_L_d_out [i; j; f] ;;
                acc <- np_ibinop fadd acc (np_map (fmul g) region) ;;
                setitem d [f] acc)%res)) ;;
   w <~ np_ibinop fsub (filters self) (np_map (fmul learn_rate) d_L_d_filters) ;;
   assign (set_filters w))%meth.

End Conv2D.
Arguments t F : clear implicits.
End Conv2D.

(** ** Max pooling layer *)

Module MaxPooling2D.
Section MaxPooling2D.
Context {F : Type} {SF : Scalar F}.

Record t : Type := mk {
  pool_size : nat;
  last_input : option (ndarray F)
}.

Definition init (pool_size : nat) : t :=
  {| pool_size := pool_size; last_input := None |}.

Definition set_last_input (input : ndarray F) (self : t) : t :=
  {| pool_size := pool_size self; last_input := Some input |}.

Definition iterate_regions (self : t) (image : ndarray F)
  : result (list (ndarray F * nat * nat)) :=
  ('(h, w, _) <- unpack3 (shape image) ;;
   new_h <- floordiv h (pool_size self) ;;
   new_w <- floordiv w (pool_size self) ;;
   mapM (fun '(i, j) =>
           region <- slice2 image (i * pool_size self)
                            (i * pool_size self + pool_size self)
                            (j * pool_size self)
                            (j * pool_size self + pool_size self) ;;
           Ok (region, i, j))
        (positions (Z.of_nat new_h) (Z.of_nat new_w)))%res.

Definition forward (input : ndarray F) : M t (ndarray F) :=
  (assign (set_last_input input) ;;;
   self <- self_ ;;
   '(h, w, num_filters) <~ unpack3 (shape input) ;;
   new_h <~ floordiv h (pool_size self) ;;
   new_w <~ floordiv w (pool_size self) ;;
   output <~ np_zeros [Z.of_nat new_h; Z.of_nat new_w; Z.of_nat num_filters] ;;
   regions <~ iterate_regions self input ;;
   liftR (for_ regions output
            (fun output '(region, i, j) =>
               (m <- np_amax_axes01 region ;;
                setitem output [i; j] m)%res)))%meth.

Definition backward (d_L_d_out : ndarray F) : M t (ndarray F) :=
  (self <- self_ ;;
   input <~ attr (last_input self) ;;
   d_L_d_input <~ np_zeros (map Z.of_nat (shape input)) ;;
   regions <~ iterate_regions self input ;;
   liftR (for_ regions d_L_d_input
            (fun d '(region, i, j) =>
               ('(h, w, f) <- unpack3 (shape region) ;;
                amax <- np_amax_axes01 region ;;
                for_ (seq 0 h) d (fun d i2 =>
                for_ (seq 0 w) d (fun d j2 =>
                for_ (seq 0 f) d (fun d f2 =>
                  x <- item region [i2; j2; f2] ;;
                  m <- item amax [f2] ;;
                  if feqb x m
                  then g <- item d_L_d_out [i; j; f2] ;;
                       setitem d [i * pool_size self + i2;
                                  j * pool_size self + j2; f2] (scalar g)
                  else Ok d))))%res)))%meth.

End MaxPooling2D.
Arguments t F : clear implicits.
End MaxPooling2D.

(** ** Dense layer *)

Module Dense.
Section Dense.
Context {F : Type} {SF : Scalar F}.

Record t : Type := mk {
  weights : ndarray F;
  biases : ndarray F;
  last_input_shape : option (list nat);
  last_input : option (ndarray F);
  last_totals : option (ndarray F)
}.

(** [__init__]: [randn] stands for the values that
    [np.random.randn(input_len, nodes) / input_len] produced. *)
Definition init (input_len nodes : nat) (randn : list F) : t :=
  {| weights := {| shape := [input_len; nodes]; data := randn |};
     biases := {| shape := [nodes]; data := repeat f0 nodes |};
     last_input_shape := None; last_input := None; last_totals := None |}.

Definition set_last_input_shape (s : list nat) (self : t) : t :=
  {| weights := weights self; biases := biases self;
     last_input_shape := Some s; last_input := last_input self;
     last_totals := last_totals self |}.

Definition set_last_input (a : ndarray F) (self : t) : t :=
  {| weights := weights self; biases := biases self;
     last_input_shape := last_input_shape self; last_input := Some a;
     last_totals := last_totals self |}.

Definition set_last_totals (a : ndarray F) (self : t) : t :=
  {| weights := weights self; biases := biases self;
     last_input_shape := last_input_shape self; last_input := last_input self;
     last_totals := Some a |}.

Definition set_weights (a : ndarray F) (self : t) : t :=
  {| weights := a; biases := biases self;
     last_input_shape := last_input_shape self; last_input := last_input self;
     last_totals := last_totals self |}.

Definition set_biases (a : ndarray F) (self : t) : t :=
  {| weights := weights self; biases := a;
     last_input_shape := last_input_shape self; last_input := last_input self;
     last_totals := last_totals self |}.

Definition forward (input : ndarray F) : M t (ndarray F) :=
  (assign (set_last_input_shape (shape input)) ;;;
   let input := flatten input in
   assign (set_last_input input) ;;;
   self <- self_ ;;
   '(input_len, nodes) <~ unpack2 (shape (weights self)) ;;
   xw <~ np_dot input (weights self) ;;
   totals <~ np_binop fadd xw (biases self) ;;
   assign (set_last_totals totals) ;;;
   ret totals)%meth.

Definition backward (d_L_d_out : ndarray F) (learn_rate : F) : M t (ndarray F) :=
  (self <- self_ ;;
   let d_L_d_t := d_L_d_out in
   d_t_d_w <~ attr (last_input self) ;;
   let d_t_d_b := f1 in
   let d_t_d_inputs := weights self in
   col <~ newaxis_col d_t_d_w ;;
   row <~ newaxis_row d_L_d_t ;;
   d_L_d_w <~ np_dot col row ;;
   let d_L_d_b := np_map (fun x => fmul x d_t_d_b) d_L_d_t in
   d_L_d_inputs <~ np_dot d_t_d_inputs d_L_d_t ;;
   w <~ np_ibinop fsub (weights self) (np_map (fmul learn_rate) d_L_d_w) ;;
   assign (set_weights w) ;;;
   self <- self_ ;;
   b <~ np_ibinop fsub (biases self) (np_map (fmul learn_rate) d_L_d_b) ;;
   assign (set_biases b) ;;;
   self <- self_ ;;
   s <~ attr (last_input_shape self) ;;
   liftR (reshape d_L_d_inputs s))%meth.

End Dense.
Arguments t F : clear implicits.
End Dense.

(** ** Helper functions and the network driver *)

(** [a[i]] and [a[i] = x] on a 1-dimensional array with a Python integer
    index: a negative index counts from the end.  The notebook indexes the
    probabilities and the gradient so, and both have one axis. *)
Definition py_index (n : nat) (i : Z) : result nat :=
  if ((0 <=? i) && (i <? Z.of_nat n))%Z then Ok (Z.to_nat i)
  else if ((- Z.of_nat n <=? i) && (i <? 0))%Z then Ok (Z.to_nat (Z.of_nat n + i))
  else Err IndexError.

Section Helpers.
Context {F : Type} {SF : Scalar F} {EF : Elementary F}.

Definition getitem1 (a : ndarray F) (i : Z) : result F :=
  match shape a with
  | [n] => (k <- py_index n i ;; item a [k])%res
  | _ => Err IndexError
  end.

Definition setitem1 (a : ndarray F) (i : Z) (x : F) : result (ndarray F) :=
  match shape a with
  | [n] => (k <- py_index n i ;; setitem a [k] (scalar x))%res
  | _ => Err IndexError
  end.

Definition softmax (x : ndarray F) : result (ndarray F) :=
  (m <- np_max x ;;
   let exp_x := np_map fexp (np_map (fun v => fsub v m) x) in
   s <- np_sum_axis0 exp_x ;;
   np_binop fdiv exp_x s)%res.

Definition cross_entropy_loss (output : ndarray F) (y : Z) : result F :=
  (p <- getitem1 output y ;; Ok (fneg (flog p)))%res.

Definition preprocess_image (image_array : ndarray F) : result (ndarray F) :=
  reshape image_array [IMG_HEIGHT; IMG_WIDTH; IMG_CHANNELS].

End Helpers.

Module Network.
Section Network.
Context {F : Type} {SF : Scalar F} {EF : Elementary F}.

(** The three global objects of the notebook. *)
Record t : Type := mk {
  conv : Conv2D.t F;
  pool : MaxPooling2D.t F;
  dense : Dense.t F
}.

Definition set_conv (s : t) (c : Conv2D.t F) : t :=
  {| conv := c; pool := pool s; dense := dense s |}.
Definition set_pool (s : t) (p : MaxPooling2D.t F) : t :=
  {| conv := conv s; pool := p; dense := dense s |}.
Definition set_dense (s : t) (d : Dense.t F) : t :=
  {| conv := conv s; pool := pool s; dense := d |}.

Definition forward (image : ndarray F) (label : Z)
  : M t (ndarray F * F * nat) :=
  (out <- on conv set_conv
            (Conv2D.forward
               (np_map (fun x => fsub x fhalf)
                       (np_map (fun x => fdiv x f255) image))) ;;
   out <- on pool set_pool (MaxPooling2D.forward out) ;;
   totals <- on dense set_dense (Dense.forward out) ;;
   out <~ softmax totals ;;
   loss <~ cross_entropy_loss out label ;;
   am <~ np_argmax out ;;
   let acc := if (Z.of_nat am =? label)%Z then 1 else 0 in
   ret (out, loss, acc))%meth.

Definition train (im : ndarray F) (label : Z) (lr : F) : M t (F * nat) :=
  ('(out, loss, acc) <- forward im label ;;
   grad <~ np_zeros [2%Z] ;;
   p <~ getitem1 out label ;;
   grad <~ setitem1 grad label (fdiv (fneg f1) p) ;;
   grad <- on dense set_dense (Dense.backward grad lr) ;;
   grad <- on pool set_pool (MaxPooling2D.backward grad) ;;
   _ <- on conv set_conv (Conv2D.backward grad lr) ;;
   ret (loss, acc))%meth.

(** The layers as the notebook initialises them; [randn_filters] and
    [randn_weights] stand for the draws of [np.random.randn]. *)
Definition init (randn_filters randn_weights : list F) : t :=
  {| conv := Conv2D.init 8 3 randn_filters;
     pool := MaxPooling2D.init 2;
     dense := Dense.init ((IMG_HEIGHT - 2) / 2 * (IMG_WIDTH - 2) / 2 * 8) 2
                         randn_weights |}.

(** The loop over the samples of one epoch of training, [loss] and
    [num_correct] being the two accumulators; the samples are in the order the
    permutation of the epoch gave them. *)
Fixpoint train_loop (samples : list (ndarray F * Z)) (lr : F)
         (loss : F) (num_correct : nat) : M t (F * nat) :=
  match samples with
  | [] => ret (loss, num_correct)
  | (im, label) :: rest =>
      ('(l, acc) <- train im label lr ;;
       train_loop rest lr (fadd loss l) (num_correct + acc))%meth
  end.

(** [loss = 0; num_correct = 0; for im, label in zip(X_train, Y_train): ...] *)
Definition train_epoch (X_train : list (ndarray F)) (Y_train : list Z) (lr : F)
  : M t (F * nat) :=
  train_loop (combine X_train Y_train) lr f0 0.

(** The loop of the evaluation on the test data. *)
Fixpoint test_loop (samples : list (ndarray F * Z))
         (test_loss : F) (test_correct : nat) : M t (F * nat) :=
  match samples with
  | [] => ret (test_loss, test_correct)
  | (im, label) :: rest =>
      ('(_, l, acc) <- forward im label ;;
       test_loop rest (fadd test_loss l) (test_correct + acc))%meth
  end.

(** [test_loss = 0; test_correct = 0; for im, label in zip(X_test, Y_test): ...] *)
Definition evaluate (X_test : list (ndarray F)) (Y_test : list Z) : M t (F * nat) :=
  test_loop (combine X_test Y_test) f0 0.

End Network.
Arguments t F : clear implicits.
End Network.

(** ** Two instances of the arithmetic *)

(** Exact integers, to run the layers on small inputs. *)
#[export] Instance Z_Scalar : Scalar Z := {|
  f0 := 0%Z; f1 := 1%Z;
  fadd := Z.add; fsub := Z.sub; fmul := Z.mul; fneg := Z.opp;
  fmax := Z.max; feqb := Z.eqb; fltb := Z.ltb
|}.

(** The real numbers: the arithmetic float64 approximates. *)
#[export] Instance R_Scalar : Scalar R := {|
  f0 := 0%R; f1 := 1%R;
  fadd := Rplus; fsub := Rminus; fmul := Rmult; fneg := Ropp;
  fmax := Rmax;
  feqb := fun x y => if Req_dec_T x y then true else false;
  fltb := fun x y => if Rlt_dec x y then true else false
|}.

#[export] Instance R_Elementary : Elementary R := {|
  fdiv := Rdiv; fexp := exp; flog := ln; f255 := 255%R; fhalf := (/ 2)%R
|}.

(** * Specification vocabulary *)

(** The index in the image of the element [w] of the window at [(i, j)]. *)
Definition window_index (i j : nat) (w : list nat) : list nat :=
  match w with
  | a :: b :: t => i + a :: j + b :: t
  | _ => w
  end.

(** A call raises. *)
Definition raises {S A} (m : M S A) (s : S) : Prop :=
  exists e, snd (m s) = Err e.

Section Vocabulary.
Context {F : Type} {SF : Scalar F}.

(** ** What the constructors establish *)

(** [Conv2D.__init__]: the filter bank has [num_filters] filters of
    [filter_size] rows and columns and [IMG_CHANNELS] channels. *)
Definition conv_wf (self : Conv2D.t F) : Prop :=
  shape (Conv2D.filters self) =
  [Conv2D.num_filters self; Conv2D.filter_size self; Conv2D.filter_size self;
   IMG_CHANNELS].

(** [Dense.__init__], for [input_len = L] and [nodes = C]. *)
Definition dense_wf (self : Dense.t F) (L C : nat) : Prop :=
  shape (Dense.weights self) = [L; C] /\ shape (Dense.biases self) = [C].

(** ** Convolution *)

(** The array a slice denotes, when the slice is legal. *)
Definition window (a : ndarray F) (i0 i1 j0 j1 : nat) : ndarray F :=
  match slice2 a i0 i1 j0 j1 with
  | Ok r => r
  | Err _ => a
  end.

(** The products of the window of [image] at [(i, j)] with the weights of
    filter [f], in row-major order of the window. *)
Definition conv_terms (self : Conv2D.t F) (image : ndarray F) (i j f : nat) : list F :=
  map (fun w => fmul (get image (window_index i j w))
                     (get (Conv2D.filters self) (f :: w)))
      (indices [Conv2D.filter_size self; Conv2D.filter_size self; IMG_CHANNELS]).

(** The sum the specification gives for the output (i, j, f) on an image of
    [C] channels: over the F x F x C window of the image that starts at
    (i, j), the products of the window with the weights of filter [f], added
    from zero in row-major order. *)
Definition cross_correlation (self : Conv2D.t F) (image : ndarray F)
           (C i j f : nat) : F :=
  fold_left fadd
    (map (fun w => fmul (get image (window_index i j w))
                        (get (Conv2D.filters self) (f :: w)))
         (indices [Conv2D.filter_size self; Conv2D.filter_size self; C]))
    f0.

(** The same products on an image of one channel, which NumPy broadcasts
    against the channels of the filter: every channel of the filter meets the
    one channel of the image. *)
Definition conv_terms_broadcast (self : Conv2D.t F) (image : ndarray F)
           (i j f : nat) : list F :=
  map (fun w => fmul (get image [i + nth 0 w 0; j + nth 1 w 0; 0])
                     (get (Conv2D.filters self) (f :: w)))
      (indices [Conv2D.filter_size self; Conv2D.filter_size self; IMG_CHANNELS]).

(** The gradient of the loss with respect to the weight [t = [a; b; c]] of
    filter [f]: the contributions of the windows, accumulated from zero in the
    order of the loop. *)
Definition conv_gradient (self : Conv2D.t F) (input d_L_d_out : ndarray F)
           (h w : nat) (f : nat) (t : list nat) : F :=
  fold_left fadd
    (map (fun p => fmul (get d_L_d_out [fst p; snd p; f])
                        (get input (window_index (fst p) (snd p) t)))
         (positions (Z.of_nat h - Z.of_nat (Conv2D.filter_size self) + 1)
                    (Z.of_nat w - Z.of_nat (Conv2D.filter_size self) + 1)))
    f0.

(** The shapes [Conv2D.forward] raises on: not three axes; an output extent
    below zero; or, when there is a window to visit, a channel count that
    does not broadcast against the [IMG_CHANNELS] channels of the filters. *)
Definition conv_rejects (self : Conv2D.t F) (s : list nat) : Prop :=
  match s with
  | [h; w; c] =>
      h + 1 < Conv2D.filter_size self \/ w + 1 < Conv2D.filter_size self
      \/ (Conv2D.filter_size self <= h /\ Conv2D.filter_size self <= w
          /\ c <> 1 /\ c <> IMG_CHANNELS)
  | _ => True
  end.

(** ** Max pooling *)

(** The elements of channel [k] of the pooling window [(i, j)], in row-major
    order of the window. *)
Definition pool_window (input : ndarray F) (P i j k : nat) : list F :=
  map (fun ab => get input (window_index (i * P) (j * P) (ab ++ [k])))
      (indices [P; P]).

(** Their maximum, as [np.amax] computes it. *)
Definition pool_max (input : ndarray F) (P i j k : nat) : F :=
  match max_reduce (pool_window input P i j k) with
  | Ok m => m
  | Err _ => f0
  end.

(** [x <= y] in the order of which [np.maximum] is the least upper bound. *)
Definition fle (x y : F) : Prop := fmax x y = y.

(** The element (r, c, k) of the input attains the maximum of its window:
    no element of channel k of the window of (r, c) exceeds it. *)
Definition attains_max (input : ndarray F) (P r c k : nat) : Prop :=
  forall a b, a < P -> b < P ->
    fle (get input [r / P * P + a; c / P * P + b; k]) (get input [r; c; k]).

(** The laws of a maximum; float64 has them away from NaN. *)
Record MaxLaws : Prop := {
  fmax_comm : forall x y : F, fmax x y = fmax y x;
  fmax_assoc : forall x y z : F, fmax x (fmax y z) = fmax (fmax x y) z;
  fmax_sel : forall x y : F, fmax x y = x \/ fmax x y = y
}.

(** What [MaxPooling2D.backward] leaves at index [x = [r; c; k]] of the
    gradient: the entry of [d_L_d_out] of the window of [(r, c)] where the
    input equals the maximum of that window, zero elsewhere and in the rows
    and columns no window covers. *)
Definition pool_gradient (input d_L_d_out : ndarray F) (P h w : nat)
           (x : list nat) : F :=
  match x with
  | [r; c; k] =>
      if (r <? h / P * P) && (c <? w / P * P)
         && feqb (get input [r; c; k]) (pool_max input P (r / P) (c / P) k)
      then get d_L_d_out [r / P; c / P; k]
      else f0
  | _ => f0
  end.

(** The effect on the element at [x] of one execution of the innermost
    statement of [MaxPooling2D.backward], for the window [p] and the position
    [(i2, j2, f2)] in it. *)
Definition route (input d_out : ndarray F) (P : nat)
           (p : nat * nat) (i2 j2 f2 : nat) (x : list nat) (old : F) : F :=
  if feqb (get input [fst p * P + i2; snd p * P + j2; f2])
          (pool_max input P (fst p) (snd p) f2)
     && prefixb [fst p * P + i2; snd p * P + j2; f2] x
  then get d_out [fst p; snd p; f2]
  else old.

(** ** Dense layer *)

(** The dot products [x . W[:, c]] and [W[l, :] . d]. *)
Definition dot_col (x W : ndarray F) (L c : nat) : F :=
  add_reduce (map (fun k => fmul (get x [k]) (get W [k; c])) (seq 0 L)).

Definition dot_row (W d : ndarray F) (C l : nat) : F :=
  add_reduce (map (fun k => fmul (get W [l; k]) (get d [k])) (seq 0 C)).

End Vocabulary.
Arguments MaxLaws F {SF}.

Section DriverVocabulary.
Context {F : Type} {SF : Scalar F} {EF : Elementary F}.

(** [(image / 255) - 0.5] *)
Definition normalize (image : ndarray F) : ndarray F :=
  np_map (fun x => fsub x fhalf) (np_map (fun x => fdiv x f255) image).

(** The three global objects fit images of [h] rows and [w] columns: the
    filters are as [Conv2D.__init__] builds them and not larger than the
    image, the pool size is positive, and the dense layer has one input per
    element of the pooled tensor and two classes. *)
Definition net_wf (net : Network.t F) (h w : nat) : Prop :=
  let Fs := Conv2D.filter_size (Network.conv net) in
  let P := MaxPooling2D.pool_size (Network.pool net) in
  conv_wf (Network.conv net)
  /\ Fs <= h /\ Fs <= w /\ 0 < P
  /\ dense_wf (Network.dense net)
       (size [(h - Fs + 1) / P; (w - Fs + 1) / P;
              Conv2D.num_filters (Network.conv net)]) 2.

End DriverVocabulary.

(** ** Sample inputs *)

Module Sample.

(** Integer arrays: all ones, and 0, 1, 2, ... in row-major order. *)
Definition ones (s : list nat) : ndarray Z :=
  {| shape := s; data := repeat 1%Z (size s) |}.

Definition iota (s : list nat) : ndarray Z :=
  {| shape := s; data := map Z.of_nat (seq 0 (size s)) |}.

(** One 2 x 2 filter of ones; one 3 x 3 filter of ones. *)
Definition conv2 : Conv2D.t Z := Conv2D.init 1 2 (repeat 1%Z 12).
Definition conv3 : Conv2D.t Z := Conv2D.init 1 3 (repeat 1%Z 27).

Definition pool2 : MaxPooling2D.t Z := MaxPooling2D.init 2.

(** Four inputs, two classes. *)
Definition dense42 : Dense.t Z :=
  {| Dense.weights := iota [4; 2]; Dense.biases := ones [2];
     Dense.last_input_shape := None; Dense.last_input := None;
     Dense.last_totals := None |}.

(** A network on real numbers for images of one pixel: one 1 x 1 filter,
    pool size 1, one input and two classes. *)
Definition pixel : ndarray R := {| shape := [1; 1; 3]; data := [51%R; 102%R; 255%R] |}.

Definition net1 : Network.t R :=
  {| Network.conv := Conv2D.init 1 1 [1%R; 2%R; 3%R];
     Network.pool := MaxPooling2D.init 1;
     Network.dense := Dense.init 1 2 [1%R; (-1)%R] |}.

(** Two scores, one for each class. *)
Definition scores : ndarray R := {| shape := [2]; data := [1%R; 2%R] |}.

(** A row of the data set, the numbers of one image, all zero here. *)
Definition blank_row : ndarray R :=
  {| shape := [IMG_HEIGHT * IMG_WIDTH * IMG_CHANNELS];
     data := repeat 0%R (IMG_HEIGHT * IMG_WIDTH * IMG_CHANNELS) |}.

End Sample.

(** ** Proof automation *)

(** An index is within a shape given by its extents. *)
Ltac solve_bounds :=
  unfold in_bounds; simpl;
  rewrite ?(proj2 (Nat.ltb_lt _ _)) by first [assumption | lia];
  reflexivity.

(** An index of the wrong length is within no shape. *)
Ltac bad_index H :=
  unfold in_bounds in H; simpl in H; rewrite ?andb_false_r in H; discriminate.

(** * Properties *)

Unset Implicit Arguments.

(** ** Indices *)

Lemma length_indices (s : list nat) : length (indices s) = size s.
Proof.
  induction s as [|d s IH]; simpl; [reflexivity|].
  generalize 0 as start.
  induction d as [|d IHd]; intros start; simpl; [reflexivity|].
  rewrite length_app, length_map, IHd, IH. reflexivity.
Qed.

Lemma nth_flat_map_seq {A} (g : nat -> list A) (m : nat) (def : A) :
  (forall k, length (g k) = m) ->
  forall d start i r, i < d -> r < m ->
  nth (i * m + r) (flat_map g (seq start d)) def = nth r (g (start + i)) def.
Proof.
  intros Hg. induction d as [|d IH]; intros start i r Hi Hr; [lia|].
  simpl. destruct i as [|i].
  - rewrite app_nth1 by (rewrite Hg; simpl; lia).
    simpl. rewrite Nat.add_0_r. reflexivity.
  - rewrite app_nth2 by (rewrite Hg; simpl; lia).
    rewrite Hg. replace (S i * m + r - m) with (i * m + r) by (simpl; lia).
    rewrite IH by lia. f_equal. f_equal. lia.
Qed.

Lemma in_bounds_cons d s i idx :
  in_bounds (d :: s) (i :: idx) <-> i < d /\ in_bounds s idx.
Proof.
  unfold in_bounds. simpl. rewrite andb_true_iff, Nat.ltb_lt. reflexivity.
Qed.

Lemma in_bounds_length s : forall idx, in_bounds s idx -> length idx = length s.
Proof.
  induction s as [|d s IH]; intros [|i idx] H; try discriminate; [reflexivity|].
  apply in_bounds_cons in H. simpl. f_equal. apply IH, H.
Qed.

Lemma ravel_lt s : forall idx, in_bounds s idx -> ravel s idx < size s.
Proof.
  induction s as [|d s IH]; intros [|i idx] H; try discriminate; simpl; [lia|].
  apply in_bounds_cons in H. destruct H as [Hi H]. specialize (IH _ H).
  fold (size s). nia.
Qed.

Lemma nth_indices s : forall idx def,
  in_bounds s idx -> nth (ravel s idx) (indices s) def = idx.
Proof.
  induction s as [|d s IH]; intros [|i idx] def H; try discriminate; [reflexivity|].
  apply in_bounds_cons in H. destruct H as [Hi H]. simpl.
  rewrite (nth_flat_map_seq (fun i => map (cons i) (indices s)) (size s)).
  - simpl. rewrite nth_indep with (d' := i :: def).
    + rewrite map_nth. f_equal. apply IH, H.
    + rewrite length_map, length_indices. apply ravel_lt, H.
  - intros k. rewrite length_map. apply length_indices.
  - exact Hi.
  - apply ravel_lt, H.
Qed.

Lemma in_indices s : forall idx, In idx (indices s) <-> in_bounds s idx.
Proof.
  induction s as [|d s IH]; intros idx; simpl.
  - split.
    + intros [<-|[]]. reflexivity.
    + destruct idx; [now left | discriminate].
  - rewrite in_flat_map. split.
    + intros (i & Hi & Hm). apply in_map_iff in Hm. destruct Hm as (t & <- & Ht).
      apply in_bounds_cons. apply in_seq in Hi. split; [lia | apply IH, Ht].
    + destruct idx as [|i t]; [discriminate|]. intros H.
      apply in_bounds_cons in H. destruct H as [Hi H].
      exists i. split; [apply in_seq; lia|]. apply in_map, IH, H.
Qed.

Section ArrayFacts.
Context {F : Type} {SF : Scalar F}.

Lemma wf_tabulate s (f : list nat -> F) : wf (tabulate s f).
Proof. unfold wf, tabulate. simpl. rewrite length_map. apply length_indices. Qed.

Lemma get_tabulate s (f : list nat -> F) idx :
  in_bounds s idx -> get (tabulate s f) idx = f idx.
Proof.
  intros H. unfold get, tabulate. simpl.
  rewrite nth_indep with (d' := f []).
  - rewrite map_nth. f_equal. apply nth_indices, H.
  - rewrite length_map, length_indices. apply ravel_lt, H.
Qed.

End ArrayFacts.

(** ** Loops *)

Lemma for_map {A B S} (g : A -> B) (l : list A) (body : S -> B -> result S) :
  forall s, for_ (map g l) s body = for_ l s (fun s x => body s (g x)).
Proof.
  induction l as [|x l IH]; intros s; simpl; [reflexivity|].
  destruct (body s (g x)); [apply IH | reflexivity].
Qed.

Lemma mapM_ok {A B} (f : A -> result B) (g : A -> B) (l : list A) :
  (forall x, In x l -> f x = Ok (g x)) -> mapM f l = Ok (map g l).
Proof.
  induction l as [|x l IH]; intros H; simpl; [reflexivity|].
  rewrite H by now left. rewrite IH; [reflexivity|].
  intros; apply H; now right.
Qed.

Lemma in_positions n m i j :
  In (i, j) (positions n m) <-> i < Z.to_nat n /\ j < Z.to_nat m.
Proof.
  unfold positions, range. rewrite in_flat_map. split.
  - intros (i' & Hi & Hj). apply in_map_iff in Hj.
    destruct Hj as (j' & [= <- <-] & Hj). apply in_seq in Hi, Hj. lia.
  - intros [Hi Hj]. exists i. split; [apply in_seq; lia|].
    apply in_map_iff. exists j. split; [reflexivity | apply in_seq; lia].
Qed.

Lemma fold_overwrite {A V} (hit : A -> bool) (val : A -> V) (v : V) (ps : list A) :
  (forall p, In p ps -> hit p = true -> val p = v) ->
  forall init, (init = v \/ exists p, In p ps /\ hit p = true) ->
  fold_left (fun acc p => if hit p then val p else acc) ps init = v.
Proof.
  induction ps as [|p ps IH]; intros Hv init Hi; simpl.
  - destruct Hi as [Hi | (p & [] & _)]. exact Hi.
  - apply IH; [intros; apply Hv; auto; now right|].
    destruct (hit p) eqn:Hp.
    + left. apply Hv; [now left | exact Hp].
    + destruct Hi as [Hi | (q & [<- | Hq] & Hh)]; [now left | congruence |].
      right. exists q. auto.
Qed.

Lemma fold_untouched {A V} (hit : A -> bool) (step : A -> V -> V) (ps : list A) :
  (forall p, In p ps -> hit p = false) ->
  forall init, fold_left (fun acc p => if hit p then step p acc else acc) ps init = init.
Proof.
  induction ps as [|p ps IH]; intros Hh init; simpl; [reflexivity|].
  rewrite Hh by now left. apply IH. intros; apply Hh; now right.
Qed.

Section LoopFacts.
Context {F : Type} {SF : Scalar F}.

(** A loop whose body rewrites each element from its old value alone. *)
Lemma for_pointwise {A} (s : list nat) (ps : list A)
      (body : ndarray F -> A -> result (ndarray F))
      (upd : A -> list nat -> F -> F) :
  (forall a p, In p ps -> shape a = s ->
     exists a', body a p = Ok a' /\ shape a' = s /\
       forall x, in_bounds s x -> get a' x = upd p x (get a x)) ->
  forall a0, shape a0 = s ->
    exists a', for_ ps a0 body = Ok a' /\ shape a' = s /\
      forall x, in_bounds s x ->
        get a' x = fold_left (fun acc p => upd p x acc) ps (get a0 x).
Proof.
  induction ps as [|p ps IH]; intros Hb a0 Hs; simpl.
  - exists a0. auto.
  - destruct (Hb a0 p) as (a1 & -> & Hs1 & Hg1); [now left | exact Hs |].
    destruct (IH (fun a q Hq => Hb a q (or_intror Hq)) a1 Hs1) as (a' & Hf & Hs' & Hg').
    exists a'. repeat split; auto.
    intros x Hx. rewrite Hg' by exact Hx. rewrite Hg1 by exact Hx. reflexivity.
Qed.

End LoopFacts.

(** ** Broadcasting *)

Lemma broadcast_rev_app r : forall q, broadcast_rev r (r ++ q) = Some (r ++ q).
Proof.
  induction r as [|d r IH]; intros q; simpl; [reflexivity|].
  rewrite IH, Nat.eqb_refl. reflexivity.
Qed.

Lemma broadcast_shapes_suffix p s : broadcast_shapes s (p ++ s) = Some (p ++ s).
Proof.
  unfold broadcast_shapes. rewrite rev_app_distr, broadcast_rev_app. simpl.
  rewrite <- rev_app_distr, rev_involutive. reflexivity.
Qed.

Lemma broadcast_shapes_refl s : broadcast_shapes s s = Some s.
Proof. apply (broadcast_shapes_suffix []). Qed.

Lemma shape_eqb_refl s : shape_eqb s s = true.
Proof. unfold shape_eqb. destruct (list_eq_dec Nat.eq_dec s s); congruence. Qed.

Lemma zip_bc_id s : forall idx, in_bounds s idx -> zip_bc s idx = idx.
Proof.
  induction s as [|d s IH]; intros [|i idx] H; try discriminate; [reflexivity|].
  apply in_bounds_cons in H. destruct H as [Hi H]. simpl.
  rewrite IH by exact H. destruct (Nat.eqb_spec d 1); [f_equal; lia | reflexivity].
Qed.

Lemma bc_index_suffix s p t :
  in_bounds s t -> bc_index s (p ++ t) = t.
Proof.
  intros H. unfold bc_index. rewrite length_app, (in_bounds_length _ _ H).
  replace (length p + length s - length s) with (length p) by lia.
  rewrite skipn_app, skipn_all, Nat.sub_diag. simpl.
  apply zip_bc_id, H.
Qed.

Lemma bc_index_id s t : in_bounds s t -> bc_index s t = t.
Proof. apply (bc_index_suffix s [] t). Qed.

Section OpFacts.
Context {F : Type} {SF : Scalar F}.

Lemma np_zeros_ok (dims : list nat) :
  np_zeros (map Z.of_nat dims)
  = Ok {| shape := dims; data := repeat (f0 : F) (size dims) |}.
Proof.
  unfold np_zeros.
  replace (forallb (fun d => (0 <=? d)%Z) (map Z.of_nat dims)) with true.
  - rewrite map_map. rewrite (map_ext _ (fun x => x)), map_id; [reflexivity|].
    intros; apply Nat2Z.id.
  - symmetry. apply forallb_forall. intros d Hd. apply in_map_iff in Hd.
    destruct Hd as (n & <- & _). apply Z.leb_le. lia.
Qed.

Lemma get_zeros (s idx : list nat) :
  get {| shape := s; data := repeat (f0 : F) (size s) |} idx = f0.
Proof. unfold get. simpl. apply nth_repeat. Qed.

Lemma slice2_window (a : ndarray F) d0 d1 rest i0 i1 j0 j1 :
  shape a = d0 :: d1 :: rest ->
  slice2 a i0 i1 j0 j1 = Ok (window a i0 i1 j0 j1).
Proof. intros H. unfold window, slice2. rewrite H. reflexivity. Qed.

Lemma shape_window (a : ndarray F) h w c i n j m :
  shape a = [h; w; c] -> i + n <= h -> j + m <= w ->
  shape (window a i (i + n) j (j + m)) = [n; m; c].
Proof.
  intros H Hi Hj. unfold window, slice2. rewrite H. simpl.
  f_equal; [lia|]. f_equal. lia.
Qed.

Lemma get_window (a : ndarray F) h w c i n j m t :
  shape a = [h; w; c] -> i + n <= h -> j + m <= w ->
  in_bounds [n; m; c] t ->
  get (window a i (i + n) j (j + m)) t = get a (window_index i j t).
Proof.
  intros H Hi Hj Ht. unfold window, slice2. rewrite H.
  rewrite get_tabulate.
  - destruct t as [|x [|y t]];
      try (bad_index Ht).
    unfold window_index.
    rewrite !(Nat.min_l i h), !(Nat.min_l j w) by lia. reflexivity.
  - replace (Nat.min (i + n) h - Nat.min i h) with n by lia.
    replace (Nat.min (j + m) w - Nat.min j w) with m by lia. exact Ht.
Qed.

Lemma np_binop_suffix (op : F -> F -> F) (a b : ndarray F) p s :
  shape a = s -> shape b = p ++ s ->
  exists r, np_binop op a b = Ok r /\ shape r = p ++ s /\
    forall q t, length q = length p -> in_bounds (p ++ s) (q ++ t) ->
      get r (q ++ t) = op (get a t) (get b (q ++ t)).
Proof.
  intros Ha Hb. unfold np_binop. rewrite Ha, Hb, broadcast_shapes_suffix.
  eexists. split; [reflexivity|]. split; [reflexivity|].
  intros q t Hq Hin. rewrite get_tabulate by exact Hin.
  assert (Ht : in_bounds s t).
  { clear - Hq Hin. revert q Hq Hin.
    induction p as [|d p IH]; intros [|i q] Hq Hin; try discriminate; [exact Hin|].
    simpl in Hin. apply in_bounds_cons in Hin. apply (IH q); [simpl in Hq; lia | apply Hin]. }
  rewrite bc_index_suffix by exact Ht. rewrite bc_index_id by exact Hin. reflexivity.
Qed.

Lemma setitem_ok (a v : ndarray F) p s :
  in_bounds (firstn (length p) (shape a)) p ->
  skipn (length p) (shape a) = s -> shape v = s ->
  exists r, setitem a p v = Ok r /\ shape r = shape a /\
    forall x, in_bounds (shape a) x ->
      get r x = if prefixb p x then get v (skipn (length p) x) else get a x.
Proof.
  intros Hp Hs Hv. unfold setitem. rewrite Hp, Hs, Hv, broadcast_shapes_refl, shape_eqb_refl.
  eexists. split; [reflexivity|]. split; [reflexivity|].
  intros x Hx. rewrite get_tabulate by exact Hx.
  destruct (prefixb p x) eqn:Hpx; [|reflexivity].
  rewrite bc_index_id; [reflexivity|].
  clear - Hx Hpx Hs. rewrite <- Hs. clear Hs. revert x Hx Hpx. generalize (shape a) as sa.
  induction p as [|i p IH]; intros sa x Hx Hpx; simpl; [exact Hx|].
  destruct x as [|j x]; [discriminate|]. destruct sa as [|d sa]; [discriminate|].
  apply in_bounds_cons in Hx. simpl in Hpx. apply andb_true_iff in Hpx.
  apply IH; tauto.
Qed.

End OpFacts.

(** ** Convolution: forward *)

Section ConvFacts.
Context {F : Type} {SF : Scalar F}.

(** The constructor establishes the invariant. *)
Lemma conv_wf_init (num_filters filter_size : nat) (randn : list F) :
  conv_wf (Conv2D.init num_filters filter_size randn).
Proof. reflexivity. Qed.

Lemma conv_iterate_regions (self : Conv2D.t F) (image : ndarray F) h w c :
  shape image = [h; w; c] ->
  Conv2D.iterate_regions self image
  = Ok (map (fun p => (window image (fst p) (fst p + Conv2D.filter_size self)
                                    (snd p) (snd p + Conv2D.filter_size self),
                       fst p, snd p))
            (positions (Z.of_nat h - Z.of_nat (Conv2D.filter_size self) + 1)
                       (Z.of_nat w - Z.of_nat (Conv2D.filter_size self) + 1))).
Proof.
  intros Hs. unfold Conv2D.iterate_regions. rewrite Hs. simpl.
  apply mapM_ok. intros [i j] _. simpl.
  rewrite (slice2_window _ _ _ _ _ _ _ _ Hs). reflexivity.
Qed.

Lemma get_sum_axes123 (a : ndarray F) n d1 d2 d3 :
  shape a = [n; d1; d2; d3] ->
  exists r, np_sum_axes123 a = Ok r /\ shape r = [n] /\
    forall f, f < n ->
      get r [f] = add_reduce (map (fun t => get a (f :: t)) (indices [d1; d2; d3])).
Proof.
  intros Hs. unfold np_sum_axes123. rewrite Hs.
  eexists. split; [reflexivity|]. split; [reflexivity|].
  intros f Hf. rewrite get_tabulate; [reflexivity|].
  apply in_bounds_cons. split; [exact Hf | reflexivity].
Qed.

(** One iteration of the loop of [Conv2D.forward]. *)
Lemma conv_forward_step (self : Conv2D.t F) (input out : ndarray F) h w nh nw i j :
  conv_wf self ->
  shape input = [h; w; IMG_CHANNELS] ->
  i + Conv2D.filter_size self <= h -> j + Conv2D.filter_size self <= w ->
  shape out = [nh; nw; Conv2D.num_filters self] -> i < nh -> j < nw ->
  exists out',
    (prod <- np_binop fmul
               (window input i (i + Conv2D.filter_size self)
                             j (j + Conv2D.filter_size self))
               (Conv2D.filters self) ;;
     s <- np_sum_axes123 prod ;;
     setitem out [i; j] s)%res = Ok out'
    /\ shape out' = [nh; nw; Conv2D.num_filters self]
    /\ forall x, in_bounds [nh; nw; Conv2D.num_filters self] x ->
         get out' x = if prefixb [i; j] x
                      then add_reduce (conv_terms self input i j (nth 2 x 0))
                      else get out x.
Proof.
  intros Hwf Hin Hi Hj Hout Hi' Hj'.
  set (Fs := Conv2D.filter_size self) in *.
  set (N := Conv2D.num_filters self) in *.
  pose proof (shape_window _ _ _ _ _ _ _ _ Hin Hi Hj) as Hreg.
  destruct (np_binop_suffix fmul _ _ [N] _ Hreg Hwf)
    as (prod & -> & Hps & Hpg).
  destruct (get_sum_axes123 _ _ _ _ _ Hps) as (sv & Hsv & Hss & Hsg).
  simpl. rewrite Hsv. simpl.
  destruct (setitem_ok out sv [i; j] [N]) as (out' & -> & Hos & Hog).
  - rewrite Hout. simpl. solve_bounds.
  - rewrite Hout. reflexivity.
  - exact Hss.
  - exists out'. split; [reflexivity|]. split; [congruence|].
    intros x Hx. rewrite Hog by (rewrite Hout; exact Hx).
    destruct x as [|x0 [|x1 [|f [|? ?]]]];
      try (bad_index Hx).
    apply in_bounds_cons in Hx. destruct Hx as [_ Hx].
    apply in_bounds_cons in Hx. destruct Hx as [_ Hx].
    apply in_bounds_cons in Hx. destruct Hx as [Hf _].
    simpl. destruct ((i =? x0) && ((j =? x1) && true)); [|reflexivity].
    rewrite Hsg by exact Hf. f_equal. unfold conv_terms.
    apply map_ext_in. intros t Ht. apply in_indices in Ht.
    change (f :: t) with ([f] ++ t). rewrite (Hpg [f] t); [| reflexivity |].
    + f_equal. apply (get_window _ _ _ _ _ _ _ _ _ Hin Hi Hj Ht).
    + apply in_bounds_cons. split; [exact Hf | exact Ht].
Qed.

End ConvFacts.

(** ** Convolution: backward *)

Lemma fold_single_hit {V} (step : nat -> V -> V) (f : nat) :
  forall n s init, s <= f < s + n ->
  fold_left (fun acc k => if k =? f then step k acc else acc) (seq s n) init
  = step f init.
Proof.
  induction n as [|n IH]; intros s init Hf; [lia|]. simpl.
  destruct (Nat.eqb_spec s f) as [->|Hne].
  - apply (fold_untouched (fun k => k =? f) step).
    intros p Hp. apply in_seq in Hp. apply Nat.eqb_neq. lia.
  - apply IH. lia.
Qed.

Section ConvBackwardFacts.
Context {F : Type} {SF : Scalar F}.

Lemma get_np_map (h : F -> F) (a : ndarray F) idx :
  in_bounds (shape a) idx -> get (np_map h a) idx = h (get a idx).
Proof. intros H. unfold np_map. rewrite get_tabulate by exact H. reflexivity. Qed.

Lemma shape_np_map (h : F -> F) (a : ndarray F) : shape (np_map h a) = shape a.
Proof. reflexivity. Qed.

Lemma np_ibinop_same (op : F -> F -> F) (a b : ndarray F) :
  shape b = shape a ->
  exists r, np_ibinop op a b = Ok r /\ shape r = shape a /\
    forall x, in_bounds (shape a) x -> get r x = op (get a x) (get b x).
Proof.
  intros Hb. unfold np_ibinop. rewrite Hb, broadcast_shapes_refl, shape_eqb_refl.
  eexists. split; [reflexivity|]. split; [reflexivity|].
  intros x Hx. rewrite get_tabulate by exact Hx. rewrite bc_index_id by exact Hx.
  reflexivity.
Qed.

Lemma subarray_ok (a : ndarray F) d s f :
  shape a = d :: s -> f < d ->
  exists r, subarray a [f] = Ok r /\ shape r = s /\
    forall t, in_bounds s t -> get r t = get a (f :: t).
Proof.
  intros Ha Hf. unfold subarray. rewrite Ha. simpl.
  unfold in_boundsb. rewrite (proj2 (Nat.ltb_lt _ _) Hf). simpl.
  eexists. split; [reflexivity|]. split; [reflexivity|].
  intros t Ht. rewrite get_tabulate by exact Ht. reflexivity.
Qed.

Lemma item_ok (a : ndarray F) idx :
  in_bounds (shape a) idx -> item a idx = Ok (get a idx).
Proof. intros H. unfold item. rewrite H. reflexivity. Qed.

End ConvBackwardFacts.

Lemma fold_left_ext {A B} (g g' : A -> B -> A) (l : list B) :
  (forall acc x, In x l -> g acc x = g' acc x) ->
  forall init, fold_left g l init = fold_left g' l init.
Proof.
  induction l as [|x l IH]; intros H init; simpl; [reflexivity|].
  rewrite H by now left. apply IH. intros; apply H; now right.
Qed.

Lemma fold_left_map_r {A B C} (g : A -> C -> A) (t : B -> C) (l : list B) :
  forall init, fold_left (fun acc x => g acc (t x)) l init = fold_left g (map t l) init.
Proof. induction l as [|x l IH]; intros init; simpl; [reflexivity | apply IH]. Qed.

Section ConvBackward.
Context {F : Type} {SF : Scalar F}.

(** One execution of [d_L_d_filters[f] += d_L_d_out[i, j, f] * region]. *)
Lemma conv_backward_step (self : Conv2D.t F) (input d_out d : ndarray F)
      h w nh nw i j f :
  shape input = [h; w; IMG_CHANNELS] ->
  i + Conv2D.filter_size self <= h -> j + Conv2D.filter_size self <= w ->
  shape d_out = [nh; nw; Conv2D.num_filters self] -> i < nh -> j < nw ->
  f < Conv2D.num_filters self ->
  shape d = [Conv2D.num_filters self; Conv2D.filter_size self;
             Conv2D.filter_size self; IMG_CHANNELS] ->
  exists d',
    (acc <- subarray d [f] ;;
     g <- item d_out [i; j; f] ;;
     acc <- np_ibinop fadd acc
              (np_map (fmul g)
                 (window input i (i + Conv2D.filter_size self)
                               j (j + Conv2D.filter_size self))) ;;
     setitem d [f] acc)%res = Ok d'
    /\ shape d' = shape d
    /\ forall x, in_bounds (shape d) x ->
         get d' x = if f =? hd 0 x
                    then fadd (get d x)
                              (fmul (get d_out [i; j; f])
                                    (get input (window_index i j (tl x))))
                    else get d x.
Proof.
  intros Hin Hi Hj Hout Hi' Hj' Hf Hd.
  set (Fs := Conv2D.filter_size self) in *.
  set (N := Conv2D.num_filters self) in *.
  pose proof (shape_window _ _ _ _ _ _ _ _ Hin Hi Hj) as Hreg.
  destruct (subarray_ok d _ _ f Hd Hf) as (acc & -> & Has & Hag).
  rewrite item_ok
    by (rewrite Hout; solve_bounds).
  simpl.
  destruct (np_ibinop_same fadd acc
              (np_map (fmul (get d_out [i; j; f])) (window input i (i + Fs) j (j + Fs))))
    as (acc' & -> & Has' & Hag').
  { rewrite shape_np_map. congruence. }
  simpl.
  destruct (setitem_ok d acc' [f] [Fs; Fs; IMG_CHANNELS]) as (d' & -> & Hds & Hdg).
  { rewrite Hd. solve_bounds. }
  { rewrite Hd. reflexivity. }
  { congruence. }
  exists d'. split; [reflexivity|]. split; [exact Hds|].
  intros x Hx. rewrite Hdg by exact Hx. rewrite Hd in Hx.
  destruct x as [|x0 t]; [discriminate|].
  apply in_bounds_cons in Hx. destruct Hx as [_ Ht]. simpl.
  rewrite andb_true_r. destruct (f =? x0) eqn:E; [|reflexivity].
  apply Nat.eqb_eq in E. subst x0.
  rewrite Hag' by (rewrite Has; exact Ht).
  rewrite Hag by exact Ht.
  rewrite get_np_map by (rewrite Hreg; exact Ht).
  rewrite (get_window _ _ _ _ _ _ _ _ _ Hin Hi Hj Ht). reflexivity.
Qed.

Lemma conv_backward_ok (self : Conv2D.t F) (input d_out : ndarray F) (lr : F) h w :
  conv_wf self ->
  Conv2D.last_input self = Some input ->
  shape input = [h; w; IMG_CHANNELS] ->
  Conv2D.filter_size self <= h -> Conv2D.filter_size self <= w ->
  shape d_out = [h - Conv2D.filter_size self + 1;
                 w - Conv2D.filter_size self + 1;
                 Conv2D.num_filters self] ->
  exists W,
    Conv2D.backward d_out lr self = (Conv2D.set_filters W self, Ok tt)
    /\ shape W = shape (Conv2D.filters self)
    /\ forall f t,
         in_bounds (shape (Conv2D.filters self)) (f :: t) ->
         get W (f :: t)
         = fsub (get (Conv2D.filters self) (f :: t))
                (fmul lr (conv_gradient self input d_out h w f t)).
Proof.
  intros Hwf Hlast Hin Hh Hw Hout.
  set (Fs := Conv2D.filter_size self) in *.
  set (N := Conv2D.num_filters self) in *.
  unfold Conv2D.backward, bind, assign, self_, liftR.
  rewrite np_zeros_ok, Hlast. simpl.
  rewrite (conv_iterate_regions _ _ _ _ _ Hin). simpl. fold Fs N.
  rewrite for_map.
  set (term := fun (p : nat * nat) (f : nat) (t : list nat) =>
                 fmul (get d_out [fst p; snd p; f])
                      (get input (window_index (fst p) (snd p) t))).
  match goal with
  | |- context [for_ ?l ?a ?b] =>
      destruct (for_pointwise (shape (Conv2D.filters self)) l b
                  (fun p x old =>
                     fold_left (fun acc f => if f =? hd 0 x
                                             then fadd acc (term p f (tl x))
                                             else acc)
                               (seq 0 N) old)) with (a0 := a)
        as (d & Hfor & Hds & Hdg)
  end.
  - intros a [i j] Hp Ha. apply in_positions in Hp. simpl.
    apply (for_pointwise (shape (Conv2D.filters self)) (seq 0 N) _
             (fun f x old => if f =? hd 0 x
                             then fadd old (term (i, j) f (tl x)) else old));
      [|exact Ha].
    intros a' f Hf Ha'. apply in_seq in Hf. rewrite <- Ha'.
    apply (conv_backward_step self input d_out a' h w
             (h - Fs + 1) (w - Fs + 1) i j f); auto; fold Fs; try lia.
    rewrite Ha'. exact Hwf.
  - reflexivity.
  - rewrite Hfor.
    destruct (np_ibinop_same fsub (Conv2D.filters self) (np_map (fmul lr) d))
      as (W & -> & HWs & HWg).
    { rewrite shape_np_map. exact Hds. }
    exists W. split; [reflexivity|]. split; [exact HWs|].
    intros f t Hx. rewrite HWg by exact Hx. f_equal.
    rewrite get_np_map by (rewrite Hds; exact Hx). f_equal.
    rewrite Hdg by exact Hx. rewrite get_zeros.
    unfold conv_gradient. fold Fs.
    rewrite <- (fold_left_map_r fadd (fun p => term p f t)).
    apply fold_left_ext. intros acc p _. simpl.
    apply (fold_single_hit (fun k acc => fadd acc (term p k t))).
    rewrite Hwf in Hx. apply in_bounds_cons in Hx. fold N in Hx. lia.
Qed.

End ConvBackward.

(** ** Max pooling: forward *)

Section PoolFacts.
Context {F : Type} {SF : Scalar F}.

Lemma pool_iterate_regions (self : MaxPooling2D.t F) (image : ndarray F) h w c :
  shape image = [h; w; c] -> 0 < MaxPooling2D.pool_size self ->
  MaxPooling2D.iterate_regions self image
  = Ok (map (fun p =>
               (window image (fst p * MaxPooling2D.pool_size self)
                       (fst p * MaxPooling2D.pool_size self + MaxPooling2D.pool_size self)
                       (snd p * MaxPooling2D.pool_size self)
                       (snd p * MaxPooling2D.pool_size self + MaxPooling2D.pool_size self),
                fst p, snd p))
            (positions (Z.of_nat (h / MaxPooling2D.pool_size self))
                       (Z.of_nat (w / MaxPooling2D.pool_size self)))).
Proof.
  intros Hs HP. unfold MaxPooling2D.iterate_regions, floordiv. rewrite Hs. simpl.
  destruct (Nat.eqb_spec (MaxPooling2D.pool_size self) 0) as [E|_]; [lia|]. simpl.
  apply mapM_ok. intros [i j] _. simpl.
  rewrite (slice2_window _ _ _ _ _ _ _ _ Hs). reflexivity.
Qed.

Lemma window_fits P h i : 0 < P -> i < h / P -> i * P + P <= h.
Proof.
  intros HP Hi. pose proof (Nat.div_mod_eq h P).
  assert (S i * P <= h / P * P) by (apply Nat.mul_le_mono_r; lia).
  simpl in *. nia.
Qed.

Lemma pool_max_reduce (input : ndarray F) P i j k :
  0 < P -> max_reduce (pool_window input P i j k) = Ok (pool_max input P i j k).
Proof.
  intros HP. unfold pool_max.
  destruct (pool_window input P i j k) as [|x r] eqn:E; [|reflexivity].
  assert (Hl : length (pool_window input P i j k) = 0) by now rewrite E.
  unfold pool_window in Hl. rewrite length_map, length_indices in Hl.
  simpl in Hl. nia.
Qed.

Lemma amax_window (input : ndarray F) h w n P i j :
  shape input = [h; w; n] -> 0 < P -> i < h / P -> j < w / P ->
  exists m,
    np_amax_axes01 (window input (i * P) (i * P + P) (j * P) (j * P + P)) = Ok m
    /\ shape m = [n]
    /\ forall k, k < n -> get m [k] = pool_max input P i j k.
Proof.
  intros Hin HP Hi Hj.
  pose proof (window_fits P h i HP Hi) as Hi'.
  pose proof (window_fits P w j HP Hj) as Hj'.
  pose proof (shape_window _ _ _ _ _ _ _ _ Hin Hi' Hj') as Hreg.
  unfold np_amax_axes01. rewrite Hreg.
  replace (size [P; P] =? 0) with false
    by (symmetry; apply Nat.eqb_neq; simpl; nia).
  eexists. split; [reflexivity|]. split; [reflexivity|].
  intros k Hk. rewrite get_tabulate
    by (apply in_bounds_cons; split; [exact Hk | reflexivity]).
  unfold pool_max, pool_window.
  match goal with
  | |- match max_reduce ?l1 with _ => _ end = match max_reduce ?l2 with _ => _ end =>
      replace l1 with l2; [reflexivity|]
  end.
  symmetry. apply map_ext_in. intros ab Hab. apply in_indices in Hab.
  apply (get_window _ _ _ _ _ _ _ _ _ Hin Hi' Hj').
  destruct ab as [|a [|b [|? ?]]];
    try (bad_index Hab).
  unfold in_bounds in *. simpl in *.
  rewrite (proj2 (Nat.ltb_lt _ _) Hk). exact Hab.
Qed.

End PoolFacts.

Lemma fold_keeps {A V} (g : V -> A -> V) (ps : list A) :
  (forall p acc, In p ps -> g acc p = acc) ->
  forall init, fold_left g ps init = init.
Proof.
  induction ps as [|p ps IH]; intros H init; simpl; [reflexivity|].
  rewrite H by now left. apply IH. intros; apply H; now right.
Qed.

Lemma fold_sets_or_keeps {A V} (g : V -> A -> V) (v : V) (ps : list A) :
  (forall p acc, In p ps -> g acc p = v \/ g acc p = acc) ->
  forall init, fold_left g ps init = v \/ fold_left g ps init = init.
Proof.
  induction ps as [|p ps IH]; intros H init; simpl; [now right|].
  assert (H' : forall q acc, In q ps -> g acc q = v \/ g acc q = acc)
    by (intros; apply H; now right).
  destruct (IH H' (g init p)) as [E|E]; [now left|].
  rewrite E. apply H. now left.
Qed.

Lemma fold_sets {A V} (g : V -> A -> V) (v : V) (ps : list A) :
  (forall p acc, In p ps -> g acc p = v \/ g acc p = acc) ->
  (exists p, In p ps /\ forall acc, g acc p = v) ->
  forall init, fold_left g ps init = v.
Proof.
  induction ps as [|p ps IH]; intros H (q & Hq & Hv) init; [destruct Hq|].
  assert (H' : forall q acc, In q ps -> g acc q = v \/ g acc q = acc)
    by (intros; apply H; now right).
  simpl. destruct Hq as [<-|Hq].
  - rewrite Hv. destruct (fold_sets_or_keeps g v ps H' v); assumption.
  - apply IH; [exact H' | exists q; auto].
Qed.

Lemma window_coord P i i2 r :
  i2 < P -> i * P + i2 = r -> i = r / P /\ i2 = r mod P.
Proof.
  intros Hi <-. split.
  - apply (Nat.div_unique _ _ _ i2); lia.
  - apply (Nat.mod_unique _ _ i); lia.
Qed.

(** ** Max pooling: the maximum *)

Section MaxFacts.
Context {F : Type} {SF : Scalar F}.
Hypothesis laws : MaxLaws F.

Lemma fle_refl (x : F) : fle x x.
Proof. unfold fle. destruct (fmax_sel laws x x); assumption. Qed.

Lemma fle_trans (x y z : F) : fle x y -> fle y z -> fle x z.
Proof.
  unfold fle. intros Hxy Hyz.
  rewrite <- Hyz at 1. rewrite (fmax_assoc laws), Hxy. exact Hyz.
Qed.

Lemma fle_max_l (x y : F) : fle x (fmax x y).
Proof.
  unfold fle. rewrite (fmax_assoc laws).
  destruct (fmax_sel laws x x) as [-> | ->]; reflexivity.
Qed.

Lemma fle_max_r (x y : F) : fle y (fmax x y).
Proof. rewrite (fmax_comm laws). apply fle_max_l. Qed.

Lemma fold_fmax_spec (r : list F) :
  forall x, In (fold_left fmax r x) (x :: r)
            /\ forall y, In y (x :: r) -> fle y (fold_left fmax r x).
Proof.
  induction r as [|z r IH]; intros x; simpl.
  - split; [now left|]. intros y [<-|[]]. apply fle_refl.
  - destruct (IH (fmax x z)) as [Hin Hub]. split.
    + destruct Hin as [E|Hin]; [|now right; right].
      destruct (fmax_sel laws x z) as [E'|E']; rewrite <- E, E'; auto.
    + intros y [<-|[<-|Hy]].
      * apply fle_trans with (fmax x z); [apply fle_max_l | apply Hub; now left].
      * apply fle_trans with (fmax x z); [apply fle_max_r | apply Hub; now left].
      * apply Hub. now right.
Qed.

Lemma max_reduce_spec (l : list F) :
  l <> [] ->
  exists m, max_reduce l = Ok m /\ In m l /\ forall y, In y l -> fle y m.
Proof.
  destruct l as [|x r]; [congruence|]. intros _.
  exists (fold_left fmax r x). split; [reflexivity|]. apply fold_fmax_spec.
Qed.

Lemma in_pool_window (input : ndarray F) P i j k v :
  In v (pool_window input P i j k) <->
  exists a b, a < P /\ b < P /\ v = get input [i * P + a; j * P + b; k].
Proof.
  unfold pool_window. rewrite in_map_iff. split.
  - intros (ab & <- & Hab). apply in_indices in Hab.
    destruct ab as [|a [|b [|? ?]]];
      try (bad_index Hab).
    apply in_bounds_cons in Hab. destruct Hab as [Ha Hab].
    apply in_bounds_cons in Hab. destruct Hab as [Hb _].
    exists a, b. auto.
  - intros (a & b & Ha & Hb & ->). exists [a; b]. split; [reflexivity|].
    apply in_indices. solve_bounds.
Qed.

Lemma pool_max_spec (input : ndarray F) P i j k :
  0 < P ->
  (exists a b, a < P /\ b < P /\
     pool_max input P i j k = get input [i * P + a; j * P + b; k])
  /\ (forall a b, a < P -> b < P ->
        fle (get input [i * P + a; j * P + b; k]) (pool_max input P i j k)).
Proof.
  intros HP. unfold pool_max.
  destruct (max_reduce_spec (pool_window input P i j k)) as (m & -> & Hin & Hub).
  - intros E. assert (Hl : length (pool_window input P i j k) = 0) by now rewrite E.
    unfold pool_window in Hl. rewrite length_map, length_indices in Hl.
    simpl in Hl. nia.
  - split.
    + apply in_pool_window in Hin. exact Hin.
    + intros a b Ha Hb. apply Hub, in_pool_window. exists a, b. auto.
Qed.

End MaxFacts.

(** ** Max pooling: backward *)

Section PoolBackward.
Context {F : Type} {SF : Scalar F}.

Lemma pool_backward_step (input d_out amax d : ndarray F) h w n P i j i2 j2 f2 :
  shape input = [h; w; n] -> 0 < P -> i < h / P -> j < w / P ->
  shape d_out = [h / P; w / P; n] ->
  shape amax = [n] -> (forall k, k < n -> get amax [k] = pool_max input P i j k) ->
  i2 < P -> j2 < P -> f2 < n ->
  shape d = [h; w; n] ->
  exists d',
    (x <- item (window input (i * P) (i * P + P) (j * P) (j * P + P)) [i2; j2; f2] ;;
     m <- item amax [f2] ;;
     if feqb x m
     then g <- item d_out [i; j; f2] ;;
          setitem d [i * P + i2; j * P + j2; f2] (scalar g)
     else Ok d)%res = Ok d'
    /\ shape d' = [h; w; n]
    /\ forall x, in_bounds [h; w; n] x ->
         get d' x = route input d_out P (i, j) i2 j2 f2 x (get d x).
Proof.
  intros Hin HP Hi Hj Hout Hams Hamg Hi2 Hj2 Hf2 Hd.
  pose proof (window_fits P h i HP Hi) as Hi'.
  pose proof (window_fits P w j HP Hj) as Hj'.
  pose proof (shape_window _ _ _ _ _ _ _ _ Hin Hi' Hj') as Hreg.
  assert (Hb : in_bounds [P; P; n] [i2; j2; f2])
    by solve_bounds.
  rewrite item_ok by (rewrite Hreg; exact Hb).
  rewrite (get_window _ _ _ _ _ _ _ _ _ Hin Hi' Hj' Hb).
  rewrite item_ok
    by (rewrite Hams; solve_bounds).
  rewrite Hamg by exact Hf2.
  unfold route. simpl.
  destruct (feqb _ _).
  - rewrite item_ok
      by (rewrite Hout; solve_bounds).
    simpl.
    destruct (setitem_ok d (scalar (get d_out [i; j; f2]))
                [i * P + i2; j * P + j2; f2] []) as (d' & -> & Hds & Hdg).
    { rewrite Hd. solve_bounds. }
    { rewrite Hd. reflexivity. }
    { reflexivity. }
    exists d'. split; [reflexivity|]. split; [congruence|].
    intros x Hx. rewrite Hdg by (rewrite Hd; exact Hx).
    destruct x as [|x0 [|x1 [|x2 [|? ?]]]];
      try (bad_index Hx).
    reflexivity.
  - exists d. auto.
Qed.

Lemma route_sets_or_keeps (input d_out : ndarray F) P r c k p i2 j2 f2 acc :
  i2 < P -> j2 < P ->
  route input d_out P p i2 j2 f2 [r; c; k] acc = get d_out [r / P; c / P; k]
  \/ route input d_out P p i2 j2 f2 [r; c; k] acc = acc.
Proof.
  intros Hi2 Hj2. unfold route.
  destruct (feqb _ _); [|now right]. simpl.
  destruct (Nat.eqb_spec (fst p * P + i2) r) as [Er|]; [|now right].
  destruct (Nat.eqb_spec (snd p * P + j2) c) as [Ec|]; [|now right].
  destruct (Nat.eqb_spec f2 k) as [Ek|]; [|now right].
  left. simpl.
  apply window_coord in Er; [|exact Hi2]. apply window_coord in Ec; [|exact Hj2].
  destruct Er as [-> _], Ec as [-> _]. subst. reflexivity.
Qed.

Lemma pool_backward_ok (self : MaxPooling2D.t F) (input d_out : ndarray F) h w n :
  MaxPooling2D.last_input self = Some input ->
  shape input = [h; w; n] -> 0 < MaxPooling2D.pool_size self ->
  shape d_out = [h / MaxPooling2D.pool_size self;
                 w / MaxPooling2D.pool_size self; n] ->
  exists g,
    MaxPooling2D.backward d_out self = (self, Ok g)
    /\ shape g = [h; w; n]
    /\ forall x, in_bounds [h; w; n] x ->
         get g x = pool_gradient input d_out (MaxPooling2D.pool_size self) h w x.
Proof.
  intros Hlast Hin HP Hout.
  set (P := MaxPooling2D.pool_size self) in *.
  unfold MaxPooling2D.backward, bind, assign, self_, liftR.
  rewrite Hlast. simpl. rewrite np_zeros_ok.
  rewrite (pool_iterate_regions _ _ _ _ _ Hin) by exact HP.
  simpl. fold P. rewrite for_map. rewrite Hin.
  match goal with
  | |- context [for_ ?l ?a ?b] =>
      destruct (for_pointwise [h; w; n] l b
                  (fun p x old =>
                     fold_left (fun acc i2 =>
                     fold_left (fun acc j2 =>
                     fold_left (fun acc f2 => route input d_out P p i2 j2 f2 x acc)
                               (seq 0 n) acc) (seq 0 P) acc) (seq 0 P) old))
        with (a0 := a)
        as (g & Hfor & Hgs & Hgg)
  end;
    [ | | exists g; split; [rewrite Hfor; reflexivity|]; split; [exact Hgs|]].
  - intros a [i j] Hp Ha. apply in_positions in Hp. simpl.
    assert (Hi : i < h / P) by lia. assert (Hj : j < w / P) by lia.
    rewrite (shape_window _ _ _ _ _ _ _ _ Hin (window_fits P h i HP Hi)
               (window_fits P w j HP Hj)).
    simpl.
    destruct (amax_window input h w n P i j Hin HP Hi Hj) as (m & -> & Hms & Hmg).
    simpl.
    apply (for_pointwise [h; w; n] (seq 0 P) _
             (fun i2 x old =>
                fold_left (fun acc j2 =>
                fold_left (fun acc f2 => route input d_out P (i, j) i2 j2 f2 x acc)
                          (seq 0 n) acc) (seq 0 P) old)); [|exact Ha].
    intros a1 i2 Hi2 Ha1. apply in_seq in Hi2.
    apply (for_pointwise [h; w; n] (seq 0 P) _
             (fun j2 x old =>
                fold_left (fun acc f2 => route input d_out P (i, j) i2 j2 f2 x acc)
                          (seq 0 n) old)); [|exact Ha1].
    intros a2 j2 Hj2 Ha2. apply in_seq in Hj2.
    apply (for_pointwise [h; w; n] (seq 0 n) _
             (fun f2 x old => route input d_out P (i, j) i2 j2 f2 x old));
      [|exact Ha2].
    intros a3 f2 Hf2 Ha3. apply in_seq in Hf2.
    apply (pool_backward_step input d_out m a3 h w n P i j i2 j2 f2);
      auto; lia.
  - reflexivity.
  - intros x Hx. rewrite Hgg by exact Hx. rewrite get_zeros.
    destruct x as [|r [|c [|k [|? ?]]]];
      try (bad_index Hx).
    apply in_bounds_cons in Hx. destruct Hx as [Hr Hx].
    apply in_bounds_cons in Hx. destruct Hx as [Hc Hx].
    apply in_bounds_cons in Hx. destruct Hx as [Hk _].
    unfold pool_gradient.
    assert (SK : forall p i2 j2 f2 acc, In i2 (seq 0 P) -> In j2 (seq 0 P) ->
              route input d_out P p i2 j2 f2 [r; c; k] acc = get d_out [r / P; c / P; k]
              \/ route input d_out P p i2 j2 f2 [r; c; k] acc = acc).
    { intros p i2 j2 f2 acc Hi2 Hj2. apply in_seq in Hi2, Hj2.
      apply route_sets_or_keeps; lia. }
    destruct ((r <? h / P * P) && (c <? w / P * P)
              && feqb (get input [r; c; k]) (pool_max input P (r / P) (c / P) k))
      eqn:Hcond.
    + apply andb_true_iff in Hcond. destruct Hcond as [Hrc Heq].
      apply andb_true_iff in Hrc. destruct Hrc as [Hr' Hc'].
      apply Nat.ltb_lt in Hr', Hc'.
      pose proof (Nat.div_mod_eq r P) as Er. pose proof (Nat.div_mod_eq c P) as Ec.
      pose proof (Nat.mod_upper_bound r P ltac:(lia)) as Br.
      pose proof (Nat.mod_upper_bound c P ltac:(lia)) as Bc.
      assert (Hri : r / P < h / P) by (apply Nat.Div0.div_lt_upper_bound; lia).
      assert (Hcj : c / P < w / P) by (apply Nat.Div0.div_lt_upper_bound; lia).
      apply fold_sets.
      { intros p acc _.
        apply fold_sets_or_keeps. intros i2 acc1 Hi2.
        apply fold_sets_or_keeps. intros j2 acc2 Hj2.
        apply fold_sets_or_keeps. intros f2 acc3 _. apply SK; assumption. }
      exists (r / P, c / P). split; [apply in_positions; lia|]. intros acc.
      apply fold_sets.
      { intros i2 acc1 Hi2.
        apply fold_sets_or_keeps. intros j2 acc2 Hj2.
        apply fold_sets_or_keeps. intros f2 acc3 _. apply SK; assumption. }
      exists (r mod P). split; [apply in_seq; lia|]. intros acc1.
      apply fold_sets.
      { intros j2 acc2 Hj2.
        apply fold_sets_or_keeps. intros f2 acc3 _. apply SK; [apply in_seq; lia | assumption]. }
      exists (c mod P). split; [apply in_seq; lia|]. intros acc2.
      apply fold_sets.
      { intros f2 acc3 _. apply SK; apply in_seq; lia. }
      exists k. split; [apply in_seq; lia|]. intros acc3.
      unfold route. simpl.
      replace (r / P * P + r mod P) with r by lia.
      replace (c / P * P + c mod P) with c by lia.
      rewrite !Nat.eqb_refl. simpl. rewrite andb_true_r.
      match goal with
      | |- (if ?b then _ else _) = _ => replace b with true by (symmetry; exact Heq)
      end.
      reflexivity.
    + apply fold_keeps. intros [i j] acc Hp. apply in_positions in Hp.
      apply fold_keeps. intros i2 acc1 Hi2. apply in_seq in Hi2.
      apply fold_keeps. intros j2 acc2 Hj2. apply in_seq in Hj2.
      apply fold_keeps. intros f2 acc3 _.
      unfold route. simpl.
      destruct (Nat.eqb_spec (i * P + i2) r) as [Er|];
        [|rewrite andb_false_r; reflexivity].
      destruct (Nat.eqb_spec (j * P + j2) c) as [Ec|];
        [|rewrite andb_false_r; reflexivity].
      destruct (Nat.eqb_spec f2 k) as [Ek|];
        [|rewrite andb_false_r; reflexivity].
      simpl. rewrite andb_true_r.
      pose proof (window_coord P i i2 r ltac:(lia) Er) as [Ei _].
      pose proof (window_coord P j j2 c ltac:(lia) Ec) as [Ej _].
      assert (Hr' : r < h / P * P) by (subst r; nia).
      assert (Hc' : c < w / P * P) by (subst c; nia).
      apply Nat.ltb_lt in Hr', Hc'. rewrite Hr', Hc' in Hcond. simpl in Hcond.
      rewrite Er, Ec, Ek, Ei, Ej, Hcond. reflexivity.
Qed.

End PoolBackward.

(** ** Dense layer *)

Section DenseFacts.
Context {F : Type} {SF : Scalar F}.

(** The constructor establishes the invariant. *)
Lemma dense_wf_init (input_len nodes : nat) (randn : list F) :
  dense_wf (Dense.init input_len nodes randn) input_len nodes.
Proof. split; reflexivity. Qed.

Lemma get_flatten (a : ndarray F) k :
  get (flatten a) [k] = nth k (data a) f0.
Proof. unfold get, flatten. simpl. f_equal. lia. Qed.

Lemma get_vector (a : ndarray F) n k :
  shape a = [n] -> get a [k] = nth k (data a) f0.
Proof. intros H. unfold get. rewrite H. simpl. f_equal. lia. Qed.

Lemma bound1 n k : k < n -> in_bounds [n] [k].
Proof.
  intros H. solve_bounds.
Qed.

Lemma bound2 n m k l : k < n -> l < m -> in_bounds [n; m] [k; l].
Proof.
  intros H1 H2. solve_bounds.
Qed.

Lemma np_dot_vec_mat (x W : ndarray F) L C :
  shape x = [L] -> shape W = [L; C] ->
  exists r, np_dot x W = Ok r /\ shape r = [C] /\
    forall c, c < C -> get r [c] = dot_col x W L c.
Proof.
  intros Hx HW. unfold np_dot. rewrite Hx, HW, Nat.eqb_refl.
  eexists. split; [reflexivity|]. split; [reflexivity|].
  intros c Hc. rewrite get_tabulate by (apply bound1, Hc). reflexivity.
Qed.

Lemma np_dot_mat_vec (W d : ndarray F) L C :
  shape W = [L; C] -> shape d = [C] ->
  exists r, np_dot W d = Ok r /\ shape r = [L] /\
    forall l, l < L -> get r [l] = dot_row W d C l.
Proof.
  intros HW Hd. unfold np_dot. rewrite HW, Hd, Nat.eqb_refl.
  eexists. split; [reflexivity|]. split; [reflexivity|].
  intros l Hl. rewrite get_tabulate by (apply bound1, Hl). reflexivity.
Qed.

(** The product of a column by a row is the outer product. *)
Lemma np_dot_outer (x d : ndarray F) L C :
  shape x = [L] -> shape d = [C] ->
  exists col row r,
    newaxis_col x = Ok col /\ newaxis_row d = Ok row /\ np_dot col row = Ok r
    /\ shape r = [L; C]
    /\ forall l c, l < L -> c < C -> get r [l; c] = fmul (get x [l]) (get d [c]).
Proof.
  intros Hx Hd. unfold newaxis_col, newaxis_row. rewrite Hx, Hd.
  do 2 eexists. unfold np_dot. simpl.
  eexists. split; [reflexivity|]. split; [reflexivity|]. split; [reflexivity|].
  split; [reflexivity|].
  intros l c Hl Hc. rewrite get_tabulate by (apply bound2; assumption).
  simpl. unfold get. rewrite Hx, Hd. simpl.
  f_equal; f_equal; lia.
Qed.

Lemma dense_forward_ok (self : Dense.t F) (input : ndarray F) L C :
  dense_wf self L C -> size (shape input) = L ->
  exists totals,
    Dense.forward input self
    = (Dense.set_last_totals totals
         (Dense.set_last_input (flatten input)
            (Dense.set_last_input_shape (shape input) self)), Ok totals)
    /\ shape totals = [C]
    /\ forall c, c < C ->
         get totals [c]
         = fadd (dot_col (flatten input) (Dense.weights self) L c)
                (get (Dense.biases self) [c]).
Proof.
  intros [HW Hb] HL.
  unfold Dense.forward, bind, assign, self_, liftR, ret. simpl.
  rewrite HW. simpl.
  destruct (np_dot_vec_mat (flatten input) (Dense.weights self) L C)
    as (xw & -> & Hxs & Hxg); [simpl; congruence | exact HW |].
  unfold np_binop. rewrite Hxs, Hb, broadcast_shapes_refl.
  eexists. split; [reflexivity|]. split; [reflexivity|].
  intros c Hc. rewrite get_tabulate by (apply bound1, Hc).
  rewrite !bc_index_id by (apply bound1, Hc).
  rewrite Hxg by exact Hc. reflexivity.
Qed.

Lemma dense_backward_ok (self : Dense.t F) (x d_out : ndarray F) (lr : F) s L C :
  dense_wf self L C ->
  Dense.last_input self = Some x -> shape x = [L] ->
  Dense.last_input_shape self = Some s -> size s = L ->
  shape d_out = [C] ->
  exists W b g,
    Dense.backward d_out lr self
    = (Dense.set_biases b (Dense.set_weights W self), Ok g)
    /\ shape W = [L; C]
    /\ (forall l c, l < L -> c < C ->
          get W [l; c]
          = fsub (get (Dense.weights self) [l; c])
                 (fmul lr (fmul (get x [l]) (get d_out [c]))))
    /\ shape b = [C]
    /\ (forall c, c < C ->
          get b [c]
          = fsub (get (Dense.biases self) [c]) (fmul lr (fmul (get d_out [c]) f1)))
    /\ shape g = s
    /\ (forall l, l < L ->
          get (flatten g) [l] = dot_row (Dense.weights self) d_out C l).
Proof.
  intros [HW Hb] Hlast Hx Hshape Hs Hd.
  unfold Dense.backward, bind, assign, self_, liftR. rewrite Hlast. simpl.
  destruct (np_dot_outer x d_out L C Hx Hd)
    as (col & row & dw & -> & -> & -> & Hdws & Hdwg).
  simpl.
  destruct (np_dot_mat_vec (Dense.weights self) d_out L C HW Hd)
    as (di & -> & Hdis & Hdig).
  simpl.
  destruct (np_ibinop_same fsub (Dense.weights self) (np_map (fmul lr) dw))
    as (W & -> & HWs & HWg); [rewrite shape_np_map; congruence|].
  simpl.
  destruct (np_ibinop_same fsub (Dense.biases self)
              (np_map (fmul lr) (np_map (fun v => fmul v f1) d_out)))
    as (b & -> & Hbs & Hbg); [rewrite !shape_np_map; congruence|].
  simpl. rewrite Hshape. simpl.
  unfold reshape. rewrite Hdis. simpl. rewrite Nat.mul_1_r, Hs, Nat.eqb_refl.
  do 3 eexists. split; [reflexivity|].
  split; [congruence|]. split.
  { intros l c Hl Hc. rewrite HWg by (rewrite HW; apply bound2; assumption).
    rewrite get_np_map by (rewrite Hdws; apply bound2; assumption).
    rewrite Hdwg by assumption. reflexivity. }
  split; [congruence|]. split.
  { intros c Hc. rewrite Hbg by (rewrite Hb; apply bound1, Hc).
    rewrite get_np_map by (rewrite shape_np_map, Hd; apply bound1, Hc).
    rewrite get_np_map by (rewrite Hd; apply bound1, Hc). reflexivity. }
  split; [reflexivity|].
  intros l Hl. rewrite get_flatten. simpl.
  rewrite <- (get_vector di L l Hdis). apply Hdig, Hl.
Qed.

End DenseFacts.

(** ** Forward passes and the learned parameters *)

Section FrameFacts.
Context {F : Type} {SF : Scalar F}.

Lemma conv_forward_state (input : ndarray F) (self : Conv2D.t F) :
  fst (Conv2D.forward input self) = Conv2D.set_last_input input self.
Proof.
  unfold Conv2D.forward, bind, assign, self_, liftR. simpl.
  destruct (unpack3 (shape input)) as [[[h w] c]|]; simpl; [|reflexivity].
  destruct (np_zeros _); simpl; [|reflexivity].
  destruct (Conv2D.iterate_regions _ _); reflexivity.
Qed.

Lemma pool_forward_state (input : ndarray F) (self : MaxPooling2D.t F) :
  fst (MaxPooling2D.forward input self) = MaxPooling2D.set_last_input input self.
Proof.
  unfold MaxPooling2D.forward, bind, assign, self_, liftR. simpl.
  destruct (unpack3 (shape input)) as [[[h w] c]|]; simpl; [|reflexivity].
  destruct (floordiv h _); simpl; [|reflexivity].
  destruct (floordiv w _); simpl; [|reflexivity].
  destruct (np_zeros _); simpl; [|reflexivity].
  destruct (MaxPooling2D.iterate_regions _ _); reflexivity.
Qed.

Lemma dense_forward_params (input : ndarray F) (self : Dense.t F) :
  Dense.weights (fst (Dense.forward input self)) = Dense.weights self
  /\ Dense.biases (fst (Dense.forward input self)) = Dense.biases self.
Proof.
  unfold Dense.forward, bind, assign, self_, liftR, ret. simpl.
  destruct (unpack2 _) as [[n m]|]; simpl; [|split; reflexivity].
  destruct (np_dot _ _); simpl; [|split; reflexivity].
  destruct (np_binop _ _ _); simpl; split; reflexivity.
Qed.

End FrameFacts.

Section NetworkFrame.
Context {F : Type} {SF : Scalar F} {EF : Elementary F}.

Lemma network_forward_params (image : ndarray F) (label : Z) (net : Network.t F) :
  Conv2D.filters (Network.conv (fst (Network.forward image label net)))
  = Conv2D.filters (Network.conv net)
  /\ Dense.weights (Network.dense (fst (Network.forward image label net)))
     = Dense.weights (Network.dense net)
  /\ Dense.biases (Network.dense (fst (Network.forward image label net)))
     = Dense.biases (Network.dense net).
Proof.
  unfold Network.forward, bind, on.
  match goal with |- context [Conv2D.forward ?x (Network.conv net)] =>
    pose proof (conv_forward_state x (Network.conv net)) as Hc;
    destruct (Conv2D.forward x (Network.conv net)) as [c' [out|e]]
  end; simpl in Hc; subst c'; simpl; [|repeat split].
  match goal with |- context [MaxPooling2D.forward ?x ?p] =>
    destruct (MaxPooling2D.forward x p) as [p' [out'|e]]
  end; simpl; [|repeat split].
  match goal with |- context [Dense.forward ?x ?d] =>
    pose proof (dense_forward_params x d) as [Hw Hb];
    destruct (Dense.forward x d) as [d' [totals|e]]
  end; simpl in Hw, Hb; simpl; [|repeat split; assumption].
  unfold liftR, ret.
  destruct (softmax totals); simpl; [|repeat split; assumption].
  destruct (cross_entropy_loss _ _); simpl; [|repeat split; assumption].
  destruct (np_argmax _); simpl; repeat split; assumption.
Qed.

End NetworkFrame.

(** ** When the forward passes raise *)

Lemma positions_nil n m :
  Z.to_nat n = 0 \/ Z.to_nat m = 0 -> positions n m = [].
Proof.
  unfold positions, range. intros [-> | ->]; [reflexivity|]. simpl.
  induction (seq 0 (Z.to_nat n)); [reflexivity | assumption].
Qed.

Lemma positions_cons n m :
  0 < Z.to_nat n -> 0 < Z.to_nat m -> exists l, positions n m = (0, 0) :: l.
Proof.
  unfold positions, range. intros Hn Hm.
  destruct (Z.to_nat n) as [|n']; [lia|]. destruct (Z.to_nat m) as [|m']; [lia|].
  simpl. eauto.
Qed.

Section RejectFacts.
Context {F : Type} {SF : Scalar F}.

Lemma for_shape {A} (s : list nat) (ps : list A)
      (body : ndarray F -> A -> result (ndarray F)) :
  (forall a p, In p ps -> shape a = s ->
     exists a', body a p = Ok a' /\ shape a' = s) ->
  forall a0, shape a0 = s ->
    exists a', for_ ps a0 body = Ok a' /\ shape a' = s.
Proof.
  induction ps as [|p ps IH]; intros Hb a0 Hs; simpl.
  - exists a0. auto.
  - destruct (Hb a0 p) as (a1 & -> & Hs1); [now left | exact Hs |].
    apply IH; [|exact Hs1]. intros a q Hq. apply Hb. now right.
Qed.

Lemma conv_forward_unpack (self : Conv2D.t F) (input : ndarray F) :
  length (shape input) <> 3 ->
  snd (Conv2D.forward input self) = Err UnpackError.
Proof.
  intros H. unfold Conv2D.forward, bind, assign, self_, liftR. simpl.
  destruct (shape input) as [|h [|w [|c [|? ?]]]]; simpl in *;
    try reflexivity; lia.
Qed.

Lemma conv_forward_negative (self : Conv2D.t F) (input : ndarray F) h w c :
  shape input = [h; w; c] ->
  h + 1 < Conv2D.filter_size self \/ w + 1 < Conv2D.filter_size self ->
  snd (Conv2D.forward input self) = Err NegativeDimensions.
Proof.
  intros Hin Hneg. unfold Conv2D.forward, bind, assign, self_, liftR.
  rewrite Hin. simpl. unfold np_zeros. simpl forallb.
  destruct Hneg as [Hneg | Hneg].
  - replace (0 <=? Z.of_nat h - Z.of_nat (Conv2D.filter_size self) + 1)%Z
      with false by (symmetry; apply Z.leb_gt; lia).
    reflexivity.
  - replace (0 <=? Z.of_nat w - Z.of_nat (Conv2D.filter_size self) + 1)%Z
      with false by (symmetry; apply Z.leb_gt; lia).
    rewrite andb_false_r. reflexivity.
Qed.

Lemma conv_forward_empty (self : Conv2D.t F) (input : ndarray F) h w c :
  shape input = [h; w; c] ->
  Conv2D.filter_size self <= h + 1 -> Conv2D.filter_size self <= w + 1 ->
  Conv2D.filter_size self = h + 1 \/ Conv2D.filter_size self = w + 1 ->
  exists out,
    snd (Conv2D.forward input self) = Ok out
    /\ shape out = [h + 1 - Conv2D.filter_size self;
                    w + 1 - Conv2D.filter_size self;
                    Conv2D.num_filters self]
    /\ data out = [].
Proof.
  intros Hin Hh Hw Hz.
  set (Fs := Conv2D.filter_size self) in *.
  unfold Conv2D.forward, bind, assign, self_, liftR. rewrite Hin. simpl. fold Fs.
  replace [(Z.of_nat h - Z.of_nat Fs + 1)%Z; (Z.of_nat w - Z.of_nat Fs + 1)%Z;
           Z.of_nat (Conv2D.num_filters self)]
    with (map Z.of_nat [h + 1 - Fs; w + 1 - Fs; Conv2D.num_filters self])
    by (simpl; repeat f_equal; lia).
  rewrite np_zeros_ok.
  rewrite (conv_iterate_regions _ _ _ _ _ Hin). simpl. fold Fs.
  rewrite positions_nil by lia. simpl.
  eexists. split; [reflexivity|]. split; [reflexivity|]. simpl.
  replace ((h + 1 - Fs) * ((w + 1 - Fs) * (Conv2D.num_filters self * 1))) with 0 by nia.
  reflexivity.
Qed.

Lemma broadcast_channels Fs N c :
  broadcast_shapes [Fs; Fs; c] [N; Fs; Fs; IMG_CHANNELS]
  = if (c =? IMG_CHANNELS) || (c =? 1) then Some [N; Fs; Fs; IMG_CHANNELS] else None.
Proof.
  unfold broadcast_shapes. simpl. rewrite !Nat.eqb_refl.
  destruct (Nat.eqb_spec c IMG_CHANNELS) as [-> | _]; [reflexivity|].
  destruct (c =? 1); reflexivity.
Qed.

Lemma conv_forward_mismatch (self : Conv2D.t F) (input : ndarray F) h w c :
  conv_wf self -> shape input = [h; w; c] ->
  Conv2D.filter_size self <= h -> Conv2D.filter_size self <= w ->
  c <> 1 -> c <> IMG_CHANNELS ->
  snd (Conv2D.forward input self) = Err BroadcastError.
Proof.
  intros Hwf Hin Hh Hw Hc1 Hc3.
  set (Fs := Conv2D.filter_size self) in *.
  unfold Conv2D.forward, bind, assign, self_, liftR. rewrite Hin. simpl. fold Fs.
  replace [(Z.of_nat h - Z.of_nat Fs + 1)%Z; (Z.of_nat w - Z.of_nat Fs + 1)%Z;
           Z.of_nat (Conv2D.num_filters self)]
    with (map Z.of_nat [h + 1 - Fs; w + 1 - Fs; Conv2D.num_filters self])
    by (simpl; repeat f_equal; lia).
  rewrite np_zeros_ok.
  rewrite (conv_iterate_regions _ _ _ _ _ Hin). simpl. fold Fs.
  destruct (positions_cons (Z.of_nat h - Z.of_nat Fs + 1) (Z.of_nat w - Z.of_nat Fs + 1))
    as (l & ->); [lia | lia |].
  simpl. unfold np_binop.
  rewrite (shape_window input h w c 0 Fs 0 Fs Hin) by lia.
  rewrite Hwf. fold Fs. rewrite broadcast_channels.
  destruct (Nat.eqb_spec c IMG_CHANNELS); [contradiction|].
  destruct (Nat.eqb_spec c 1); [contradiction|]. reflexivity.
Qed.

Lemma conv_forward_broadcast (self : Conv2D.t F) (input : ndarray F) h w c :
  conv_wf self -> shape input = [h; w; c] ->
  Conv2D.filter_size self <= h -> Conv2D.filter_size self <= w ->
  c = 1 \/ c = IMG_CHANNELS ->
  exists out,
    snd (Conv2D.forward input self) = Ok out
    /\ shape out = [h - Conv2D.filter_size self + 1;
                    w - Conv2D.filter_size self + 1;
                    Conv2D.num_filters self].
Proof.
  intros Hwf Hin Hh Hw Hc.
  set (Fs := Conv2D.filter_size self) in *.
  set (N := Conv2D.num_filters self) in *.
  unfold Conv2D.forward, bind, assign, self_, liftR. rewrite Hin. simpl. fold Fs N.
  replace [(Z.of_nat h - Z.of_nat Fs + 1)%Z; (Z.of_nat w - Z.of_nat Fs + 1)%Z; Z.of_nat N]
    with (map Z.of_nat [h - Fs + 1; w - Fs + 1; N])
    by (simpl; repeat f_equal; lia).
  rewrite np_zeros_ok.
  rewrite (conv_iterate_regions _ _ _ _ _ Hin). simpl. fold Fs.
  rewrite for_map.
  apply (for_shape [h - Fs + 1; w - Fs + 1; N]); [|reflexivity].
  intros a [i j] Hp Ha. apply in_positions in Hp. simpl.
  unfold np_binop.
  rewrite (shape_window input h w c i Fs j Fs Hin) by lia.
  rewrite Hwf. fold Fs N. rewrite broadcast_channels.
  replace ((c =? IMG_CHANNELS) || (c =? 1)) with true
    by (destruct Hc as [-> | ->]; reflexivity).
  simpl.
  destruct (setitem_ok a
              (tabulate [N]
                 (fun idx => add_reduce
                    (map (fun t => get
                       (tabulate [N; Fs; Fs; IMG_CHANNELS]
                          (fun idx0 =>
                             fmul (get (window input i (i + Fs) j (j + Fs))
                                       (bc_index [Fs; Fs; c] idx0))
                                  (get (Conv2D.filters self)
                                       (bc_index [N; Fs; Fs; IMG_CHANNELS] idx0))))
                       (idx ++ t)) (indices [Fs; Fs; IMG_CHANNELS]))))
              [i; j] [N]) as (a' & Ha' & Hs' & _).
  - rewrite Ha. solve_bounds.
  - rewrite Ha. reflexivity.
  - reflexivity.
  - exists a'. split; [exact Ha' | congruence].
Qed.

Lemma conv_forward_shape (self : Conv2D.t F) (input : ndarray F) h w :
  conv_wf self -> shape input = [h; w; IMG_CHANNELS] ->
  Conv2D.filter_size self <= h -> Conv2D.filter_size self <= w ->
  exists out,
    Conv2D.forward input self = (Conv2D.set_last_input input self, Ok out)
    /\ shape out = [h - Conv2D.filter_size self + 1;
                    w - Conv2D.filter_size self + 1;
                    Conv2D.num_filters self].
Proof.
  intros Hwf Hin Hh Hw.
  destruct (conv_forward_broadcast self input h w IMG_CHANNELS Hwf Hin Hh Hw
              (or_intror eq_refl)) as (out & Ho & Hs).
  exists out. split; [|exact Hs].
  rewrite (surjective_pairing (Conv2D.forward input self)).
  rewrite conv_forward_state, Ho. reflexivity.
Qed.

Lemma pool_forward_shape (self : MaxPooling2D.t F) (input : ndarray F) h w n :
  shape input = [h; w; n] -> 0 < MaxPooling2D.pool_size self ->
  exists out,
    MaxPooling2D.forward input self = (MaxPooling2D.set_last_input input self, Ok out)
    /\ shape out = [h / MaxPooling2D.pool_size self;
                    w / MaxPooling2D.pool_size self; n].
Proof.
  intros Hin HP.
  set (P := MaxPooling2D.pool_size self) in *.
  unfold MaxPooling2D.forward, bind, assign, self_, liftR, floordiv.
  rewrite Hin. simpl. fold P.
  destruct (Nat.eqb_spec P 0) as [E|_]; [lia|]. simpl.
  change [Z.of_nat (h / P); Z.of_nat (w / P); Z.of_nat n]
    with (map Z.of_nat [h / P; w / P; n]).
  rewrite np_zeros_ok.
  rewrite (pool_iterate_regions _ _ _ _ _ Hin) by (simpl; exact HP).
  simpl. fold P. rewrite for_map.
  match goal with
  | |- context [for_ ?l ?a ?b] =>
      destruct (for_shape [h / P; w / P; n] l b) with (a0 := a) as (out & Hfor & Hos)
  end; [ | reflexivity | exists out; rewrite Hfor; auto ].
  intros a [i j] Hp Ha. apply in_positions in Hp. simpl.
  destruct (amax_window input h w n P i j Hin HP) as (m & -> & Hms & _); try lia.
  simpl.
  destruct (setitem_ok a m [i; j] [n]) as (a' & -> & Has & _).
  - rewrite Ha. solve_bounds.
  - rewrite Ha. reflexivity.
  - exact Hms.
  - exists a'. split; [reflexivity | congruence].
Qed.

Lemma conv_forward_raises_iff (self : Conv2D.t F) (input : ndarray F) :
  conv_wf self ->
  raises (Conv2D.forward input) self <-> conv_rejects self (shape input).
Proof.
  intros Hwf. unfold raises, conv_rejects.
  destruct (shape input) as [|h [|w [|c [|? ?]]]] eqn:Hin;
    try (split; [tauto|]; intros _; exists UnpackError;
         apply conv_forward_unpack; rewrite Hin; simpl; lia).
  set (Fs := Conv2D.filter_size self).
  destruct (Nat.lt_ge_cases (h + 1) Fs) as [Hh|Hh].
  { split; [tauto|]. intros _. exists NegativeDimensions.
    apply (conv_forward_negative self input h w c Hin). now left. }
  destruct (Nat.lt_ge_cases (w + 1) Fs) as [Hw|Hw].
  { split; [tauto|]. intros _. exists NegativeDimensions.
    apply (conv_forward_negative self input h w c Hin). now right. }
  destruct (Nat.eq_dec Fs (h + 1)) as [Eh|Eh];
    [|destruct (Nat.eq_dec Fs (w + 1)) as [Ew|Ew]].
  - destruct (conv_forward_empty self input h w c Hin Hh Hw (or_introl Eh))
      as (out & Ho & _).
    split; [intros (e & He); congruence | fold Fs; lia].
  - destruct (conv_forward_empty self input h w c Hin Hh Hw (or_intror Ew))
      as (out & Ho & _).
    split; [intros (e & He); congruence | fold Fs; lia].
  - assert (Hh' : Fs <= h) by lia. assert (Hw' : Fs <= w) by lia.
    destruct (Nat.eq_dec c 1) as [E1|E1];
      [|destruct (Nat.eq_dec c IMG_CHANNELS) as [E3|E3]].
    + destruct (conv_forward_broadcast self input h w c Hwf Hin Hh' Hw' (or_introl E1))
        as (out & Ho & _).
      split; [intros (e & He); congruence | lia].
    + destruct (conv_forward_broadcast self input h w c Hwf Hin Hh' Hw' (or_intror E3))
        as (out & Ho & _).
      split; [intros (e & He); congruence | lia].
    + split; [intros _; right; right; auto|].
      intros _. exists BroadcastError.
      apply (conv_forward_mismatch self input h w c); assumption.
Qed.

Lemma pool_forward_raises_iff (self : MaxPooling2D.t F) (input : ndarray F) :
  raises (MaxPooling2D.forward input) self
  <-> length (shape input) <> 3 \/ MaxPooling2D.pool_size self = 0.
Proof.
  unfold raises.
  destruct (shape input) as [|h [|w [|c [|? ?]]]] eqn:Hin;
    try (split; [intros _; left; simpl; lia|]; intros _; exists UnpackError;
         unfold MaxPooling2D.forward, bind, assign, self_, liftR;
         rewrite Hin; reflexivity).
  destruct (Nat.eq_dec (MaxPooling2D.pool_size self) 0) as [E|E].
  - split; [intros _; now right|]. intros _. exists ZeroDivisionError.
    unfold MaxPooling2D.forward, bind, assign, self_, liftR, floordiv.
    rewrite Hin. simpl. rewrite E. reflexivity.
  - destruct (pool_forward_shape self input h w c Hin) as (out & Ho & _); [lia|].
    split; [|simpl; lia]. intros (e & He). rewrite Ho in He. discriminate.
Qed.

Lemma dense_forward_raises_iff (self : Dense.t F) (input : ndarray F) L C :
  dense_wf self L C ->
  raises (Dense.forward input) self <-> size (shape input) <> L.
Proof.
  intros Hwf. unfold raises.
  destruct (Nat.eq_dec (size (shape input)) L) as [E|E].
  - destruct (dense_forward_ok self input L C Hwf E) as (t & Ht & _).
    split; [|contradiction]. intros (e & He). rewrite Ht in He. discriminate.
  - split; [intros _; exact E|]. intros _. exists DotShapeError.
    destruct Hwf as [HW Hb].
    unfold Dense.forward, bind, assign, self_, liftR, ret. simpl.
    rewrite HW. simpl. unfold np_dot. simpl. rewrite HW.
    destruct (Nat.eqb_spec (size (shape input)) L); [contradiction | reflexivity].
Qed.

End RejectFacts.

(** ** Convolution: the values of the forward pass *)

Lemma bc_index_single_channel Fs f a b c :
  a < Fs -> b < Fs -> bc_index [Fs; Fs; 1] [f; a; b; c] = [a; b; 0].
Proof.
  intros Ha Hb. unfold bc_index. simpl.
  destruct (Nat.eqb_spec Fs 1) as [E|_]; [|reflexivity].
  f_equal; [lia|]. f_equal. lia.
Qed.

Section ConvValues.
Context {F : Type} {SF : Scalar F}.

(** What a reduction from the first element on computes. *)
Lemma reduce_from_first (l : list F) :
  add_reduce l = fold_left fadd (tl l) (hd f0 l).
Proof. destruct l; reflexivity. Qed.

Lemma reduce_from_zero (l : list F) :
  (forall x : F, fadd f0 x = x) -> add_reduce l = fold_left fadd l f0.
Proof. intros H. destruct l as [|x r]; simpl; [|rewrite H]; reflexivity. Qed.

Lemma max_reduce_from_first (l : list F) (m : F) :
  max_reduce l = Ok m -> l <> [] /\ m = fold_left fmax (tl l) (hd f0 l).
Proof.
  destruct l as [|x r]; simpl; [discriminate|].
  intros E. injection E as <-. split; [discriminate | reflexivity].
Qed.

(** One iteration of the loop of [Conv2D.forward] on an image of one
    channel. *)
Lemma conv_forward_step_broadcast (self : Conv2D.t F) (input out : ndarray F)
      h w nh nw i j :
  conv_wf self ->
  shape input = [h; w; 1] ->
  i + Conv2D.filter_size self <= h -> j + Conv2D.filter_size self <= w ->
  shape out = [nh; nw; Conv2D.num_filters self] -> i < nh -> j < nw ->
  exists out',
    (prod <- np_binop fmul
               (window input i (i + Conv2D.filter_size self)
                             j (j + Conv2D.filter_size self))
               (Conv2D.filters self) ;;
     s <- np_sum_axes123 prod ;;
     setitem out [i; j] s)%res = Ok out'
    /\ shape out' = [nh; nw; Conv2D.num_filters self]
    /\ forall x, in_bounds [nh; nw; Conv2D.num_filters self] x ->
         get out' x = if prefixb [i; j] x
                      then add_reduce (conv_terms_broadcast self input i j (nth 2 x 0))
                      else get out x.
Proof.
  intros Hwf Hin Hi Hj Hout Hi' Hj'.
  set (Fs := Conv2D.filter_size self) in *.
  set (N := Conv2D.num_filters self) in *.
  pose proof (shape_window _ _ _ _ _ _ _ _ Hin Hi Hj) as Hreg.
  unfold np_binop. rewrite Hreg, Hwf. fold Fs N. rewrite broadcast_channels.
  cbn [Nat.eqb IMG_CHANNELS orb rbind].
  match goal with
  | |- context [np_sum_axes123 ?p] =>
      destruct (get_sum_axes123 p N Fs Fs IMG_CHANNELS eq_refl) as (sv & Hsv & Hss & Hsg)
  end.
  rewrite Hsv. cbn [rbind].
  destruct (setitem_ok out sv [i; j] [N]) as (out' & -> & Hos & Hog).
  - rewrite Hout. simpl. solve_bounds.
  - rewrite Hout. reflexivity.
  - exact Hss.
  - exists out'. split; [reflexivity|]. split; [congruence|].
    intros x Hx. rewrite Hog by (rewrite Hout; exact Hx).
    destruct x as [|x0 [|x1 [|f [|? ?]]]];
      try (bad_index Hx).
    apply in_bounds_cons in Hx. destruct Hx as [_ Hx].
    apply in_bounds_cons in Hx. destruct Hx as [_ Hx].
    apply in_bounds_cons in Hx. destruct Hx as [Hf _].
    simpl. destruct ((i =? x0) && ((j =? x1) && true)); [|reflexivity].
    rewrite Hsg by exact Hf. f_equal. unfold conv_terms_broadcast. fold Fs.
    apply map_ext_in. intros t Ht. apply in_indices in Ht.
    assert (Hft : in_bounds [N; Fs; Fs; IMG_CHANNELS] (f :: t))
      by (apply in_bounds_cons; split; [exact Hf | exact Ht]).
    rewrite get_tabulate by exact Hft.
    rewrite (bc_index_id _ _ Hft).
    destruct t as [|a [|b [|c [|? ?]]]]; try (bad_index Ht).
    apply in_bounds_cons in Ht. destruct Ht as [Ha Ht].
    apply in_bounds_cons in Ht. destruct Ht as [Hb _].
    rewrite bc_index_single_channel by assumption.
    rewrite (get_window input h w 1 i Fs j Fs [a; b; 0] Hin Hi Hj)
      by solve_bounds.
    reflexivity.
Qed.

(** The values of [Conv2D.forward] on an image of [IMG_CHANNELS] channels. *)
Lemma conv_forward_values (self : Conv2D.t F) (input : ndarray F) (h w : nat) :
  conv_wf self ->
  shape input = [h; w; IMG_CHANNELS] ->
  Conv2D.filter_size self <= h -> Conv2D.filter_size self <= w ->
  exists out,
    Conv2D.forward input self = (Conv2D.set_last_input input self, Ok out)
    /\ shape out = [h - Conv2D.filter_size self + 1;
                    w - Conv2D.filter_size self + 1;
                    Conv2D.num_filters self]
    /\ forall i j f,
         i < h - Conv2D.filter_size self + 1 ->
         j < w - Conv2D.filter_size self + 1 ->
         f < Conv2D.num_filters self ->
         get out [i; j; f] = add_reduce (conv_terms self input i j f).
Proof.
  intros Hwf Hin Hh Hw.
  set (Fs := Conv2D.filter_size self) in *.
  set (N := Conv2D.num_filters self) in *.
  unfold Conv2D.forward, bind, assign, self_, liftR. rewrite Hin. simpl.
  fold Fs N.
  replace [(Z.of_nat h - Z.of_nat Fs + 1)%Z; (Z.of_nat w - Z.of_nat Fs + 1)%Z; Z.of_nat N]
    with (map Z.of_nat [h - Fs + 1; w - Fs + 1; N])
    by (simpl; repeat f_equal; lia).
  rewrite np_zeros_ok.
  rewrite (conv_iterate_regions _ _ _ _ _ Hin). simpl. fold Fs.
  rewrite for_map.
  match goal with
  | |- context [for_ ?l ?a ?b] =>
      destruct (for_pointwise [h - Fs + 1; w - Fs + 1; N] l b
                  (fun p x old =>
                     if prefixb [fst p; snd p] x
                     then add_reduce (conv_terms self input (fst p) (snd p) (nth 2 x 0))
                     else old)) with (a0 := a)
        as (out & Hfor & Hos & Hog)
  end;
    [ | | exists out; split; [rewrite Hfor; reflexivity|]; split; [exact Hos|]].
  - intros a [i j] Hp Ha. apply in_positions in Hp. simpl.
    apply (conv_forward_step self input a h w (h - Fs + 1) (w - Fs + 1) i j);
      auto; fold Fs; lia.
  - reflexivity.
  - intros i j f Hi Hj Hf.
    rewrite Hog by solve_bounds.
    rewrite get_zeros.
    apply (fold_overwrite
             (fun p : nat * nat => prefixb [fst p; snd p] [i; j; f])
             (fun p => add_reduce (conv_terms self input (fst p) (snd p) f))).
    + intros [i' j'] _ Hhit. simpl in Hhit.
      rewrite andb_true_r in Hhit. apply andb_true_iff in Hhit.
      destruct Hhit as [Hi' Hj']. apply Nat.eqb_eq in Hi', Hj'. subst. reflexivity.
    + right. exists (i, j). split; [apply in_positions; lia|].
      simpl. rewrite !Nat.eqb_refl. reflexivity.
Qed.

(** The values of [Conv2D.forward] on an image of one channel. *)
Lemma conv_forward_values_broadcast (self : Conv2D.t F) (input : ndarray F)
      (h w : nat) :
  conv_wf self ->
  shape input = [h; w; 1] ->
  Conv2D.filter_size self <= h -> Conv2D.filter_size self <= w ->
  exists out,
    Conv2D.forward input self = (Conv2D.set_last_input input self, Ok out)
    /\ shape out = [h - Conv2D.filter_size self + 1;
                    w - Conv2D.filter_size self + 1;
                    Conv2D.num_filters self]
    /\ forall i j f,
         i < h - Conv2D.filter_size self + 1 ->
         j < w - Conv2D.filter_size self + 1 ->
         f < Conv2D.num_filters self ->
         get out [i; j; f] = add_reduce (conv_terms_broadcast self input i j f).
Proof.
  intros Hwf Hin Hh Hw.
  set (Fs := Conv2D.filter_size self) in *.
  set (N := Conv2D.num_filters self) in *.
  unfold Conv2D.forward, bind, assign, self_, liftR. rewrite Hin. simpl.
  fold Fs N.
  replace [(Z.of_nat h - Z.of_nat Fs + 1)%Z; (Z.of_nat w - Z.of_nat Fs + 1)%Z; Z.of_nat N]
    with (map Z.of_nat [h - Fs + 1; w - Fs + 1; N])
    by (simpl; repeat f_equal; lia).
  rewrite np_zeros_ok.
  rewrite (conv_iterate_regions _ _ _ _ _ Hin). simpl. fold Fs.
  rewrite for_map.
  match goal with
  | |- context [for_ ?l ?a ?b] =>
      destruct (for_pointwise [h - Fs + 1; w - Fs + 1; N] l b
                  (fun p x old =>
                     if prefixb [fst p; snd p] x
                     then add_reduce
                            (conv_terms_broadcast self input (fst p) (snd p) (nth 2 x 0))
                     else old)) with (a0 := a)
        as (out & Hfor & Hos & Hog)
  end;
    [ | | exists out; split; [rewrite Hfor; reflexivity|]; split; [exact Hos|]].
  - intros a [i j] Hp Ha. apply in_positions in Hp. simpl.
    apply (conv_forward_step_broadcast self input a h w (h - Fs + 1) (w - Fs + 1) i j);
      auto; fold Fs; lia.
  - reflexivity.
  - intros i j f Hi Hj Hf.
    rewrite Hog by solve_bounds.
    rewrite get_zeros.
    apply (fold_overwrite
             (fun p : nat * nat => prefixb [fst p; snd p] [i; j; f])
             (fun p => add_reduce (conv_terms_broadcast self input (fst p) (snd p) f))).
    + intros [i' j'] _ Hhit. simpl in Hhit.
      rewrite andb_true_r in Hhit. apply andb_true_iff in Hhit.
      destruct Hhit as [Hi' Hj']. apply Nat.eqb_eq in Hi', Hj'. subst. reflexivity.
    + right. exists (i, j). split; [apply in_positions; lia|].
      simpl. rewrite !Nat.eqb_refl. reflexivity.
Qed.

End ConvValues.

(** ** Max pooling: the positions that attain the maximum *)

Section AttainsMax.
Context {F : Type} {SF : Scalar F}.

Lemma fle_antisym (laws : MaxLaws F) (x y : F) : fle x y -> fle y x -> x = y.
Proof.
  unfold fle. intros H1 H2. rewrite <- H2, (fmax_comm laws). exact H1.
Qed.

(** An element attains the maximum of its window exactly when it is the
    number [np.amax] computes for the window. *)
Lemma attains_max_iff (laws : MaxLaws F) (input : ndarray F) P r c k :
  0 < P ->
  attains_max input P r c k
  <-> get input [r; c; k] = pool_max input P (r / P) (c / P) k.
Proof.
  intros HP.
  destruct (pool_max_spec laws input P (r / P) (c / P) k HP)
    as ((a & b & Ha & Hb & Hm) & Hub).
  pose proof (Nat.div_mod_eq r P) as Er. pose proof (Nat.div_mod_eq c P) as Ec.
  pose proof (Nat.mod_upper_bound r P ltac:(lia)) as Br.
  pose proof (Nat.mod_upper_bound c P ltac:(lia)) as Bc.
  unfold attains_max. split.
  - intros Hat. apply (fle_antisym laws).
    + specialize (Hub (r mod P) (c mod P) Br Bc).
      replace (r / P * P + r mod P) with r in Hub by lia.
      replace (c / P * P + c mod P) with c in Hub by lia.
      exact Hub.
    + rewrite Hm. apply Hat; assumption.
  - intros -> a' b' Ha' Hb'. apply Hub; assumption.
Qed.

End AttainsMax.

(** ** Helper functions *)

Section HelperFacts.
Context {F : Type} {SF : Scalar F} {EF : Elementary F}.

Lemma elements_vector (a : ndarray F) n :
  shape a = [n] -> elements a = map (fun k => get a [k]) (seq 0 n).
Proof.
  intros H. unfold elements. rewrite H. clear H. unfold indices.
  generalize 0 as s. induction n as [|n IH]; intros s; [reflexivity|].
  simpl. f_equal. apply IH.
Qed.

Lemma py_index_ok n (i : Z) :
  (0 <= i < Z.of_nat n)%Z -> py_index n i = Ok (Z.to_nat i).
Proof.
  intros H. unfold py_index.
  replace ((0 <=? i)%Z && (i <? Z.of_nat n)%Z) with true; [reflexivity|].
  symmetry. apply andb_true_iff. split; [apply Z.leb_le | apply Z.ltb_lt]; lia.
Qed.

Lemma getitem1_ok (a : ndarray F) n (i : Z) :
  shape a = [n] -> (0 <= i < Z.of_nat n)%Z ->
  getitem1 a i = Ok (get a [Z.to_nat i]).
Proof.
  intros Ha Hi. unfold getitem1. rewrite Ha, py_index_ok by exact Hi. simpl.
  apply item_ok. rewrite Ha. apply bound1. lia.
Qed.

Lemma setitem1_ok (a : ndarray F) n (i : Z) (v : F) :
  shape a = [n] -> (0 <= i < Z.of_nat n)%Z ->
  exists r, setitem1 a i v = Ok r /\ shape r = [n] /\
    forall k, k < n -> get r [k] = if k =? Z.to_nat i then v else get a [k].
Proof.
  intros Ha Hi. unfold setitem1. rewrite Ha, py_index_ok by exact Hi. simpl.
  destruct (setitem_ok a (scalar v) [Z.to_nat i] []) as (r & -> & Hrs & Hrg).
  - rewrite Ha. apply bound1. lia.
  - rewrite Ha. reflexivity.
  - reflexivity.
  - exists r. split; [reflexivity|]. split; [congruence|].
    intros k Hk. rewrite Hrg by (rewrite Ha; apply bound1, Hk). simpl.
    rewrite andb_true_r, Nat.eqb_sym. reflexivity.
Qed.

Lemma softmax_ok (x : ndarray F) n :
  shape x = [n] -> 0 < n ->
  exists m out,
    np_max x = Ok m /\ softmax x = Ok out /\ shape out = [n]
    /\ forall c, c < n ->
         get out [c]
         = fdiv (fexp (fsub (get x [c]) m))
                (add_reduce (map (fun k => fexp (fsub (get x [k]) m)) (seq 0 n))).
Proof.
  intros Hx Hn. unfold softmax, np_max.
  rewrite (elements_vector x n Hx).
  destruct n as [|n]; [lia|].
  simpl max_reduce.
  set (m := fold_left fmax _ _).
  exists m.
  cbn [rbind].
  unfold np_sum_axis0. rewrite !shape_np_map, Hx.
  cbn [rbind].
  unfold np_binop. rewrite !shape_np_map, Hx. cbn [shape tabulate].
  change (broadcast_shapes [S n] []) with (Some [S n]).
  eexists.
  split; [reflexivity|]. split; [reflexivity|]. split; [reflexivity|].
  intros c Hc. rewrite get_tabulate by (apply bound1, Hc).
  rewrite bc_index_id by (apply bound1, Hc).
  change (bc_index [] [c]) with (@nil nat).
  rewrite get_tabulate by reflexivity.
  rewrite get_np_map by (rewrite shape_np_map, Hx; apply bound1, Hc).
  rewrite get_np_map by (rewrite Hx; apply bound1, Hc).
  f_equal. f_equal. apply map_ext_in. intros k Hk. apply in_seq in Hk.
  cbn [app].
  rewrite get_np_map by (rewrite shape_np_map, Hx; apply bound1; lia).
  rewrite get_np_map by (rewrite Hx; apply bound1; lia).
  reflexivity.
Qed.

End HelperFacts.

(** ** Sums and maxima of real numbers *)

Section RealSums.
Local Open Scope R_scope.

Lemma fold_left_Rplus (l : list R) (x : R) :
  fold_left Rplus l x = x + fold_right Rplus 0 l.
Proof.
  revert x. induction l as [|y l IH]; intros x; simpl; [ring|].
  rewrite IH. ring.
Qed.

Lemma add_reduce_sum (l : list R) : add_reduce l = fold_right Rplus 0 l.
Proof. destruct l as [|x l]; [reflexivity|]. simpl. apply fold_left_Rplus. Qed.

Lemma sum_div (g : nat -> R) (s : R) (l : list nat) :
  fold_right Rplus 0 (map (fun k => g k / s) l)
  = fold_right Rplus 0 (map g l) / s.
Proof.
  induction l as [|k l IH]; simpl; [unfold Rdiv; ring|].
  rewrite IH. unfold Rdiv. ring.
Qed.

Lemma sum_exp_pos (g : nat -> R) (l : list nat) :
  l <> [] -> 0 < fold_right Rplus 0 (map (fun k => exp (g k)) l).
Proof.
  destruct l as [|k l]; [congruence|]. intros _. simpl.
  apply Rplus_lt_le_0_compat; [apply exp_pos|].
  induction l as [|j l IH]; simpl; [lra|].
  pose proof (exp_pos (g j)). lra.
Qed.

Lemma Rmax_shift (a b c : R) : Rmax (a + c) (b + c) = Rmax a b + c.
Proof.
  apply (Rmax_case_strong a b); intros H.
  - apply Rmax_left. lra.
  - apply Rmax_right. lra.
Qed.

Lemma fold_left_Rmax_shift (c : R) (g : nat -> R) (l : list nat) (x : R) :
  fold_left Rmax (map (fun k => g k + c) l) (x + c)
  = fold_left Rmax (map g l) x + c.
Proof.
  revert x. induction l as [|k l IH]; intros x; simpl; [reflexivity|].
  rewrite Rmax_shift. apply IH.
Qed.

End RealSums.

(** ** The network driver *)

Section NetworkFacts.
Context {F : Type} {SF : Scalar F} {EF : Elementary F}.

Lemma network_forward_ok (net : Network.t F) (im : ndarray F) (label : Z) h w :
  net_wf net h w -> shape im = [h; w; IMG_CHANNELS] -> (0 <= label < 2)%Z ->
  exists cout pout totals out am,
    Network.forward im label net
    = ({| Network.conv := Conv2D.set_last_input (normalize im) (Network.conv net);
          Network.pool := MaxPooling2D.set_last_input cout (Network.pool net);
          Network.dense :=
            Dense.set_last_totals totals
              (Dense.set_last_input (flatten pout)
                 (Dense.set_last_input_shape (shape pout) (Network.dense net))) |},
       Ok (out, fneg (flog (get out [Z.to_nat label])),
           if (Z.of_nat am =? label)%Z then 1 else 0))
    /\ shape cout = [h - Conv2D.filter_size (Network.conv net) + 1;
                     w - Conv2D.filter_size (Network.conv net) + 1;
                     Conv2D.num_filters (Network.conv net)]
    /\ shape pout = [(h - Conv2D.filter_size (Network.conv net) + 1)
                       / MaxPooling2D.pool_size (Network.pool net);
                     (w - Conv2D.filter_size (Network.conv net) + 1)
                       / MaxPooling2D.pool_size (Network.pool net);
                     Conv2D.num_filters (Network.conv net)]
    /\ softmax totals = Ok out
    /\ shape out = [2].
Proof.
  intros (Hc & Hh & Hw & HP & Hd) Him Hl.
  destruct (conv_forward_shape (Network.conv net) (normalize im) h w Hc Him Hh Hw)
    as (cout & Hcf & Hcs).
  destruct (pool_forward_shape (Network.pool net) cout _ _ _ Hcs HP)
    as (pout & Hpf & Hps).
  destruct (dense_forward_ok (Network.dense net) pout _ 2 Hd)
    as (totals & Hdf & Hts & _); [rewrite Hps; reflexivity|].
  destruct (softmax_ok totals 2 Hts) as (m & out & _ & Hso & Hos & _); [lia|].
  assert (Ham : exists am, np_argmax out = Ok am).
  { unfold np_argmax. rewrite (elements_vector out 2 Hos). simpl. eauto. }
  destruct Ham as (am & Ham).
  exists cout, pout, totals, out, am.
  split; [|repeat split; assumption].
  unfold Network.forward, bind, on, liftR, ret. fold (normalize im).
  rewrite Hcf. simpl. rewrite Hpf. simpl. rewrite Hdf. simpl.
  rewrite Hso. simpl. unfold cross_entropy_loss.
  rewrite (getitem1_ok out 2 label Hos) by (simpl; lia). simpl.
  rewrite Ham. reflexivity.
Qed.

End NetworkFacts.

(** * The properties of the specification *)

Section Claims.
Context {F : Type} {SF : Scalar F}.

(** C1, as amended.  The filters have [IMG_CHANNELS] = 3 channels whatever
    the image, so on an image of shape (H, W, C) and a filter size
    F <= min(H, W) what [Conv2D.forward] does depends on C.
    With C = [IMG_CHANNELS] it returns a tensor of shape (H-F+1, W-F+1, N);
    its value at (i, j, f) is the sum, over the F x F x C window of the image
    that starts at (i, j), of the products of the window with the weights of
    filter f (valid, stride-1 cross-correlation), the products being added in
    row-major order from the first one on, which is from zero where adding to
    zero changes nothing.  The layer keeps the input.
    With C = 1 it returns a tensor of that shape as well, NumPy broadcasting
    the channel: the value at (i, j, f) is the sum, over the F x F window and
    over the three channels c of the filter, of the pixel (i+a, j+b) times
    the weight (f, a, b, c).
    With any other C it raises the ValueError of a failed broadcast. *)
Theorem conv_forward_spec (self : Conv2D.t F) (input : ndarray F) (h w c : nat) :
  conv_wf self ->
  shape input = [h; w; c] ->
  Conv2D.filter_size self <= h -> Conv2D.filter_size self <= w ->
  (c = IMG_CHANNELS ->
   exists out,
     Conv2D.forward input self = (Conv2D.set_last_input input self, Ok out)
     /\ shape out = [h - Conv2D.filter_size self + 1;
                     w - Conv2D.filter_size self + 1;
                     Conv2D.num_filters self]
     /\ forall i j f,
          i < h - Conv2D.filter_size self + 1 ->
          j < w - Conv2D.filter_size self + 1 ->
          f < Conv2D.num_filters self ->
          let products :=
            map (fun t => fmul (get input (window_index i j t))
                               (get (Conv2D.filters self) (f :: t)))
                (indices [Conv2D.filter_size self; Conv2D.filter_size self;
                          IMG_CHANNELS]) in
          get out [i; j; f] = fold_left fadd (tl products) (hd f0 products)
          /\ ((forall x : F, fadd f0 x = x) ->
              get out [i; j; f] = fold_left fadd products f0
              /\ get out [i; j; f] = cross_correlation self input c i j f))
  /\ (c = 1 ->
      exists out,
        Conv2D.forward input self = (Conv2D.set_last_input input self, Ok out)
        /\ shape out = [h - Conv2D.filter_size self + 1;
                        w - Conv2D.filter_size self + 1;
                        Conv2D.num_filters self]
        /\ forall i j f,
             i < h - Conv2D.filter_size self + 1 ->
             j < w - Conv2D.filter_size self + 1 ->
             f < Conv2D.num_filters self ->
             let products :=
               map (fun t => fmul (get input [i + nth 0 t 0; j + nth 1 t 0; 0])
                                  (get (Conv2D.filters self) (f :: t)))
                   (indices [Conv2D.filter_size self; Conv2D.filter_size self;
                             IMG_CHANNELS]) in
             get out [i; j; f] = fold_left fadd (tl products) (hd f0 products))
  /\ (c <> 1 -> c <> IMG_CHANNELS ->
      Conv2D.forward input self
      = (Conv2D.set_last_input input self, Err BroadcastError)).
Proof.
  intros Hwf Hin Hh Hw. split; [|split].
  - intros ->.
    destruct (conv_forward_values self input h w Hwf Hin Hh Hw)
      as (out & Hfw & Hos & Hog).
    exists out. split; [exact Hfw|]. split; [exact Hos|].
    intros i j f Hi Hj Hf. cbv zeta.
    rewrite (Hog i j f Hi Hj Hf). unfold conv_terms.
    split; [apply reduce_from_first|].
    intros Hzero. split; apply reduce_from_zero, Hzero.
  - intros ->.
    destruct (conv_forward_values_broadcast self input h w Hwf Hin Hh Hw)
      as (out & Hfw & Hos & Hog).
    exists out. split; [exact Hfw|]. split; [exact Hos|].
    intros i j f Hi Hj Hf. cbv zeta.
    rewrite (Hog i j f Hi Hj Hf). apply reduce_from_first.
  - intros Hc1 Hc3.
    rewrite (surjective_pairing (Conv2D.forward input self)).
    rewrite conv_forward_state.
    rewrite (conv_forward_mismatch self input h w c Hwf Hin Hh Hw Hc1 Hc3).
    reflexivity.
Qed.

(** C2. After a forward pass, on a gradient [d_out] of the shape of the
    forward output, [Conv2D.backward] subtracts from every weight
    [learn_rate] times its gradient, the gradient of weight (a, b, c) of
    filter f being the sum over the window positions (i, j) of
    [d_out[i, j, f]] times the element (a, b, c) of the window at (i, j); the
    filter bank keeps its shape and the call returns [None]. *)
Theorem conv_backward_spec (self0 self : Conv2D.t F) (input out d_out : ndarray F)
        (lr : F) (h w : nat) :
  conv_wf self0 ->
  shape input = [h; w; IMG_CHANNELS] ->
  Conv2D.filter_size self0 <= h -> Conv2D.filter_size self0 <= w ->
  Conv2D.forward input self0 = (self, Ok out) ->
  shape d_out = shape out ->
  exists W,
    Conv2D.backward d_out lr self = (Conv2D.set_filters W self, Ok tt)
    /\ shape W = shape (Conv2D.filters self0)
    /\ forall f t,
         in_bounds (shape (Conv2D.filters self0)) (f :: t) ->
         get W (f :: t)
         = fsub (get (Conv2D.filters self0) (f :: t))
                (fmul lr
                   (fold_left fadd
                      (map (fun p => fmul (get d_out [fst p; snd p; f])
                                          (get input (window_index (fst p) (snd p) t)))
                           (positions
                              (Z.of_nat h - Z.of_nat (Conv2D.filter_size self0) + 1)
                              (Z.of_nat w - Z.of_nat (Conv2D.filter_size self0) + 1)))
                      f0)).
Proof.
  intros Hwf Hin Hh Hw Hfw Hd.
  destruct (conv_forward_shape self0 input h w Hwf Hin Hh Hw) as (out' & Hfw' & Hos).
  rewrite Hfw in Hfw'. injection Hfw' as Es Eo. subst self out'.
  apply (conv_backward_ok (Conv2D.set_last_input input self0) input d_out lr h w);
    auto.
  rewrite Hd. exact Hos.
Qed.

(** C3. On an input of shape (H, W, N) and a positive pool size P,
    [MaxPooling2D.forward] returns a tensor of shape (H div P, W div P, N), the
    rows and columns beyond the last whole window being dropped; its value at
    (i, j, k) is [np.amax] of channel k over the P x P window at (i*P, j*P).
    Where [np.maximum] has the laws of a maximum, that value is one of the
    elements of the window and no element of the window exceeds it. *)
Theorem pool_forward_spec (self : MaxPooling2D.t F) (input : ndarray F) (h w n : nat) :
  shape input = [h; w; n] -> 0 < MaxPooling2D.pool_size self ->
  exists out,
    MaxPooling2D.forward input self = (MaxPooling2D.set_last_input input self, Ok out)
    /\ shape out = [h / MaxPooling2D.pool_size self;
                    w / MaxPooling2D.pool_size self; n]
    /\ forall i j k,
         i < h / MaxPooling2D.pool_size self ->
         j < w / MaxPooling2D.pool_size self -> k < n ->
         max_reduce
           (map (fun ab => get input
                             (window_index (i * MaxPooling2D.pool_size self)
                                           (j * MaxPooling2D.pool_size self)
                                           (ab ++ [k])))
                (indices [MaxPooling2D.pool_size self; MaxPooling2D.pool_size self]))
         = Ok (get out [i; j; k])
         /\ (MaxLaws F ->
             (exists a b,
                a < MaxPooling2D.pool_size self /\ b < MaxPooling2D.pool_size self
                /\ get out [i; j; k]
                   = get input [i * MaxPooling2D.pool_size self + a;
                                j * MaxPooling2D.pool_size self + b; k])
             /\ (forall a b,
                   a < MaxPooling2D.pool_size self -> b < MaxPooling2D.pool_size self ->
                   fle (get input [i * MaxPooling2D.pool_size self + a;
                                   j * MaxPooling2D.pool_size self + b; k])
                       (get out [i; j; k]))).
Proof.
  intros Hin HP.
  set (P := MaxPooling2D.pool_size self) in *.
  unfold MaxPooling2D.forward, bind, assign, self_, liftR, floordiv.
  rewrite Hin. simpl. fold P.
  destruct (Nat.eqb_spec P 0) as [E|_]; [lia|]. simpl.
  change [Z.of_nat (h / P); Z.of_nat (w / P); Z.of_nat n]
    with (map Z.of_nat [h / P; w / P; n]).
  rewrite np_zeros_ok.
  rewrite (pool_iterate_regions _ _ _ _ _ Hin) by (simpl; exact HP).
  simpl. fold P. rewrite for_map.
  match goal with
  | |- context [for_ ?l ?a ?b] =>
      destruct (for_pointwise [h / P; w / P; n] l b
                  (fun p x old =>
                     if prefixb [fst p; snd p] x
                     then pool_max input P (fst p) (snd p) (nth 2 x 0)
                     else old)) with (a0 := a)
        as (out & Hfor & Hos & Hog)
  end;
    [ | | exists out; split; [rewrite Hfor; reflexivity|]; split; [exact Hos|]].
  - intros a [i j] Hp Ha. apply in_positions in Hp. simpl.
    destruct (amax_window input h w n P i j Hin HP) as (m & -> & Hms & Hmg); try lia.
    simpl.
    destruct (setitem_ok a m [i; j] [n]) as (a' & -> & Has & Hag).
    { rewrite Ha. solve_bounds. }
    { rewrite Ha. reflexivity. }
    { exact Hms. }
    exists a'. split; [reflexivity|]. split; [congruence|].
    intros x Hx. rewrite Hag by (rewrite Ha; exact Hx).
    destruct x as [|x0 [|x1 [|k [|? ?]]]];
      try (bad_index Hx).
    apply in_bounds_cons in Hx. destruct Hx as [_ Hx].
    apply in_bounds_cons in Hx. destruct Hx as [_ Hx].
    apply in_bounds_cons in Hx. destruct Hx as [Hk _].
    simpl. destruct ((i =? x0) && ((j =? x1) && true)); [|reflexivity].
    apply Hmg, Hk.
  - reflexivity.
  - intros i j k Hi Hj Hk.
    assert (E : get out [i; j; k] = pool_max input P i j k);
      [|rewrite E; split;
        [apply pool_max_reduce, HP | intros laws; apply (pool_max_spec laws), HP]].
    rewrite Hog by solve_bounds.
    rewrite get_zeros.
    apply (fold_overwrite
             (fun p : nat * nat => prefixb [fst p; snd p] [i; j; k])
             (fun p => pool_max input P (fst p) (snd p) k)).
    + intros [i' j'] _ Hhit. simpl in Hhit.
      rewrite andb_true_r in Hhit. apply andb_true_iff in Hhit.
      destruct Hhit as [Hi' Hj']. apply Nat.eqb_eq in Hi', Hj'. subst. reflexivity.
    + right. exists (i, j). split; [apply in_positions; lia|].
      simpl. rewrite !Nat.eqb_refl. reflexivity.
Qed.

(** C4. After a forward pass, on a gradient [d_out] of the shape of the
    forward output, [MaxPooling2D.backward] returns a tensor of the shape of
    the retained input.  Its value at (r, c, k) is the entry of [d_out] of the
    window of (r, c), channel k, when the input at (r, c, k) equals the
    [np.amax] of that window, and zero otherwise, also in the rows and columns
    that no window covers.
    Where [np.maximum] has the laws of a maximum and [==] is equality: every
    window has a position that attains its maximum; a position gets the entry
    of [d_out] of its window exactly when it attains the maximum of the
    window, and zero when it does not; so positions that tie for the maximum
    each get that same entry, assigned and not added, and a maximum that no
    other position of the window equals is the only position of the window
    that gets it, the others getting zero. *)
Theorem pool_backward_spec (self0 self : MaxPooling2D.t F)
        (input out d_out : ndarray F) (h w n : nat) :
  shape input = [h; w; n] ->
  MaxPooling2D.forward input self0 = (self, Ok out) ->
  shape d_out = shape out ->
  exists g,
    MaxPooling2D.backward d_out self = (self, Ok g)
    /\ shape g = shape input
    /\ (forall r c k, r < h -> c < w -> k < n ->
         get g [r; c; k]
         = if (r <? h / MaxPooling2D.pool_size self0 * MaxPooling2D.pool_size self0)
              && (c <? w / MaxPooling2D.pool_size self0 * MaxPooling2D.pool_size self0)
              && feqb (get input [r; c; k])
                      (pool_max input (MaxPooling2D.pool_size self0)
                                (r / MaxPooling2D.pool_size self0)
                                (c / MaxPooling2D.pool_size self0) k)
           then get d_out [r / MaxPooling2D.pool_size self0;
                           c / MaxPooling2D.pool_size self0; k]
           else f0)
    /\ (MaxLaws F -> (forall x y : F, feqb x y = true <-> x = y) ->
        let P := MaxPooling2D.pool_size self0 in
        (forall i j k, i < h / P -> j < w / P -> k < n ->
           exists a b, a < P /\ b < P
                       /\ attains_max input P (i * P + a) (j * P + b) k)
        /\ (forall r c k, r < h / P * P -> c < w / P * P -> k < n ->
              attains_max input P r c k ->
              get g [r; c; k] = get d_out [r / P; c / P; k])
        /\ (forall r c k, r < h -> c < w -> k < n ->
              h / P * P <= r \/ w / P * P <= c \/ ~ attains_max input P r c k ->
              get g [r; c; k] = f0)
        /\ (forall r c r' c' k,
              r < h / P * P -> c < w / P * P -> r' < h / P * P -> c' < w / P * P ->
              k < n -> r' / P = r / P -> c' / P = c / P ->
              attains_max input P r c k -> attains_max input P r' c' k ->
              get g [r'; c'; k] = get g [r; c; k])
        /\ (forall r c k, r < h / P * P -> c < w / P * P -> k < n ->
              attains_max input P r c k ->
              (forall r' c', r' / P = r / P -> c' / P = c / P -> (r', c') <> (r, c) ->
                 get input [r'; c'; k] <> get input [r; c; k]) ->
              forall r' c', r' < h -> c' < w ->
                r' / P = r / P -> c' / P = c / P -> (r', c') <> (r, c) ->
                get g [r'; c'; k] = f0)).
Proof.
  intros Hin Hfw Hd.
  assert (HP : 0 < MaxPooling2D.pool_size self0).
  { destruct (Nat.eq_dec (MaxPooling2D.pool_size self0) 0) as [E|E]; [|lia].
    assert (Hr : raises (MaxPooling2D.forward input) self0)
      by (apply pool_forward_raises_iff; now right).
    destruct Hr as (e & He). rewrite Hfw in He. discriminate. }
  destruct (pool_forward_shape self0 input h w n Hin HP) as (out' & Hfw' & Hos).
  rewrite Hfw in Hfw'. injection Hfw' as Es Eo. subst self out'.
  destruct (pool_backward_ok (MaxPooling2D.set_last_input input self0) input d_out
              h w n eq_refl Hin HP) as (g & Hb & Hgs & Hgg);
    [rewrite Hd; exact Hos|].
  set (P := MaxPooling2D.pool_size self0) in *.
  assert (Hval : forall r c k, r < h -> c < w -> k < n ->
            get g [r; c; k]
            = if (r <? h / P * P) && (c <? w / P * P)
                 && feqb (get input [r; c; k]) (pool_max input P (r / P) (c / P) k)
              then get d_out [r / P; c / P; k] else f0).
  { intros r c k Hr Hc Hk. rewrite Hgg; [reflexivity|]. solve_bounds. }
  exists g. split; [exact Hb|]. split; [congruence|]. split; [exact Hval|].
  intros laws Heq. cbv zeta.
  pose proof (Nat.Div0.mul_div_le h P) as Hhp. pose proof (Nat.Div0.mul_div_le w P) as Hwp.
  assert (Hmax : forall r c k, r < h / P * P -> c < w / P * P -> k < n ->
            attains_max input P r c k ->
            get g [r; c; k] = get d_out [r / P; c / P; k]).
  { intros r c k Hr Hc Hk Hat. rewrite Hval by lia.
    rewrite (proj2 (Nat.ltb_lt _ _) Hr), (proj2 (Nat.ltb_lt _ _) Hc).
    apply (attains_max_iff laws input P r c k HP) in Hat.
    rewrite (proj2 (Heq _ _) Hat). reflexivity. }
  assert (Hzero : forall r c k, r < h -> c < w -> k < n ->
            h / P * P <= r \/ w / P * P <= c \/ ~ attains_max input P r c k ->
            get g [r; c; k] = f0).
  { intros r c k Hr Hc Hk Hno. rewrite Hval by assumption.
    destruct Hno as [Hno | [Hno | Hno]].
    - rewrite (proj2 (Nat.ltb_ge _ _) Hno). reflexivity.
    - rewrite (proj2 (Nat.ltb_ge _ _) Hno), andb_false_r. reflexivity.
    - destruct (feqb _ _) eqn:E; [|rewrite andb_false_r; reflexivity].
      exfalso. apply Hno. apply (attains_max_iff laws input P r c k HP).
      apply Heq, E. }
  split; [|split; [exact Hmax|]; split; [exact Hzero|]; split].
  - intros i j k Hi Hj Hk.
    destruct (pool_max_spec laws input P i j k HP) as ((a & b & Ha & Hb' & Hm) & _).
    exists a, b. split; [exact Ha|]. split; [exact Hb'|].
    apply (attains_max_iff laws input P _ _ k HP).
    destruct (window_coord P i a (i * P + a) Ha eq_refl) as [<- _].
    destruct (window_coord P j b (j * P + b) Hb' eq_refl) as [<- _].
    symmetry. exact Hm.
  - intros r c r' c' k Hr Hc Hr' Hc' Hk Er Ec Hat Hat'.
    rewrite (Hmax r c k), (Hmax r' c' k) by assumption. congruence.
  - intros r c k Hr Hc Hk Hat Huniq r' c' Hr' Hc' Er Ec Hne.
    apply Hzero; try assumption. right; right. intros Hat'.
    apply (Huniq r' c' Er Ec Hne).
    apply (attains_max_iff laws input P _ _ k HP) in Hat, Hat'.
    rewrite Hat, Hat', Er, Ec. reflexivity.
Qed.

(** C5. After a forward pass on an input of L elements, on a gradient
    [d_out] of length C, [Dense.backward] replaces the weights by
    [weights - lr * (x outer d_out)], x being the retained flattened input,
    and the biases by [biases - lr * (d_out * 1)], which is
    [biases - lr * d_out] where multiplying by one changes nothing, and
    returns [weights . d_out], computed with the weights of before the
    update, in the shape the input had before it was flattened. *)
Theorem dense_backward_spec (self0 self : Dense.t F)
        (input totals d_out : ndarray F) (lr : F) (L C : nat) :
  dense_wf self0 L C -> size (shape input) = L ->
  Dense.forward input self0 = (self, Ok totals) ->
  shape d_out = [C] ->
  exists W b g,
    Dense.backward d_out lr self
    = (Dense.set_biases b (Dense.set_weights W self), Ok g)
    /\ shape W = [L; C]
    /\ (forall l c, l < L -> c < C ->
          get W [l; c]
          = fsub (get (Dense.weights self0) [l; c])
                 (fmul lr (fmul (get (flatten input) [l]) (get d_out [c]))))
    /\ shape b = [C]
    /\ (forall c, c < C ->
          get b [c]
          = fsub (get (Dense.biases self0) [c]) (fmul lr (fmul (get d_out [c]) f1)))
    /\ ((forall x : F, fmul x f1 = x) ->
        forall c, c < C ->
          get b [c] = fsub (get (Dense.biases self0) [c]) (fmul lr (get d_out [c])))
    /\ shape g = shape input
    /\ (forall l, l < L ->
          get (flatten g) [l]
          = add_reduce (map (fun c => fmul (get (Dense.weights self0) [l; c])
                                           (get d_out [c]))
                            (seq 0 C))).
Proof.
  intros Hwf HL Hfw Hd.
  destruct (dense_forward_ok self0 input L C Hwf HL) as (t' & Hfw' & _).
  rewrite Hfw in Hfw'. injection Hfw' as Es Eo. subst self t'.
  destruct (dense_backward_ok
              (Dense.set_last_totals totals
                 (Dense.set_last_input (flatten input)
                    (Dense.set_last_input_shape (shape input) self0)))
              (flatten input) d_out lr (shape input) L C)
    as (W & b & g & Hb & HWs & HWg & Hbs & Hbg & Hgs & Hgg);
    [exact Hwf | reflexivity | simpl; congruence | reflexivity | exact HL | exact Hd |].
  exists W, b, g.
  split; [exact Hb|]. split; [exact HWs|]. split; [exact HWg|].
  split; [exact Hbs|]. split; [exact Hbg|].
  split; [|split; [exact Hgs | exact Hgg]].
  intros Hone c Hc. rewrite (Hbg c Hc), Hone. reflexivity.
Qed.

(** C8, as amended.  The layers validate nothing themselves; a forward call
    raises exactly when a NumPy operation inside it does.
    [Conv2D.forward] raises exactly on an input that has not three axes, or
    whose height or width is below the filter size minus one (a negative
    output extent), or, when the filter fits, whose channel count is neither
    1 nor [IMG_CHANNELS]; [MaxPooling2D.forward] raises exactly on an input that
    has not three axes or when the pool size is zero; [Dense.forward] raises
    exactly when the input has not [input_len] elements.  No forward call,
    raising or not, changes the filters, the weights or the biases. *)
Theorem forward_raises_spec (c : Conv2D.t F) (p : MaxPooling2D.t F) (d : Dense.t F)
        (x : ndarray F) (L C : nat) :
  conv_wf c -> dense_wf d L C ->
  (raises (Conv2D.forward x) c <-> conv_rejects c (shape x))
  /\ (raises (MaxPooling2D.forward x) p
      <-> length (shape x) <> 3 \/ MaxPooling2D.pool_size p = 0)
  /\ (raises (Dense.forward x) d <-> size (shape x) <> L)
  /\ Conv2D.filters (fst (Conv2D.forward x c)) = Conv2D.filters c
  /\ Dense.weights (fst (Dense.forward x d)) = Dense.weights d
  /\ Dense.biases (fst (Dense.forward x d)) = Dense.biases d.
Proof.
  intros Hc Hd.
  split; [apply conv_forward_raises_iff, Hc|].
  split; [apply pool_forward_raises_iff|].
  split; [apply (dense_forward_raises_iff d x L C), Hd|].
  split; [rewrite conv_forward_state; reflexivity|].
  apply dense_forward_params.
Qed.

(** C9, as amended.  On an image of shape (H, W, C) with F > H or F > W,
    [Conv2D.forward] returns a tensor without elements, of shape
    (H+1-F, W+1-F, N), when F <= H+1 and F <= W+1, and raises the ValueError
    of a negative dimension when F > H+1 or F > W+1. *)
Theorem conv_forward_oversize (self : Conv2D.t F) (input : ndarray F) (h w c : nat) :
  shape input = [h; w; c] ->
  h < Conv2D.filter_size self \/ w < Conv2D.filter_size self ->
  (Conv2D.filter_size self <= h + 1 -> Conv2D.filter_size self <= w + 1 ->
   exists out,
     snd (Conv2D.forward input self) = Ok out
     /\ shape out = [h + 1 - Conv2D.filter_size self;
                     w + 1 - Conv2D.filter_size self;
                     Conv2D.num_filters self]
     /\ size (shape out) = 0 /\ data out = [])
  /\ (h + 1 < Conv2D.filter_size self \/ w + 1 < Conv2D.filter_size self ->
      snd (Conv2D.forward input self) = Err NegativeDimensions).
Proof.
  intros Hin Hbig. split.
  - intros Hh Hw.
    destruct (conv_forward_empty self input h w c Hin Hh Hw) as (out & Ho & Hs & Hd);
      [lia|].
    exists out. repeat split; try assumption.
    rewrite Hs. simpl. nia.
  - apply (conv_forward_negative self input h w c Hin).
Qed.

End Claims.

Section DriverClaims.
Context {F : Type} {SF : Scalar F} {EF : Elementary F}.

(** C6. [train] runs [forward]; builds the gradient that is zero at both
    classes except at the label, where it is -1 divided by the probability
    [out[label]] that [forward] returned; passes it to [Dense.backward], the
    result to [MaxPooling2D.backward], and that result to [Conv2D.backward]; and
    returns the loss and the accuracy of [forward], the loss being
    [-log(out[label])]. *)
Theorem train_spec (net : Network.t F) (im : ndarray F) (label : Z) (lr : F)
        (h w : nat) :
  net_wf net h w -> shape im = [h; w; IMG_CHANNELS] -> (0 <= label < 2)%Z ->
  exists net1 out loss acc grad d1 g1 p1 g2 c1,
    Network.forward im label net = (net1, Ok (out, loss, acc))
    /\ loss = fneg (flog (get out [Z.to_nat label]))
    /\ shape grad = [2]
    /\ (forall c, c < 2 ->
          get grad [c] = if c =? Z.to_nat label
                         then fdiv (fneg f1) (get out [Z.to_nat label])
                         else f0)
    /\ Dense.backward grad lr (Network.dense net1) = (d1, Ok g1)
    /\ MaxPooling2D.backward g1 (Network.pool net1) = (p1, Ok g2)
    /\ Conv2D.backward g2 lr (Network.conv net1) = (c1, Ok tt)
    /\ Network.train im label lr net
       = ({| Network.conv := c1; Network.pool := p1; Network.dense := d1 |},
          Ok (loss, acc)).
Proof.
  intros Hnet Him Hl.
  destruct (network_forward_ok net im label h w Hnet Him Hl)
    as (cout & pout & totals & out & am & Hfw & Hcs & Hps & Hso & Hos).
  destruct Hnet as (Hc & Hh & Hw & HP & Hd).
  set (Fs := Conv2D.filter_size (Network.conv net)) in *.
  set (P := MaxPooling2D.pool_size (Network.pool net)) in *.
  set (N := Conv2D.num_filters (Network.conv net)) in *.
  destruct (setitem1_ok {| shape := [2]; data := repeat (f0 : F) (size [2]) |}
              2 label (fdiv (fneg f1) (get out [Z.to_nat label])))
    as (grad & Hgrad & Hgs & Hgg); [reflexivity | simpl; lia |].
  match type of Hfw with _ = (?n1, _) => set (net1 := n1) in * end.
  destruct (dense_backward_ok (Network.dense net1) (flatten pout) grad lr
              (shape pout) (size [(h - Fs + 1) / P; (w - Fs + 1) / P; N]) 2)
    as (W & b & g1 & Hdb & _ & _ & _ & _ & Hg1s & _);
    [exact Hd | reflexivity | simpl; rewrite Hps; reflexivity | reflexivity
    | rewrite Hps; reflexivity | exact Hgs |].
  destruct (pool_backward_ok (Network.pool net1) cout g1
              (h - Fs + 1) (w - Fs + 1) N eq_refl Hcs HP)
    as (g2 & Hpb & Hg2s & _); [rewrite Hg1s; exact Hps |].
  destruct (conv_backward_ok (Network.conv net1) (normalize im) g2 lr h w)
    as (W' & Hcb & _); [exact Hc | reflexivity | exact Him | exact Hh | exact Hw
                       | exact Hg2s |].
  do 10 eexists.
  split; [exact Hfw|]. split; [reflexivity|]. split; [exact Hgs|].
  split.
  { intros c Hc'. rewrite Hgg by exact Hc'. rewrite get_zeros. reflexivity. }
  split; [exact Hdb|]. split; [exact Hpb|]. split; [exact Hcb|].
  unfold Network.train, bind, on, liftR, ret. rewrite Hfw.
  change [2%Z] with (map Z.of_nat [2]). rewrite np_zeros_ok.
  rewrite (getitem1_ok out 2 label Hos) by (simpl; lia).
  rewrite Hgrad. subst net1. cbn [Network.conv Network.pool Network.dense] in *.
  cbn beta iota. rewrite Hdb.
  cbn [Network.set_dense Network.set_pool Network.conv Network.pool Network.dense].
  rewrite Hpb.
  cbn [Network.set_dense Network.set_pool Network.conv Network.pool Network.dense].
  rewrite Hcb. reflexivity.
Qed.

(** C10. Every forward call leaves the learned parameters as they were: the
    filters of the convolution, the weights and the biases of the dense layer.
    The pooling layer has no learned parameter, and its pool size stays. *)
Theorem forward_preserves_parameters
        (c : Conv2D.t F) (p : MaxPooling2D.t F) (d : Dense.t F) (net : Network.t F)
        (x : ndarray F) (label : Z) :
  Conv2D.filters (fst (Conv2D.forward x c)) = Conv2D.filters c
  /\ MaxPooling2D.pool_size (fst (MaxPooling2D.forward x p)) = MaxPooling2D.pool_size p
  /\ Dense.weights (fst (Dense.forward x d)) = Dense.weights d
  /\ Dense.biases (fst (Dense.forward x d)) = Dense.biases d
  /\ Conv2D.filters (Network.conv (fst (Network.forward x label net)))
     = Conv2D.filters (Network.conv net)
  /\ Dense.weights (Network.dense (fst (Network.forward x label net)))
     = Dense.weights (Network.dense net)
  /\ Dense.biases (Network.dense (fst (Network.forward x label net)))
     = Dense.biases (Network.dense net).
Proof.
  split; [rewrite conv_forward_state; reflexivity|].
  split; [rewrite pool_forward_state; reflexivity|].
  split; [apply dense_forward_params|].
  split; [apply dense_forward_params|].
  apply network_forward_params.
Qed.

End DriverClaims.

Section RealClaims.
Local Open Scope R_scope.

(** C7, as amended.  In the arithmetic of the real numbers: on a vector of
    n > 0 scores [softmax] returns n numbers that add up to one, and returns
    the same numbers when one constant is added to every score; on a vector
    without elements it raises the ValueError of [np.max]. *)
Theorem softmax_real_spec (x : ndarray R) (c : R) (n : nat) :
  shape x = [n] ->
  (n = 0%nat -> softmax x = Err ZeroSizeReduction)
  /\ ((0 < n)%nat ->
      exists out out',
        softmax x = Ok out /\ shape out = [n]
        /\ fold_left Rplus (map (fun k => get out [k]) (seq 0 n)) 0 = 1
        /\ softmax (np_map (fun v => v + c) x) = Ok out'
        /\ shape out' = [n]
        /\ forall k, (k < n)%nat -> get out' [k] = get out [k]).
Proof.
  intros Hx. split.
  - intros ->. unfold softmax, np_max. rewrite (elements_vector x 0 Hx). reflexivity.
  - intros Hn.
    destruct (softmax_ok x n Hx Hn) as (m & out & Hm & Hso & Hos & Hog).
    destruct (softmax_ok (np_map (fun v => v + c) x) n Hx Hn)
      as (m' & out' & Hm' & Hso' & Hos' & Hog').
    exists out, out'. split; [exact Hso|]. split; [exact Hos|].
    split; [|split; [exact Hso'|]; split; [exact Hos'|]].
    + rewrite fold_left_Rplus, Rplus_0_l.
      rewrite (map_ext_in _ (fun k => exp (get x [k] - m)
                                     / fold_right Rplus 0
                                         (map (fun k => exp (get x [k] - m)) (seq 0 n)))).
      2:{ intros k Hk. apply in_seq in Hk. rewrite Hog by lia.
          rewrite add_reduce_sum. reflexivity. }
      rewrite (sum_div (fun k => exp (get x [k] - m))).
      apply Rdiv_diag. apply Rgt_not_eq.
      apply (sum_exp_pos (fun k => get x [k] - m)).
      destruct n; [lia | discriminate].
    + assert (Hget : forall k, (k < n)%nat ->
                get (np_map (fun v => v + c) x) [k] = get x [k] + c).
      { intros k Hk. rewrite get_np_map by (rewrite Hx; apply bound1, Hk).
        reflexivity. }
      assert (Em : m' = m + c).
      { unfold np_max in Hm, Hm'.
        rewrite (elements_vector _ n Hx) in Hm.
        rewrite (elements_vector (np_map (fun v => v + c) x) n Hx) in Hm'.
        rewrite (map_ext_in _ (fun k => get x [k] + c)) in Hm'
          by (intros k Hk; apply in_seq in Hk; apply Hget; lia).
        destruct n as [|n]; [lia|]. simpl in Hm, Hm'.
        injection Hm as <-. injection Hm' as <-.
        apply (fold_left_Rmax_shift c (fun k => get x [k])). }
      intros k Hk. rewrite (Hog' k Hk), (Hog k Hk), (Hget k Hk), Em.
      simpl fdiv. simpl fexp. simpl fsub.
      replace (get x [k] + c - (m + c)) with (get x [k] - m) by ring.
      f_equal. f_equal. apply map_ext_in. intros j Hj. apply in_seq in Hj.
      rewrite Hget by lia. f_equal. ring.
Qed.

End RealClaims.

(** * Further properties of the code *)

(** The properties below are read off the code: the functions that the
    layers call, what the layers do at the edges of their domain and when they
    are misused, how calls compose, and the loops of the notebook. *)

(** ** Convolution *)

Lemma length_positions n m :
  length (positions n m) = Z.to_nat n * Z.to_nat m.
Proof.
  unfold positions, range.
  assert (H : forall l : list nat,
             length (flat_map (fun i => map (fun j => (i, j)) (seq 0 (Z.to_nat m))) l)
             = length l * Z.to_nat m).
  { induction l as [|i l IH]; simpl; [reflexivity|].
    rewrite length_app, length_map, length_seq, IH. reflexivity. }
  rewrite H, length_seq. reflexivity.
Qed.

Lemma nth_error_positions n m i j :
  i < Z.to_nat n -> j < Z.to_nat m ->
  nth_error (positions n m) (i * Z.to_nat m + j) = Some (i, j).
Proof.
  intros Hi Hj.
  rewrite (nth_error_nth' _ (0, 0)) by (rewrite length_positions; nia).
  f_equal. unfold positions, range.
  rewrite (nth_flat_map_seq (fun i => map (fun j => (i, j)) (seq 0 (Z.to_nat m)))
             (Z.to_nat m)); try assumption.
  - simpl. rewrite (nth_indep _ (0, 0) ((fun j => (i, j)) 0))
      by (rewrite length_map, length_seq; exact Hj).
    rewrite map_nth, seq_nth by exact Hj. reflexivity.
  - intros k. rewrite length_map, length_seq. reflexivity.
Qed.

Section ConvMore.
Context {F : Type} {SF : Scalar F}.

(** X1. [Conv2D.iterate_regions] on an image of three axes never raises.  It
    yields the (H+1-F) * (W+1-F) windows of the image in row-major order of
    their corners (none when the filter is larger than the image); the
    window of corner (i, j) comes with i and j, has F rows, F columns and the
    channels of the image, and its element (a, b, k) is the element
    (i+a, j+b, k) of the image.  On an image that has not three axes the
    unpacking of its shape raises. *)
Theorem conv_iterate_regions_spec (self : Conv2D.t F) (image : ndarray F) :
  (length (shape image) <> 3 ->
   Conv2D.iterate_regions self image = Err UnpackError)
  /\ forall h w c, shape image = [h; w; c] ->
       exists regions,
         Conv2D.iterate_regions self image = Ok regions
         /\ length regions
            = (h + 1 - Conv2D.filter_size self) * (w + 1 - Conv2D.filter_size self)
         /\ forall i j,
              i < h + 1 - Conv2D.filter_size self ->
              j < w + 1 - Conv2D.filter_size self ->
              exists region,
                nth_error regions (i * (w + 1 - Conv2D.filter_size self) + j)
                = Some (region, i, j)
                /\ shape region
                   = [Conv2D.filter_size self; Conv2D.filter_size self; c]
                /\ forall a b k,
                     a < Conv2D.filter_size self -> b < Conv2D.filter_size self ->
                     k < c ->
                     get region [a; b; k] = get image [i + a; j + b; k].
Proof.
  split.
  - intros Hs. unfold Conv2D.iterate_regions.
    destruct (shape image) as [|h [|w [|c [|? ?]]]]; simpl in *;
      try reflexivity; lia.
  - intros h w c Hs.
    set (Fs := Conv2D.filter_size self).
    assert (Eh : Z.to_nat (Z.of_nat h - Z.of_nat Fs + 1) = h + 1 - Fs) by lia.
    assert (Ew : Z.to_nat (Z.of_nat w - Z.of_nat Fs + 1) = w + 1 - Fs) by lia.
    rewrite (conv_iterate_regions self image h w c Hs). fold Fs.
    eexists. split; [reflexivity|]. split.
    + rewrite length_map, length_positions, Eh, Ew. reflexivity.
    + intros i j Hi Hj.
      exists (window image i (i + Fs) j (j + Fs)).
      split; [|split].
      * rewrite nth_error_map. rewrite <- Ew.
        rewrite nth_error_positions by lia. reflexivity.
      * apply (shape_window image h w c i Fs j Fs Hs); lia.
      * intros a b k Ha Hb Hk.
        apply (get_window image h w c i Fs j Fs [a; b; k] Hs); try lia.
        solve_bounds.
Qed.

(** X2. An image of one channel is not rejected: NumPy broadcasts the channel
    against the [IMG_CHANNELS] channels of the filters.  The output has the
    shape (H-F+1, W-F+1, N), and its value at (i, j, f) is the sum over the
    F x F window, and over the channels c of the filter, of the pixel
    (i+a, j+b) times the weight (f, a, b, c), the products being added in
    row-major order from the first one on. *)
Theorem conv_forward_single_channel (self : Conv2D.t F) (input : ndarray F)
        (h w : nat) :
  conv_wf self ->
  shape input = [h; w; 1] ->
  Conv2D.filter_size self <= h -> Conv2D.filter_size self <= w ->
  exists out,
    Conv2D.forward input self = (Conv2D.set_last_input input self, Ok out)
    /\ shape out = [h - Conv2D.filter_size self + 1;
                    w - Conv2D.filter_size self + 1;
                    Conv2D.num_filters self]
    /\ forall i j f,
         i < h - Conv2D.filter_size self + 1 ->
         j < w - Conv2D.filter_size self + 1 ->
         f < Conv2D.num_filters self ->
         let products :=
           map (fun t => fmul (get input [i + nth 0 t 0; j + nth 1 t 0; 0])
                              (get (Conv2D.filters self) (f :: t)))
               (indices [Conv2D.filter_size self; Conv2D.filter_size self;
                         IMG_CHANNELS]) in
         get out [i; j; f] = fold_left fadd (tl products) (hd f0 products).
Proof.
  intros Hwf Hin Hh Hw.
  destruct (conv_forward_values_broadcast self input h w Hwf Hin Hh Hw)
    as (out & Hfw & Hos & Hog).
  exists out. split; [exact Hfw|]. split; [exact Hos|].
  intros i j f Hi Hj Hf. cbv zeta.
  rewrite (Hog i j f Hi Hj Hf). apply reduce_from_first.
Qed.

(** X3. Convolution and cropping commute.  The forward pass on the crop of n
    rows and m columns of the image at (di, dj) returns, at (i, j), what the
    forward pass on the whole image returns at (di+i, dj+j): an output depends
    on the window under the filter and on nothing else. *)
Theorem conv_forward_crop (self : Conv2D.t F) (input : ndarray F)
        (h w di dj n m : nat) :
  conv_wf self -> shape input = [h; w; IMG_CHANNELS] ->
  di + n <= h -> dj + m <= w ->
  Conv2D.filter_size self <= n -> Conv2D.filter_size self <= m ->
  exists crop out out',
    slice2 input di (di + n) dj (dj + m) = Ok crop
    /\ shape crop = [n; m; IMG_CHANNELS]
    /\ snd (Conv2D.forward input self) = Ok out
    /\ snd (Conv2D.forward crop self) = Ok out'
    /\ shape out' = [n - Conv2D.filter_size self + 1;
                     m - Conv2D.filter_size self + 1;
                     Conv2D.num_filters self]
    /\ forall i j f,
         i < n - Conv2D.filter_size self + 1 ->
         j < m - Conv2D.filter_size self + 1 ->
         f < Conv2D.num_filters self ->
         get out' [i; j; f] = get out [di + i; dj + j; f].
Proof.
  intros Hwf Hin Hdi Hdj Hn Hm.
  set (Fs := Conv2D.filter_size self) in *.
  pose proof (shape_window input h w IMG_CHANNELS di n dj m Hin Hdi Hdj) as Hcs.
  destruct (conv_forward_values self input h w Hwf Hin) as (out & Hfw & Hos & Hog);
    [fold Fs; lia | fold Fs; lia |].
  destruct (conv_forward_values self _ n m Hwf Hcs Hn Hm) as (out' & Hfw' & Hos' & Hog').
  exists (window input di (di + n) dj (dj + m)), out, out'.
  split; [apply (slice2_window input h w [IMG_CHANNELS]), Hin|].
  split; [exact Hcs|].
  split; [rewrite Hfw; reflexivity|]. split; [rewrite Hfw'; reflexivity|].
  split; [exact Hos'|].
  intros i j f Hi Hj Hf. fold Fs in Hi, Hj, Hog, Hog'.
  rewrite Hog' by assumption. rewrite Hog by lia.
  f_equal. unfold conv_terms. apply map_ext_in. intros t Ht.
  apply in_indices in Ht. f_equal.
  destruct t as [|a [|b [|c [|? ?]]]]; try (bad_index Ht).
  apply in_bounds_cons in Ht. destruct Ht as [Ha Ht].
  apply in_bounds_cons in Ht. destruct Ht as [Hb Ht].
  apply in_bounds_cons in Ht. destruct Ht as [Hc _].
  fold Fs in Ha, Hb.
  rewrite (get_window input h w IMG_CHANNELS di n dj m _ Hin Hdi Hdj)
    by (unfold window_index; solve_bounds).
  unfold window_index. rewrite !Nat.add_assoc. reflexivity.
Qed.

(** A loop whose body raises [E] on the elements that are not [good], and on
    the others keeps the shape of the array. *)
Lemma for_accepts {A} (s : list nat) (E : exn) (good : A -> bool) (ps : list A)
      (body : ndarray F -> A -> result (ndarray F)) :
  (forall a p, In p ps -> shape a = s ->
     if good p then exists a', body a p = Ok a' /\ shape a' = s
     else body a p = Err E) ->
  forall a0, shape a0 = s ->
    if forallb good ps then exists a', for_ ps a0 body = Ok a' /\ shape a' = s
    else for_ ps a0 body = Err E.
Proof.
  induction ps as [|p ps IH]; intros Hb a0 Hs; simpl.
  - exists a0. auto.
  - pose proof (Hb a0 p (or_introl eq_refl) Hs) as Hp.
    destruct (good p); simpl.
    + destruct Hp as (a1 & -> & Hs1).
      apply IH; [|exact Hs1]. intros a q Hq. apply Hb. now right.
    + rewrite Hp. reflexivity.
Qed.

(** One execution of [d_L_d_filters[f] += d_L_d_out[i, j, f] * region], on a
    gradient of any shape. *)
Lemma conv_backward_step_reads (self : Conv2D.t F) (input d_out d : ndarray F)
      h w i j f :
  shape input = [h; w; IMG_CHANNELS] ->
  i + Conv2D.filter_size self <= h -> j + Conv2D.filter_size self <= w ->
  f < Conv2D.num_filters self ->
  shape d = [Conv2D.num_filters self; Conv2D.filter_size self;
             Conv2D.filter_size self; IMG_CHANNELS] ->
  if in_boundsb (shape d_out) [i; j; f]
  then exists d',
         (acc <- subarray d [f] ;;
          g <- item d_out [i; j; f] ;;
          acc <- np_ibinop fadd acc
                   (np_map (fmul g)
                      (window input i (i + Conv2D.filter_size self)
                                    j (j + Conv2D.filter_size self))) ;;
          setitem d [f] acc)%res = Ok d'
         /\ shape d' = shape d
  else (acc <- subarray d [f] ;;
        g <- item d_out [i; j; f] ;;
        acc <- np_ibinop fadd acc
                 (np_map (fmul g)
                    (window input i (i + Conv2D.filter_size self)
                                  j (j + Conv2D.filter_size self))) ;;
        setitem d [f] acc)%res = Err IndexError.
Proof.
  intros Hin Hi Hj Hf Hd.
  set (Fs := Conv2D.filter_size self) in *.
  set (N := Conv2D.num_filters self) in *.
  pose proof (shape_window _ _ _ _ _ _ _ _ Hin Hi Hj) as Hreg.
  destruct (subarray_ok d _ _ f Hd Hf) as (acc & -> & Has & _).
  cbn [rbind]. unfold item.
  destruct (in_boundsb (shape d_out) [i; j; f]); [|reflexivity].
  cbn [rbind].
  destruct (np_ibinop_same fadd acc
              (np_map (fmul (get d_out [i; j; f])) (window input i (i + Fs) j (j + Fs))))
    as (acc' & -> & Has' & _).
  { rewrite shape_np_map. congruence. }
  cbn [rbind].
  destruct (setitem_ok d acc' [f] [Fs; Fs; IMG_CHANNELS]) as (d' & -> & Hds & _).
  { rewrite Hd. solve_bounds. }
  { rewrite Hd. reflexivity. }
  { congruence. }
  exists d'. split; [reflexivity | exact Hds].
Qed.

(** The gradients that the two loops of [Conv2D.backward] read to the end:
    those that hold every index (i, j, f) the loops visit. *)
Lemma gradient_covers (a b c nh nw N : nat) :
  0 < nh -> 0 < nw -> 0 < N ->
  forallb (fun p : nat * nat =>
             forallb (fun f => in_boundsb [a; b; c] [fst p; snd p; f]) (seq 0 N))
          (positions (Z.of_nat nh) (Z.of_nat nw)) = true
  <-> nh <= a /\ nw <= b /\ N <= c.
Proof.
  intros Hh Hw HN. rewrite forallb_forall. split.
  - intros H. specialize (H (nh - 1, nw - 1)).
    rewrite forallb_forall in H.
    assert (Hp : In (nh - 1, nw - 1) (positions (Z.of_nat nh) (Z.of_nat nw)))
      by (apply in_positions; lia).
    specialize (H Hp (N - 1)). simpl in H.
    assert (Hf : In (N - 1) (seq 0 N)) by (apply in_seq; lia).
    specialize (H Hf).
    rewrite andb_true_r in H. apply andb_true_iff in H. destruct H as [H1 H].
    apply andb_true_iff in H. destruct H as [H2 H3].
    apply Nat.ltb_lt in H1, H2, H3. lia.
  - intros (Ha & Hb & Hc) [i j] Hp. apply in_positions in Hp.
    apply forallb_forall. intros f Hf. apply in_seq in Hf. simpl.
    rewrite !(proj2 (Nat.ltb_lt _ _)) by lia. reflexivity.
Qed.

(** X4. [Conv2D.backward] does not check the shape of the gradient it is given.
    After a forward pass that returned an output of shape (H', W', N) with at
    least one element, on a gradient of three axes: a gradient that is at
    least as large as the output along every axis is accepted, the filters
    keeping their shape; a gradient that is smaller along some axis raises
    IndexError where the loop reads beyond it, and the layer is left as it
    was, the filters being updated after the loop only. *)
Theorem conv_backward_gradient_shape (self0 self : Conv2D.t F)
        (input out d_out : ndarray F) (lr : F) (h w a b c : nat) :
  conv_wf self0 ->
  shape input = [h; w; IMG_CHANNELS] ->
  Conv2D.filter_size self0 <= h -> Conv2D.filter_size self0 <= w ->
  0 < Conv2D.num_filters self0 ->
  Conv2D.forward input self0 = (self, Ok out) ->
  shape d_out = [a; b; c] ->
  (h - Conv2D.filter_size self0 + 1 <= a
   /\ w - Conv2D.filter_size self0 + 1 <= b
   /\ Conv2D.num_filters self0 <= c ->
   exists W,
     Conv2D.backward d_out lr self = (Conv2D.set_filters W self, Ok tt)
     /\ shape W = shape (Conv2D.filters self0))
  /\ (a < h - Conv2D.filter_size self0 + 1
      \/ b < w - Conv2D.filter_size self0 + 1
      \/ c < Conv2D.num_filters self0 ->
      Conv2D.backward d_out lr self = (self, Err IndexError)).
Proof.
  intros Hwf Hin Hh Hw HN Hfw Hd.
  destruct (conv_forward_shape self0 input h w Hwf Hin Hh Hw) as (out' & Hfw' & _).
  rewrite Hfw in Hfw'. injection Hfw' as Es Eo. subst self out'.
  set (Fs := Conv2D.filter_size self0) in *.
  set (N := Conv2D.num_filters self0) in *.
  set (self := Conv2D.set_last_input input self0).
  assert (Hloop :
    if forallb (fun p : nat * nat =>
                  forallb (fun f => in_boundsb [a; b; c] [fst p; snd p; f]) (seq 0 N))
               (positions (Z.of_nat (h - Fs + 1)) (Z.of_nat (w - Fs + 1)))
    then exists W,
           Conv2D.backward d_out lr self = (Conv2D.set_filters W self, Ok tt)
           /\ shape W = shape (Conv2D.filters self0)
    else Conv2D.backward d_out lr self = (self, Err IndexError)).
  { unfold Conv2D.backward, bind, assign, self_, liftR.
    rewrite np_zeros_ok. unfold self.
    cbn [Conv2D.last_input Conv2D.set_last_input attr Conv2D.filters
         Conv2D.filter_size Conv2D.num_filters].
    rewrite (conv_iterate_regions _ _ _ _ _ Hin).
    cbn [Conv2D.filter_size Conv2D.set_last_input]. fold Fs N.
    replace (Z.of_nat h - Z.of_nat Fs + 1)%Z with (Z.of_nat (h - Fs + 1)) by lia.
    replace (Z.of_nat w - Z.of_nat Fs + 1)%Z with (Z.of_nat (w - Fs + 1)) by lia.
    rewrite for_map.
    match goal with
    | |- context [for_ ?l ?a0 ?body] =>
        pose proof (for_accepts (shape (Conv2D.filters self0)) IndexError
                      (fun p : nat * nat =>
                         forallb (fun f => in_boundsb [a; b; c] [fst p; snd p; f])
                                 (seq 0 N))
                      l body) as Hacc;
        specialize (fun H => Hacc H a0 eq_refl)
    end.
    match type of Hacc with ?P -> _ => assert (Hbody : P) end.
    { intros d0 [i j] Hp Hd0. apply in_positions in Hp. cbn [fst snd].
      apply (for_accepts (shape (Conv2D.filters self0)) IndexError
               (fun f => in_boundsb [a; b; c] [i; j; f]) (seq 0 N)); [|exact Hd0].
      intros d1 f Hf Hd1. apply in_seq in Hf.
      pose proof (conv_backward_step_reads self0 input d_out d1 h w i j f Hin) as Hstep.
      fold Fs N in Hstep. rewrite Hd in Hstep. rewrite <- Hd1.
      apply Hstep; try lia. rewrite Hd1. exact Hwf. }
    specialize (Hacc Hbody).
    destruct (forallb _ _).
    - destruct Hacc as (d' & -> & Hds).
      destruct (np_ibinop_same fsub (Conv2D.filters self0) (np_map (fmul lr) d'))
        as (W & -> & HWs & _); [rewrite shape_np_map; exact Hds|].
      exists W. split; [reflexivity | exact HWs].
    - rewrite Hacc. reflexivity. }
  pose proof (gradient_covers a b c (h - Fs + 1) (w - Fs + 1) N
                ltac:(lia) ltac:(lia) HN) as Hcov.
  split.
  - intros Hbig. rewrite (proj2 Hcov Hbig) in Hloop. exact Hloop.
  - intros Hsmall.
    destruct (forallb _ _); [|exact Hloop].
    pose proof (proj1 Hcov eq_refl). lia.
Qed.

End ConvMore.


(** ** Max pooling *)

Section PoolMore.
Context {F : Type} {SF : Scalar F}.

(** X5. [MaxPooling2D.iterate_regions] on an image of three axes raises
    ZeroDivisionError when the pool size is zero.  With a positive pool size P
    it yields the (H div P) * (W div P) windows in row-major order; the window
    (i, j) has P rows, P columns and the channels of the image, its element
    (a, b, k) is the element (i*P+a, j*P+b, k) of the image, and it lies
    within the first (H div P) * P rows and (W div P) * P columns: the windows
    do not overlap and never reach the rows and columns of the remainder. *)
Theorem pool_iterate_regions_spec (self : MaxPooling2D.t F) (image : ndarray F)
        (h w c : nat) :
  shape image = [h; w; c] ->
  (MaxPooling2D.pool_size self = 0 ->
   MaxPooling2D.iterate_regions self image = Err ZeroDivisionError)
  /\ (0 < MaxPooling2D.pool_size self ->
      exists regions,
        MaxPooling2D.iterate_regions self image = Ok regions
        /\ length regions
           = (h / MaxPooling2D.pool_size self) * (w / MaxPooling2D.pool_size self)
        /\ forall i j,
             i < h / MaxPooling2D.pool_size self ->
             j < w / MaxPooling2D.pool_size self ->
             exists region,
               nth_error regions (i * (w / MaxPooling2D.pool_size self) + j)
               = Some (region, i, j)
               /\ shape region
                  = [MaxPooling2D.pool_size self; MaxPooling2D.pool_size self; c]
               /\ forall a b k,
                    a < MaxPooling2D.pool_size self ->
                    b < MaxPooling2D.pool_size self -> k < c ->
                    get region [a; b; k]
                    = get image [i * MaxPooling2D.pool_size self + a;
                                 j * MaxPooling2D.pool_size self + b; k]
                    /\ i * MaxPooling2D.pool_size self + a
                       < h / MaxPooling2D.pool_size self * MaxPooling2D.pool_size self
                    /\ j * MaxPooling2D.pool_size self + b
                       < w / MaxPooling2D.pool_size self * MaxPooling2D.pool_size self).
Proof.
  intros Hs. set (P := MaxPooling2D.pool_size self). split.
  - intros HP. unfold MaxPooling2D.iterate_regions, floordiv. rewrite Hs. simpl.
    fold P. rewrite HP. reflexivity.
  - intros HP.
    rewrite (pool_iterate_regions self image h w c Hs HP). fold P.
    eexists. split; [reflexivity|]. split.
    + rewrite length_map, length_positions, !Nat2Z.id. reflexivity.
    + intros i j Hi Hj.
      pose proof (window_fits P h i HP Hi) as Hi'.
      pose proof (window_fits P w j HP Hj) as Hj'.
      exists (window image (i * P) (i * P + P) (j * P) (j * P + P)).
      split; [|split].
      * rewrite nth_error_map.
        replace (i * (w / P) + j) with (i * Z.to_nat (Z.of_nat (w / P)) + j)
          by (rewrite Nat2Z.id; reflexivity).
        rewrite nth_error_positions by (rewrite Nat2Z.id; assumption).
        reflexivity.
      * apply (shape_window image h w c (i * P) P (j * P) P Hs); assumption.
      * intros a b k Ha Hb Hk. split; [|split].
        -- apply (get_window image h w c (i * P) P (j * P) P [a; b; k] Hs);
             try assumption.
           solve_bounds.
        -- assert (S i * P <= h / P * P) by (apply Nat.mul_le_mono_r; lia).
           simpl in *. lia.
        -- assert (S j * P <= w / P * P) by (apply Nat.mul_le_mono_r; lia).
           simpl in *. lia.
Qed.

(** The values of [MaxPooling2D.forward], for the proofs below. *)
Lemma pool_forward_values (self : MaxPooling2D.t F) (input : ndarray F) (h w n : nat) :
  shape input = [h; w; n] -> 0 < MaxPooling2D.pool_size self ->
  exists out,
    MaxPooling2D.forward input self = (MaxPooling2D.set_last_input input self, Ok out)
    /\ shape out = [h / MaxPooling2D.pool_size self;
                    w / MaxPooling2D.pool_size self; n]
    /\ forall i j k,
         i < h / MaxPooling2D.pool_size self ->
         j < w / MaxPooling2D.pool_size self -> k < n ->
         get out [i; j; k] = pool_max input (MaxPooling2D.pool_size self) i j k.
Proof.
  intros Hin HP.
  set (P := MaxPooling2D.pool_size self) in *.
  unfold MaxPooling2D.forward, bind, assign, self_, liftR, floordiv.
  rewrite Hin. simpl. fold P.
  destruct (Nat.eqb_spec P 0) as [E|_]; [lia|]. simpl.
  change [Z.of_nat (h / P); Z.of_nat (w / P); Z.of_nat n]
    with (map Z.of_nat [h / P; w / P; n]).
  rewrite np_zeros_ok.
  rewrite (pool_iterate_regions _ _ _ _ _ Hin) by (simpl; exact HP).
  simpl. fold P. rewrite for_map.
  match goal with
  | |- context [for_ ?l ?a ?b] =>
      destruct (for_pointwise [h / P; w / P; n] l b
                  (fun p x old =>
                     if prefixb [fst p; snd p] x
                     then pool_max input P (fst p) (snd p) (nth 2 x 0)
                     else old)) with (a0 := a)
        as (out & Hfor & Hos & Hog)
  end;
    [ | | exists out; split; [rewrite Hfor; reflexivity|]; split; [exact Hos|]].
  - intros a [i j] Hp Ha. apply in_positions in Hp. simpl.
    destruct (amax_window input h w n P i j Hin HP) as (m & -> & Hms & Hmg); try lia.
    simpl.
    destruct (setitem_ok a m [i; j] [n]) as (a' & -> & Has & Hag).
    { rewrite Ha. solve_bounds. }
    { rewrite Ha. reflexivity. }
    { exact Hms. }
    exists a'. split; [reflexivity|]. split; [congruence|].
    intros x Hx. rewrite Hag by (rewrite Ha; exact Hx).
    destruct x as [|x0 [|x1 [|k [|? ?]]]];
      try (bad_index Hx).
    apply in_bounds_cons in Hx. destruct Hx as [_ Hx].
    apply in_bounds_cons in Hx. destruct Hx as [_ Hx].
    apply in_bounds_cons in Hx. destruct Hx as [Hk _].
    simpl. destruct ((i =? x0) && ((j =? x1) && true)); [|reflexivity].
    apply Hmg, Hk.
  - reflexivity.
  - intros i j k Hi Hj Hk.
    rewrite Hog by solve_bounds.
    rewrite get_zeros.
    apply (fold_overwrite
             (fun p : nat * nat => prefixb [fst p; snd p] [i; j; k])
             (fun p => pool_max input P (fst p) (snd p) k)).
    + intros [i' j'] _ Hhit. simpl in Hhit.
      rewrite andb_true_r in Hhit. apply andb_true_iff in Hhit.
      destruct Hhit as [Hi' Hj']. apply Nat.eqb_eq in Hi', Hj'. subst. reflexivity.
    + right. exists (i, j). split; [apply in_positions; lia|].
      simpl. rewrite !Nat.eqb_refl. reflexivity.
Qed.

Lemma pool_max_one (input : ndarray F) i j k :
  pool_max input 1 i j k = get input [i; j; k].
Proof.
  unfold pool_max, pool_window. cbn [indices seq flat_map map app max_reduce fold_left].
  unfold window_index. rewrite !Nat.mul_1_r, !Nat.add_0_r. reflexivity.
Qed.

(** X6. With a pool size of one, pooling is the identity.  [forward] returns a
    tensor of the shape and the elements of the input.  [backward], on a
    gradient of that shape, returns the gradient where the element of the
    input compares equal to itself, and zero where it does not, which for
    float64 is where the input is NaN. *)
Theorem pool_size_one_identity (self : MaxPooling2D.t F) (input d_out : ndarray F)
        (h w n : nat) :
  shape input = [h; w; n] -> MaxPooling2D.pool_size self = 1 ->
  exists out,
    MaxPooling2D.forward input self = (MaxPooling2D.set_last_input input self, Ok out)
    /\ shape out = [h; w; n]
    /\ (forall i j k, i < h -> j < w -> k < n ->
          get out [i; j; k] = get input [i; j; k])
    /\ (shape d_out = [h; w; n] ->
        exists g,
          MaxPooling2D.backward d_out (MaxPooling2D.set_last_input input self)
          = (MaxPooling2D.set_last_input input self, Ok g)
          /\ shape g = [h; w; n]
          /\ forall r c k, r < h -> c < w -> k < n ->
               get g [r; c; k]
               = if feqb (get input [r; c; k]) (get input [r; c; k])
                 then get d_out [r; c; k] else f0).
Proof.
  intros Hin HP.
  destruct (pool_forward_values self input h w n Hin) as (out & Hfw & Hos & Hog);
    [lia|].
  rewrite HP, !Nat.div_1_r in Hos.
  exists out. split; [exact Hfw|]. split; [exact Hos|]. split.
  - intros i j k Hi Hj Hk.
    rewrite Hog by (rewrite ?HP, ?Nat.div_1_r; assumption).
    rewrite HP. apply pool_max_one.
  - intros Hd.
    destruct (pool_backward_ok (MaxPooling2D.set_last_input input self) input d_out
                h w n eq_refl Hin) as (g & Hb & Hgs & Hgg).
    + simpl. lia.
    + simpl. rewrite HP, !Nat.div_1_r. exact Hd.
    + exists g. split; [exact Hb|]. split; [exact Hgs|].
      intros r c k Hr Hc Hk. rewrite Hgg by solve_bounds.
      unfold pool_gradient. cbn [MaxPooling2D.pool_size MaxPooling2D.set_last_input].
      rewrite HP, !Nat.div_1_r, !Nat.mul_1_r, pool_max_one.
      rewrite (proj2 (Nat.ltb_lt r h) Hr), (proj2 (Nat.ltb_lt c w) Hc).
      reflexivity.
Qed.

(** X7. A pool size larger than the height or the width of the input is not an
    error either: no window fits, [forward] returns a tensor without elements,
    and [backward], on a gradient of that shape, returns zeros in the shape of
    the input. *)
Theorem pool_forward_oversize (self : MaxPooling2D.t F) (input d_out : ndarray F)
        (h w n : nat) :
  shape input = [h; w; n] ->
  h < MaxPooling2D.pool_size self \/ w < MaxPooling2D.pool_size self ->
  exists out,
    MaxPooling2D.forward input self = (MaxPooling2D.set_last_input input self, Ok out)
    /\ shape out = [h / MaxPooling2D.pool_size self;
                    w / MaxPooling2D.pool_size self; n]
    /\ size (shape out) = 0
    /\ (shape d_out = shape out ->
        exists g,
          MaxPooling2D.backward d_out (MaxPooling2D.set_last_input input self)
          = (MaxPooling2D.set_last_input input self, Ok g)
          /\ shape g = [h; w; n]
          /\ forall r c k, r < h -> c < w -> k < n -> get g [r; c; k] = f0).
Proof.
  intros Hin Hbig.
  set (P := MaxPooling2D.pool_size self) in *.
  assert (HP : 0 < P) by lia.
  destruct (pool_forward_shape self input h w n Hin HP) as (out & Hfw & Hos).
  fold P in Hos.
  assert (Hz : h / P = 0 \/ w / P = 0)
    by (destruct Hbig; [left | right]; apply Nat.div_small; assumption).
  exists out. split; [exact Hfw|]. split; [exact Hos|]. split.
  - rewrite Hos. cbn [size fold_right]. destruct Hz as [-> | ->]; lia.
  - intros Hd.
    destruct (pool_backward_ok (MaxPooling2D.set_last_input input self) input d_out
                h w n eq_refl Hin HP) as (g & Hb & Hgs & Hgg).
    + rewrite Hd. exact Hos.
    + exists g. split; [exact Hb|]. split; [exact Hgs|].
      intros r c k Hr Hc Hk. rewrite Hgg by solve_bounds.
      unfold pool_gradient.
      cbn [MaxPooling2D.pool_size MaxPooling2D.set_last_input]. fold P.
      replace ((r <? h / P * P) && (c <? w / P * P)) with false; [reflexivity|].
      symmetry. apply andb_false_iff.
      destruct Hz as [E | E]; rewrite E; [left | right]; apply Nat.ltb_ge; lia.
Qed.

(** X8. The rows and columns beyond the last whole window have no influence:
    [forward] on the input cropped to its first (H div P) * P rows and
    (W div P) * P columns returns a tensor of the same shape and the same
    elements as on the whole input. *)
Theorem pool_forward_crop (self : MaxPooling2D.t F) (input : ndarray F) (h w n : nat) :
  shape input = [h; w; n] -> 0 < MaxPooling2D.pool_size self ->
  exists crop out out',
    slice2 input 0 (h / MaxPooling2D.pool_size self * MaxPooling2D.pool_size self)
                 0 (w / MaxPooling2D.pool_size self * MaxPooling2D.pool_size self)
    = Ok crop
    /\ shape crop = [h / MaxPooling2D.pool_size self * MaxPooling2D.pool_size self;
                     w / MaxPooling2D.pool_size self * MaxPooling2D.pool_size self; n]
    /\ snd (MaxPooling2D.forward input self) = Ok out
    /\ snd (MaxPooling2D.forward crop self) = Ok out'
    /\ shape out' = shape out
    /\ forall i j k,
         i < h / MaxPooling2D.pool_size self ->
         j < w / MaxPooling2D.pool_size self -> k < n ->
         get out' [i; j; k] = get out [i; j; k].
Proof.
  intros Hin HP.
  set (P := MaxPooling2D.pool_size self) in *.
  assert (Hh : 0 + h / P * P <= h) by (pose proof (Nat.Div0.mul_div_le h P); lia).
  assert (Hw : 0 + w / P * P <= w) by (pose proof (Nat.Div0.mul_div_le w P); lia).
  pose proof (shape_window input h w n 0 (h / P * P) 0 (w / P * P) Hin Hh Hw) as Hcs.
  destruct (pool_forward_values self input h w n Hin HP) as (out & Hfw & Hos & Hog).
  destruct (pool_forward_values self _ _ _ n Hcs HP) as (out' & Hfw' & Hos' & Hog').
  fold P in Hos, Hog, Hos', Hog'.
  rewrite !Nat.div_mul in Hos', Hog' by lia.
  exists (window input 0 (0 + h / P * P) 0 (0 + w / P * P)), out, out'.
  split; [apply (slice2_window input h w [n]), Hin|].
  split; [exact Hcs|].
  split; [rewrite Hfw; reflexivity|]. split; [rewrite Hfw'; reflexivity|].
  split; [congruence|].
  intros i j k Hi Hj Hk. rewrite Hog', Hog by assumption.
  unfold pool_max, pool_window.
  match goal with
  | |- match max_reduce ?l1 with _ => _ end = match max_reduce ?l2 with _ => _ end =>
      replace l1 with l2; [reflexivity|]
  end.
  symmetry. apply map_ext_in. intros ab Hab. apply in_indices in Hab.
  destruct ab as [|x [|y [|? ?]]]; try (bad_index Hab).
  apply in_bounds_cons in Hab. destruct Hab as [Hx Hab].
  apply in_bounds_cons in Hab. destruct Hab as [Hy _].
  pose proof (window_fits P h i HP Hi). pose proof (window_fits P w j HP Hj).
  assert (S i * P <= h / P * P) by (apply Nat.mul_le_mono_r; lia).
  assert (S j * P <= w / P * P) by (apply Nat.mul_le_mono_r; lia).
  cbn [app window_index].
  rewrite (get_window input h w n 0 (h / P * P) 0 (w / P * P) _ Hin Hh Hw);
    [reflexivity|].
  simpl in *. solve_bounds.
Qed.

End PoolMore.


(** ** Dense layer *)

Section DenseMore.
Context {F : Type} {SF : Scalar F}.

(** X9. [Dense.forward] on an input of [input_len] elements, of any shape,
    returns one total per node: the sum over the elements x_l of the input, in
    row-major order and from the first one on, of x_l times the weight (l, c),
    plus the bias c.  The layer
    keeps the shape of the input, the flattened input and the totals, and its
    weights and biases stay.  The totals depend on the elements alone: the
    flattened input gives the same ones. *)
Theorem dense_forward_spec (self : Dense.t F) (input : ndarray F) (L C : nat) :
  dense_wf self L C -> size (shape input) = L ->
  exists totals self',
    Dense.forward input self = (self', Ok totals)
    /\ shape totals = [C]
    /\ (forall c, c < C ->
          let products :=
            map (fun l => fmul (nth l (data input) f0)
                               (get (Dense.weights self) [l; c]))
                (seq 0 L) in
          get totals [c]
          = fadd (fold_left fadd (tl products) (hd f0 products))
                 (get (Dense.biases self) [c]))
    /\ Dense.last_input_shape self' = Some (shape input)
    /\ Dense.last_input self' = Some (flatten input)
    /\ Dense.last_totals self' = Some totals
    /\ Dense.weights self' = Dense.weights self
    /\ Dense.biases self' = Dense.biases self
    /\ exists totals',
         snd (Dense.forward (flatten input) self) = Ok totals'
         /\ shape totals' = [C]
         /\ forall c, c < C -> get totals' [c] = get totals [c].
Proof.
  intros Hwf HL.
  destruct (dense_forward_ok self input L C Hwf HL) as (totals & Hfw & Hts & Htg).
  assert (HL' : size (shape (flatten input)) = L) by (simpl; lia).
  destruct (dense_forward_ok self (flatten input) L C Hwf HL')
    as (totals' & Hfw' & Hts' & Htg').
  exists totals. eexists. split; [exact Hfw|].
  split; [exact Hts|]. split.
  { intros c Hc. cbv zeta. rewrite (Htg c Hc). unfold dot_col.
    rewrite reduce_from_first. f_equal.
    rewrite (map_ext (fun l => fmul (get (flatten input) [l])
                                    (get (Dense.weights self) [l; c]))
                     (fun l => fmul (nth l (data input) f0)
                                    (get (Dense.weights self) [l; c])))
      by (intros l; rewrite get_flatten; reflexivity).
    reflexivity. }
  do 5 (split; [reflexivity|]).
  exists totals'. split; [rewrite Hfw'; reflexivity|]. split; [exact Hts'|].
  intros c Hc. rewrite (Htg' c Hc), (Htg c Hc). reflexivity.
Qed.

(** X10. After a forward pass, [Dense.backward] on a gradient of one axis whose
    length is not the number of nodes raises the ValueError of [np.dot], on
    the product of the weights by the gradient, before it has updated
    anything: the layer is as it was. *)
Theorem dense_backward_wrong_length (self0 self : Dense.t F)
        (input totals d_out : ndarray F) (lr : F) (L C C' : nat) :
  dense_wf self0 L C ->
  Dense.forward input self0 = (self, Ok totals) ->
  shape d_out = [C'] -> C' <> C ->
  Dense.backward d_out lr self = (self, Err DotShapeError).
Proof.
  intros Hwf Hfw Hd Hne.
  assert (HL : size (shape input) = L).
  { destruct (Nat.eq_dec (size (shape input)) L) as [E|E]; [exact E|].
    assert (Hr : raises (Dense.forward input) self0)
      by (apply (dense_forward_raises_iff self0 input L C Hwf); exact E).
    destruct Hr as (e & He). rewrite Hfw in He. discriminate. }
  destruct (dense_forward_ok self0 input L C Hwf HL) as (t' & Hfw' & _).
  rewrite Hfw in Hfw'. injection Hfw' as Es Eo. subst self t'.
  destruct Hwf as [HW Hb].
  unfold Dense.backward, bind, assign, self_, liftR. cbn [Dense.last_input
    Dense.set_last_totals Dense.set_last_input Dense.set_last_input_shape attr].
  destruct (np_dot_outer (flatten input) d_out (size (shape input)) C' eq_refl Hd)
    as (col & row & dw & -> & -> & -> & _).
  cbn [rbind Dense.weights Dense.set_last_totals Dense.set_last_input
       Dense.set_last_input_shape].
  unfold np_dot at 1. rewrite HW, Hd.
  destruct (Nat.eqb_spec C C') as [E|_]; [congruence | reflexivity].
Qed.

End DenseMore.


(** ** Calls out of order *)

Section CallOrder.
Context {F : Type} {SF : Scalar F}.

(** X11. A backward pass on a layer that has made no forward pass raises
    AttributeError, the layer having no [last_input] yet, and changes
    nothing. *)
Theorem backward_before_forward
        (num_filters filter_size pool_size input_len nodes : nat)
        (randn randn' : list F) (d_L_d_out : ndarray F) (learn_rate : F) :
  Conv2D.backward d_L_d_out learn_rate (Conv2D.init num_filters filter_size randn)
  = (Conv2D.init num_filters filter_size randn, Err AttributeError)
  /\ MaxPooling2D.backward d_L_d_out (MaxPooling2D.init pool_size : MaxPooling2D.t F)
     = (MaxPooling2D.init pool_size, Err AttributeError)
  /\ Dense.backward d_L_d_out learn_rate (Dense.init input_len nodes randn')
     = (Dense.init input_len nodes randn', Err AttributeError).
Proof.
  split; [|split; reflexivity].
  unfold Conv2D.backward, bind, assign, self_, liftR.
  rewrite np_zeros_ok. reflexivity.
Qed.

(** What a forward pass reads of the layer, and what it leaves of it. *)
Lemma conv_forward_congr (x : ndarray F) (s s' : Conv2D.t F) :
  Conv2D.num_filters s = Conv2D.num_filters s' ->
  Conv2D.filter_size s = Conv2D.filter_size s' ->
  Conv2D.filters s = Conv2D.filters s' ->
  Conv2D.forward x s = Conv2D.forward x s'.
Proof.
  destruct s, s'. simpl. intros -> -> ->. reflexivity.
Qed.

Lemma pool_forward_congr (x : ndarray F) (s s' : MaxPooling2D.t F) :
  MaxPooling2D.pool_size s = MaxPooling2D.pool_size s' ->
  MaxPooling2D.forward x s = MaxPooling2D.forward x s'.
Proof.
  destruct s, s'. simpl. intros ->. reflexivity.
Qed.

Lemma dense_forward_congr (x : ndarray F) (s s' : Dense.t F) :
  Dense.weights s = Dense.weights s' -> Dense.biases s = Dense.biases s' ->
  snd (Dense.forward x s) = snd (Dense.forward x s').
Proof.
  destruct s, s'. simpl. intros -> ->.
  unfold Dense.forward, bind, assign, self_, liftR, ret. simpl.
  destruct (unpack2 _) as [[n m]|]; simpl; [|reflexivity].
  destruct (np_dot _ _); simpl; [|reflexivity].
  destruct (np_binop _ _ _); reflexivity.
Qed.

Lemma conv_forward_frame (x : ndarray F) (s : Conv2D.t F) :
  Conv2D.num_filters (fst (Conv2D.forward x s)) = Conv2D.num_filters s
  /\ Conv2D.filter_size (fst (Conv2D.forward x s)) = Conv2D.filter_size s
  /\ Conv2D.filters (fst (Conv2D.forward x s)) = Conv2D.filters s.
Proof. rewrite conv_forward_state. repeat split. Qed.

Lemma pool_forward_frame (x : ndarray F) (s : MaxPooling2D.t F) :
  MaxPooling2D.pool_size (fst (MaxPooling2D.forward x s)) = MaxPooling2D.pool_size s.
Proof. rewrite pool_forward_state. reflexivity. Qed.

End CallOrder.

Section NetworkCallOrder.
Context {F : Type} {SF : Scalar F} {EF : Elementary F}.

(** What a forward pass of the network reads of the layers. *)
Lemma network_forward_congr (x : ndarray F) (label : Z) (net net' : Network.t F) :
  Conv2D.num_filters (Network.conv net) = Conv2D.num_filters (Network.conv net') ->
  Conv2D.filter_size (Network.conv net) = Conv2D.filter_size (Network.conv net') ->
  Conv2D.filters (Network.conv net) = Conv2D.filters (Network.conv net') ->
  MaxPooling2D.pool_size (Network.pool net) = MaxPooling2D.pool_size (Network.pool net') ->
  Dense.weights (Network.dense net) = Dense.weights (Network.dense net') ->
  Dense.biases (Network.dense net) = Dense.biases (Network.dense net') ->
  snd (Network.forward x label net) = snd (Network.forward x label net').
Proof.
  intros H1 H2 H3 H4 H5 H6.
  unfold Network.forward, bind, on.
  rewrite (conv_forward_congr _ (Network.conv net) (Network.conv net') H1 H2 H3).
  destruct (Conv2D.forward _ (Network.conv net')) as [c [cout|e]]; [|reflexivity].
  cbn [Network.pool Network.set_conv].
  rewrite (pool_forward_congr cout (Network.pool net) (Network.pool net') H4).
  destruct (MaxPooling2D.forward cout (Network.pool net')) as [p [pout|e]];
    [|reflexivity].
  cbn [Network.dense Network.set_conv Network.set_pool].
  pose proof (dense_forward_congr pout (Network.dense net) (Network.dense net') H5 H6)
    as Hd.
  destruct (Dense.forward pout (Network.dense net)) as [d [totals|e]],
           (Dense.forward pout (Network.dense net')) as [d' [totals'|e']];
    cbn [snd] in Hd; try discriminate Hd.
  - injection Hd as ->. unfold liftR, ret.
    destruct (softmax totals'); [|reflexivity]. cbn.
    destruct (cross_entropy_loss _ _); [|reflexivity]. cbn.
    destruct (np_argmax _); reflexivity.
  - injection Hd as ->. reflexivity.
Qed.

Lemma network_forward_frame (x : ndarray F) (label : Z) (net : Network.t F) :
  Conv2D.num_filters (Network.conv (fst (Network.forward x label net)))
  = Conv2D.num_filters (Network.conv net)
  /\ Conv2D.filter_size (Network.conv (fst (Network.forward x label net)))
     = Conv2D.filter_size (Network.conv net)
  /\ MaxPooling2D.pool_size (Network.pool (fst (Network.forward x label net)))
     = MaxPooling2D.pool_size (Network.pool net).
Proof.
  unfold Network.forward, bind, on.
  match goal with |- context [Conv2D.forward ?a (Network.conv net)] =>
    pose proof (conv_forward_frame a (Network.conv net)) as (Hn & Hs & _);
    destruct (Conv2D.forward a (Network.conv net)) as [c' [out|e]]
  end; simpl in Hn, Hs; simpl; [|repeat split; assumption].
  match goal with |- context [MaxPooling2D.forward ?a ?p] =>
    pose proof (pool_forward_frame a p) as Hp;
    destruct (MaxPooling2D.forward a p) as [p' [out'|e]]
  end; simpl in Hp; simpl; [|repeat split; assumption].
  match goal with |- context [Dense.forward ?a ?d] =>
    destruct (Dense.forward a d) as [d' [totals|e]]
  end; simpl; [|repeat split; assumption].
  unfold liftR, ret.
  destruct (softmax totals); simpl; [|repeat split; assumption].
  destruct (cross_entropy_loss _ _); simpl; [|repeat split; assumption].
  destruct (np_argmax _); simpl; repeat split; assumption.
Qed.

(** X12. A forward pass leaves no trace in the result of the next one: what a
    layer, or the network, returns or raises on an input is the same after
    any earlier forward pass, whether that one returned or raised.  The
    retained input is overwritten before it could be read. *)
Theorem forward_history_independent
        (c : Conv2D.t F) (p : MaxPooling2D.t F) (d : Dense.t F) (net : Network.t F)
        (x y : ndarray F) (label label' : Z) :
  snd (Conv2D.forward x (fst (Conv2D.forward y c))) = snd (Conv2D.forward x c)
  /\ snd (MaxPooling2D.forward x (fst (MaxPooling2D.forward y p)))
     = snd (MaxPooling2D.forward x p)
  /\ snd (Dense.forward x (fst (Dense.forward y d))) = snd (Dense.forward x d)
  /\ snd (Network.forward x label (fst (Network.forward y label' net)))
     = snd (Network.forward x label net).
Proof.
  split; [|split; [|split]].
  - f_equal. apply conv_forward_congr; apply conv_forward_frame.
  - f_equal. apply pool_forward_congr, pool_forward_frame.
  - apply dense_forward_congr; apply dense_forward_params.
  - pose proof (network_forward_frame y label' net) as (H1 & H2 & H4).
    pose proof (network_forward_params y label' net) as (H3 & H5 & H6).
    apply network_forward_congr; assumption.
Qed.

End NetworkCallOrder.


(** ** Helper functions *)

Section SoftmaxMore.
Context {F : Type} {SF : Scalar F} {EF : Elementary F}.

(** X13. [softmax] on a vector without elements raises the ValueError of [np.max].
    On a vector of n > 0 scores it returns n numbers: [exp(x_c - m)] divided
    by the sum of the [exp(x_k - m)], added from the first one on, m being
    [np.max(x)], the maximum that [np.maximum] folds from the first score
    on. *)
Theorem softmax_spec (x : ndarray F) (n : nat) :
  shape x = [n] ->
  (n = 0 -> softmax x = Err ZeroSizeReduction)
  /\ (0 < n ->
      exists m out,
        max_reduce (map (fun k => get x [k]) (seq 0 n)) = Ok m
        /\ m = fold_left fmax (map (fun k => get x [k]) (seq 1 (n - 1)))
                         (get x [0])
        /\ softmax x = Ok out /\ shape out = [n]
        /\ forall c, c < n ->
             let powers := map (fun k => fexp (fsub (get x [k]) m)) (seq 0 n) in
             get out [c]
             = fdiv (fexp (fsub (get x [c]) m))
                    (fold_left fadd (tl powers) (hd f0 powers))).
Proof.
  intros Hx. split.
  - intros ->. unfold softmax, np_max. rewrite (elements_vector x 0 Hx). reflexivity.
  - intros Hn.
    destruct (softmax_ok x n Hx Hn) as (m & out & Hm & Hso & Hos & Hog).
    unfold np_max in Hm. rewrite (elements_vector x n Hx) in Hm.
    exists m, out. split; [exact Hm|]. split.
    { destruct (max_reduce_from_first _ _ Hm) as [_ ->].
      destruct n as [|n]; [lia|]. simpl. rewrite Nat.sub_0_r. reflexivity. }
    split; [exact Hso|]. split; [exact Hos|].
    intros c Hc. cbv zeta. rewrite (Hog c Hc), reduce_from_first. reflexivity.
Qed.

End SoftmaxMore.


(** With the real numbers for float64 the probabilities that [softmax] returns
    add up to one, and adding a constant to every score does not change
    them.  float64 rounds, so there the first holds up to rounding and the
    second fails once the constant absorbs the scores. *)

Section SoftmaxReal.
Local Open Scope R_scope.

(** X14. In the arithmetic of the real numbers, the numbers that [softmax]
    returns on a vector of n > 0 scores add up to one. *)
Lemma softmax_sums_to_one (x : ndarray R) (n : nat) :
  shape x = [n] -> (0 < n)%nat ->
  exists out, softmax x = Ok out /\ shape out = [n]
              /\ add_reduce (elements out) = 1.
Proof.
  intros Hx Hn.
  destruct (softmax_ok x n Hx Hn) as (m & out & _ & Hso & Hos & Hog).
  exists out. split; [exact Hso|]. split; [exact Hos|].
  rewrite (elements_vector out n Hos), add_reduce_sum.
  rewrite (map_ext_in _ (fun k => exp (get x [k] - m)
                                 / fold_right Rplus 0
                                     (map (fun k => exp (get x [k] - m)) (seq 0 n)))).
  2:{ intros k Hk. apply in_seq in Hk. rewrite Hog by lia.
      rewrite add_reduce_sum. reflexivity. }
  rewrite (sum_div (fun k => exp (get x [k] - m))).
  apply Rdiv_diag. apply Rgt_not_eq.
  apply (sum_exp_pos (fun k => get x [k] - m)).
  destruct n; [lia | discriminate].
Qed.

(** X15. In the arithmetic of the real numbers, adding one constant to every
    score changes nothing in what [softmax] returns. *)
Lemma softmax_shift (x : ndarray R) (c : R) (n : nat) :
  shape x = [n] -> (0 < n)%nat ->
  exists out out',
    softmax x = Ok out /\ softmax (np_map (fun v => v + c) x) = Ok out'
    /\ shape out' = shape out
    /\ forall k, (k < n)%nat -> get out' [k] = get out [k].
Proof.
  intros Hx Hn.
  destruct (softmax_ok x n Hx Hn) as (m & out & Hm & Hso & Hos & Hog).
  destruct (softmax_ok (np_map (fun v => v + c) x) n Hx Hn)
    as (m' & out' & Hm' & Hso' & Hos' & Hog').
  exists out, out'. split; [exact Hso|]. split; [exact Hso'|].
  split; [congruence|].
  assert (Hget : forall k, (k < n)%nat ->
            get (np_map (fun v => v + c) x) [k] = get x [k] + c).
  { intros k Hk. rewrite get_np_map by (rewrite Hx; apply bound1, Hk).
    reflexivity. }
  assert (Em : m' = m + c).
  { unfold np_max in Hm, Hm'.
    rewrite (elements_vector _ n Hx) in Hm.
    rewrite (elements_vector (np_map (fun v => v + c) x) n Hx) in Hm'.
    rewrite (map_ext_in _ (fun k => get x [k] + c)) in Hm'
      by (intros k Hk; apply in_seq in Hk; apply Hget; lia).
    destruct n as [|n]; [lia|]. simpl in Hm, Hm'.
    injection Hm as <-. injection Hm' as <-.
    apply (fold_left_Rmax_shift c (fun k => get x [k])). }
  intros k Hk. rewrite (Hog' k Hk), (Hog k Hk), (Hget k Hk), Em.
  simpl fdiv. simpl fexp. simpl fsub.
  replace (get x [k] + c - (m + c)) with (get x [k] - m) by ring.
  f_equal. f_equal. apply map_ext_in. intros j Hj. apply in_seq in Hj.
  rewrite Hget by lia. f_equal. ring.
Qed.

End SoftmaxReal.

Section HelpersMore.
Context {F : Type} {SF : Scalar F} {EF : Elementary F}.

(** X16. [cross_entropy_loss] on a vector of n probabilities reads the
    probability at index [y] as Python indexes: a [y] from 0 to n-1 counts from
    the start, a [y] from -n to -1 counts from the end, and any other [y]
    raises IndexError.  The loss is the negated logarithm of the probability
    read. *)
Theorem cross_entropy_loss_spec (output : ndarray F) (n : nat) (y : Z) :
  shape output = [n] ->
  ((0 <= y < Z.of_nat n)%Z ->
   cross_entropy_loss output y = Ok (fneg (flog (get output [Z.to_nat y]))))
  /\ ((- Z.of_nat n <= y < 0)%Z ->
      cross_entropy_loss output y
      = Ok (fneg (flog (get output [Z.to_nat (Z.of_nat n + y)]))))
  /\ ((y < - Z.of_nat n \/ Z.of_nat n <= y)%Z ->
      cross_entropy_loss output y = Err IndexError).
Proof.
  intros Ho. unfold cross_entropy_loss, getitem1, py_index. rewrite Ho.
  split; [|split].
  - intros Hy.
    replace ((0 <=? y)%Z && (y <? Z.of_nat n)%Z) with true
      by (symmetry; apply andb_true_iff; split; [apply Z.leb_le | apply Z.ltb_lt]; lia).
    cbn [rbind]. rewrite item_ok by (rewrite Ho; apply bound1; lia). reflexivity.
  - intros Hy.
    replace ((0 <=? y)%Z) with false by (symmetry; apply Z.leb_gt; lia).
    replace ((- Z.of_nat n <=? y)%Z && (y <? 0)%Z) with true
      by (symmetry; apply andb_true_iff; split; [apply Z.leb_le | apply Z.ltb_lt]; lia).
    cbn [andb rbind]. rewrite item_ok by (rewrite Ho; apply bound1; lia). reflexivity.
  - intros Hy.
    replace ((0 <=? y)%Z && (y <? Z.of_nat n)%Z) with false
      by (symmetry; apply andb_false_iff;
          destruct Hy; [left; apply Z.leb_gt | right; apply Z.ltb_ge]; lia).
    replace ((- Z.of_nat n <=? y)%Z && (y <? 0)%Z) with false
      by (symmetry; apply andb_false_iff;
          destruct Hy; [left; apply Z.leb_gt | right; apply Z.ltb_ge]; lia).
    reflexivity.
Qed.

Lemma get_row_major (h w c : nat) (d : list F) (i j k : nat) :
  get {| shape := [h; w; c]; data := d |} [i; j; k] = nth ((i * w + j) * c + k) d f0.
Proof. unfold get. cbn [shape data ravel size fold_right]. f_equal. lia. Qed.

(** X17. [preprocess_image] accepts exactly the arrays of
    IMG_HEIGHT * IMG_WIDTH * IMG_CHANNELS elements, whatever their shape, and
    raises the ValueError of [reshape] on the others.  The image it returns
    has the elements of the array in their order: the element (i, j, c) of the
    image is the element of index (i * IMG_WIDTH + j) * IMG_CHANNELS + c of the
    array, and flattening the image gives the flattened array back. *)
Theorem preprocess_image_spec (image_array : ndarray F) :
  (size (shape image_array) <> IMG_HEIGHT * IMG_WIDTH * IMG_CHANNELS ->
   preprocess_image image_array = Err ReshapeError)
  /\ (size (shape image_array) = IMG_HEIGHT * IMG_WIDTH * IMG_CHANNELS ->
      exists im,
        preprocess_image image_array = Ok im
        /\ shape im = [IMG_HEIGHT; IMG_WIDTH; IMG_CHANNELS]
        /\ flatten im = flatten image_array
        /\ forall i j c, i < IMG_HEIGHT -> j < IMG_WIDTH -> c < IMG_CHANNELS ->
             get im [i; j; c]
             = get (flatten image_array) [(i * IMG_WIDTH + j) * IMG_CHANNELS + c]).
Proof.
  assert (Es : size [IMG_HEIGHT; IMG_WIDTH; IMG_CHANNELS]
               = IMG_HEIGHT * IMG_WIDTH * IMG_CHANNELS)
    by (cbn [size fold_right]; lia).
  unfold preprocess_image, reshape. rewrite Es. split.
  - intros Hne.
    destruct (Nat.eqb_spec (IMG_HEIGHT * IMG_WIDTH * IMG_CHANNELS)
                (size (shape image_array))) as [E|_]; [congruence | reflexivity].
  - intros He. rewrite He, Nat.eqb_refl.
    eexists. split; [reflexivity|]. split; [reflexivity|]. split.
    + unfold flatten. cbn [shape data]. rewrite Es, He. reflexivity.
    + intros i j c _ _ _. rewrite get_row_major, get_flatten. reflexivity.
Qed.

End HelpersMore.


(** ** The driver: labels, the initial layers and the loops *)

Lemma py_index_lt n (i : Z) k : py_index n i = Ok k -> k < n.
Proof.
  unfold py_index.
  destruct ((0 <=? i)%Z && (i <? Z.of_nat n)%Z) eqn:E1.
  - apply andb_true_iff in E1. destruct E1 as [H1 H2].
    apply Z.leb_le in H1. apply Z.ltb_lt in H2. intros [= <-]. lia.
  - destruct ((- Z.of_nat n <=? i)%Z && (i <? 0)%Z) eqn:E2; [|discriminate].
    apply andb_true_iff in E2. destruct E2 as [H1 H2].
    apply Z.leb_le in H1. apply Z.ltb_lt in H2. intros [= <-]. lia.
Qed.

Lemma py_index_wrap n (i : Z) :
  (- Z.of_nat n <= i < 0)%Z -> py_index n i = Ok (Z.to_nat (Z.of_nat n + i)).
Proof.
  intros H. unfold py_index.
  replace ((0 <=? i)%Z) with false by (symmetry; apply Z.leb_gt; lia).
  replace ((- Z.of_nat n <=? i)%Z && (i <? 0)%Z) with true; [reflexivity|].
  symmetry. apply andb_true_iff. split; [apply Z.leb_le | apply Z.ltb_lt]; lia.
Qed.

Lemma py_index_out n (i : Z) :
  (i < - Z.of_nat n \/ Z.of_nat n <= i)%Z -> py_index n i = Err IndexError.
Proof.
  intros H. unfold py_index.
  replace ((0 <=? i)%Z && (i <? Z.of_nat n)%Z) with false
    by (symmetry; apply andb_false_iff;
        destruct H; [left; apply Z.leb_gt | right; apply Z.ltb_ge]; lia).
  replace ((- Z.of_nat n <=? i)%Z && (i <? 0)%Z) with false; [reflexivity|].
  symmetry; apply andb_false_iff.
  destruct H; [left; apply Z.leb_gt | right; apply Z.ltb_ge]; lia.
Qed.

Section DriverMore.
Context {F : Type} {SF : Scalar F} {EF : Elementary F}.

Lemma setitem1_at (a : ndarray F) n (i : Z) k (v : F) :
  shape a = [n] -> py_index n i = Ok k ->
  exists r, setitem1 a i v = Ok r /\ shape r = [n] /\
    forall j, j < n -> get r [j] = if j =? k then v else get a [j].
Proof.
  intros Ha Hi. pose proof (py_index_lt n i k Hi) as Hk.
  unfold setitem1. rewrite Ha, Hi. cbn [rbind].
  destruct (setitem_ok a (scalar v) [k] []) as (r & -> & Hrs & Hrg).
  - rewrite Ha. apply bound1, Hk.
  - rewrite Ha. reflexivity.
  - reflexivity.
  - exists r. split; [reflexivity|]. split; [congruence|].
    intros j Hj. rewrite Hrg by (rewrite Ha; apply bound1, Hj). simpl.
    rewrite andb_true_r, Nat.eqb_sym. reflexivity.
Qed.

(** The forward pass of the network, for every label at once: the label
    decides the loss and the accuracy and nothing else. *)
Lemma network_forward_at (net : Network.t F) (im : ndarray F) h w :
  net_wf net h w -> shape im = [h; w; IMG_CHANNELS] ->
  exists cout pout totals out am,
    shape cout = [h - Conv2D.filter_size (Network.conv net) + 1;
                  w - Conv2D.filter_size (Network.conv net) + 1;
                  Conv2D.num_filters (Network.conv net)]
    /\ shape pout = [(h - Conv2D.filter_size (Network.conv net) + 1)
                       / MaxPooling2D.pool_size (Network.pool net);
                     (w - Conv2D.filter_size (Network.conv net) + 1)
                       / MaxPooling2D.pool_size (Network.pool net);
                     Conv2D.num_filters (Network.conv net)]
    /\ softmax totals = Ok out
    /\ shape out = [2]
    /\ forall label,
         Network.forward im label net
         = ({| Network.conv := Conv2D.set_last_input (normalize im) (Network.conv net);
               Network.pool := MaxPooling2D.set_last_input cout (Network.pool net);
               Network.dense :=
                 Dense.set_last_totals totals
                   (Dense.set_last_input (flatten pout)
                      (Dense.set_last_input_shape (shape pout) (Network.dense net))) |},
            match py_index 2 label with
            | Ok k => Ok (out, fneg (flog (get out [k])),
                          if (Z.of_nat am =? label)%Z then 1 else 0)
            | Err e => Err e
            end).
Proof.
  intros (Hc & Hh & Hw & HP & Hd) Him.
  destruct (conv_forward_shape (Network.conv net) (normalize im) h w Hc Him Hh Hw)
    as (cout & Hcf & Hcs).
  destruct (pool_forward_shape (Network.pool net) cout _ _ _ Hcs HP)
    as (pout & Hpf & Hps).
  destruct (dense_forward_ok (Network.dense net) pout _ 2 Hd)
    as (totals & Hdf & Hts & _); [rewrite Hps; reflexivity|].
  destruct (softmax_ok totals 2 Hts) as (m & out & _ & Hso & Hos & _); [lia|].
  assert (Ham : exists am, np_argmax out = Ok am).
  { unfold np_argmax. rewrite (elements_vector out 2 Hos). simpl. eauto. }
  destruct Ham as (am & Ham).
  exists cout, pout, totals, out, am.
  do 4 (split; [assumption|]).
  intros label.
  unfold Network.forward, bind, on, liftR, ret. fold (normalize im).
  rewrite Hcf. simpl. rewrite Hpf. simpl. rewrite Hdf. simpl.
  rewrite Hso. simpl. unfold cross_entropy_loss, getitem1. rewrite Hos.
  destruct (py_index 2 label) as [k|e] eqn:Hk; [|reflexivity].
  cbn [rbind].
  rewrite item_ok by (rewrite Hos; apply bound1, (py_index_lt 2 label k Hk)).
  cbn [rbind]. rewrite Ham. reflexivity.
Qed.

(** A step of training, for every label that Python resolves to the index
    [k] of a class. *)
Lemma network_train_at (net : Network.t F) (im : ndarray F) (lr : F) h w k :
  net_wf net h w -> shape im = [h; w; IMG_CHANNELS] -> k < 2 ->
  exists net' out am,
    net_wf net' h w
    /\ Conv2D.num_filters (Network.conv net') = Conv2D.num_filters (Network.conv net)
    /\ Conv2D.filter_size (Network.conv net') = Conv2D.filter_size (Network.conv net)
    /\ MaxPooling2D.pool_size (Network.pool net')
       = MaxPooling2D.pool_size (Network.pool net)
    /\ forall label, py_index 2 label = Ok k ->
         Network.train im label lr net
         = (net', Ok (fneg (flog (get out [k])),
                      if (Z.of_nat am =? label)%Z then 1 else 0)).
Proof.
  intros Hnet Him Hk.
  destruct (network_forward_at net im h w Hnet Him)
    as (cout & pout & totals & out & am & Hcs & Hps & Hso & Hos & Hfw).
  destruct Hnet as (Hc & Hh & Hw & HP & Hd).
  set (Fs := Conv2D.filter_size (Network.conv net)) in *.
  set (P := MaxPooling2D.pool_size (Network.pool net)) in *.
  set (N := Conv2D.num_filters (Network.conv net)) in *.
  set (zeros := {| shape := [2]; data := repeat (f0 : F) (size [2]) |}).
  set (v := fdiv (fneg f1) (get out [k])).
  assert (Hgrad : exists grad, shape grad = [2] /\
            forall label, py_index 2 label = Ok k -> setitem1 zeros label v = Ok grad).
  { destruct (setitem_ok zeros (scalar v) [k] []) as (r & Hr & Hrs & _).
    - apply bound1, Hk.
    - reflexivity.
    - reflexivity.
    - exists r. split; [exact Hrs|]. intros label Hl.
      unfold setitem1. unfold zeros at 1. cbn [shape]. rewrite Hl. exact Hr. }
  destruct Hgrad as (grad & Hgs & Hgrad).
  destruct (dense_backward_ok
              (Dense.set_last_totals totals
                 (Dense.set_last_input (flatten pout)
                    (Dense.set_last_input_shape (shape pout) (Network.dense net))))
              (flatten pout) grad lr
              (shape pout) (size [(h - Fs + 1) / P; (w - Fs + 1) / P; N]) 2)
    as (W & b & g1 & Hdb & HWs & _ & Hbs & _ & Hg1s & _);
    [exact Hd | reflexivity | simpl; rewrite Hps; reflexivity | reflexivity
    | rewrite Hps; reflexivity | exact Hgs |].
  destruct (pool_backward_ok (MaxPooling2D.set_last_input cout (Network.pool net))
              cout g1 (h - Fs + 1) (w - Fs + 1) N eq_refl Hcs HP)
    as (g2 & Hpb & Hg2s & _); [rewrite Hg1s; exact Hps |].
  destruct (conv_backward_ok (Conv2D.set_last_input (normalize im) (Network.conv net))
              (normalize im) g2 lr h w)
    as (W' & Hcb & HWs' & _); [exact Hc | reflexivity | exact Him | exact Hh | exact Hw
                              | exact Hg2s |].
  eexists _, out, am.
  split; [|split; [|split; [|split]]]; cycle 4.
  - intros label Hl.
    unfold Network.train, bind, on, liftR, ret. rewrite Hfw, Hl.
    change [2%Z] with (map Z.of_nat [2]). rewrite np_zeros_ok.
    unfold getitem1. rewrite Hos, Hl. cbn [rbind].
    rewrite item_ok by (rewrite Hos; apply bound1, Hk).
    fold zeros. fold v. rewrite (Hgrad label Hl).
    cbn [Network.conv Network.pool Network.dense].
    cbn beta iota. rewrite Hdb.
    cbn [Network.set_dense Network.set_pool Network.conv Network.pool Network.dense].
    rewrite Hpb.
    cbn [Network.set_dense Network.set_pool Network.conv Network.pool Network.dense].
    rewrite Hcb. reflexivity.
  - unfold net_wf, conv_wf, dense_wf.
    cbn [Network.set_conv Network.set_dense Network.set_pool
         Network.conv Network.pool Network.dense Conv2D.set_filters
         Conv2D.set_last_input Conv2D.filter_size Conv2D.num_filters Conv2D.filters
         MaxPooling2D.set_last_input MaxPooling2D.pool_size
         Dense.set_biases Dense.set_weights Dense.weights Dense.biases].
    fold Fs P N.
    split; [rewrite HWs'; exact Hc|].
    split; [exact Hh|]. split; [exact Hw|]. split; [exact HP|].
    split; [exact HWs | exact Hbs].
  - reflexivity.
  - reflexivity.
  - reflexivity.
Qed.

(** X18. The label decides the loss and the accuracy that [forward] returns and
    nothing else: with two labels the layers are left in the same state, and
    when both calls return, they return the same probabilities. *)
Theorem forward_label_independent (net : Network.t F) (image : ndarray F)
        (label label' : Z) :
  fst (Network.forward image label net) = fst (Network.forward image label' net)
  /\ forall out loss acc out' loss' acc',
       snd (Network.forward image label net) = Ok (out, loss, acc) ->
       snd (Network.forward image label' net) = Ok (out', loss', acc') ->
       out' = out.
Proof.
  unfold Network.forward, bind, on, liftR, ret.
  destruct (Conv2D.forward _ (Network.conv net)) as [c [cout|e]];
    [|split; [reflexivity | discriminate]].
  cbn [Network.pool Network.set_conv].
  destruct (MaxPooling2D.forward cout (Network.pool net)) as [p [pout|e]];
    [|split; [reflexivity | discriminate]].
  cbn [Network.dense Network.set_conv Network.set_pool].
  destruct (Dense.forward pout (Network.dense net)) as [d [totals|e]];
    [|split; [reflexivity | discriminate]].
  destruct (softmax totals) as [out0|e]; [|split; [reflexivity | discriminate]].
  destruct (cross_entropy_loss out0 label) as [l|e],
           (cross_entropy_loss out0 label') as [l'|e'];
    destruct (np_argmax out0) as [am|e'']; cbn;
    (split; [reflexivity|]);
    intros out loss acc out' loss' acc' H H'; try discriminate.
  congruence.
Qed.

(** X19. [train] on a label that is not an index of the two probabilities, below
    -2 or above 1, raises IndexError, and it is [forward] that raises, where it
    reads the probability of the label.  No learned parameter has changed by
    then; the convolution has retained the normalised image. *)
Theorem train_label_out_of_range (net : Network.t F) (im : ndarray F)
        (label : Z) (lr : F) (h w : nat) :
  net_wf net h w -> shape im = [h; w; IMG_CHANNELS] ->
  (label < -2 \/ 2 <= label)%Z ->
  snd (Network.forward im label net) = Err IndexError
  /\ Network.train im label lr net
     = (fst (Network.forward im label net), Err IndexError)
  /\ Conv2D.filters (Network.conv (fst (Network.train im label lr net)))
     = Conv2D.filters (Network.conv net)
  /\ Dense.weights (Network.dense (fst (Network.train im label lr net)))
     = Dense.weights (Network.dense net)
  /\ Dense.biases (Network.dense (fst (Network.train im label lr net)))
     = Dense.biases (Network.dense net)
  /\ Conv2D.last_input (Network.conv (fst (Network.train im label lr net)))
     = Some (normalize im).
Proof.
  intros Hnet Him Hl.
  destruct (network_forward_at net im h w Hnet Him)
    as (cout & pout & totals & out & am & _ & _ & _ & _ & Hfw).
  specialize (Hfw label). rewrite (py_index_out 2 label) in Hfw by (simpl; lia).
  assert (Ht : Network.train im label lr net
               = (fst (Network.forward im label net), Err IndexError)).
  { unfold Network.train, bind. rewrite Hfw. reflexivity. }
  split; [rewrite Hfw; reflexivity|]. split; [exact Ht|].
  rewrite Ht. cbn [fst]. rewrite Hfw. repeat split.
Qed.

(** X20. [train] on the label -1 or -2 raises nothing: Python indexes the
    probabilities and the gradient from the end, so the loss and the updated
    layers are those of the label 1 or 0; but the prediction never equals a
    negative label, so the step counts as incorrect. *)
Theorem train_negative_label (net : Network.t F) (im : ndarray F)
        (label : Z) (lr : F) (h w : nat) :
  net_wf net h w -> shape im = [h; w; IMG_CHANNELS] ->
  (-2 <= label < 0)%Z ->
  exists net' loss acc,
    Network.train im (label + 2) lr net = (net', Ok (loss, acc))
    /\ Network.train im label lr net = (net', Ok (loss, 0)).
Proof.
  intros Hnet Him Hl.
  destruct (network_train_at net im lr h w (Z.to_nat (2 + label)) Hnet Him)
    as (net' & out & am & _ & _ & _ & _ & Htrain); [lia|].
  exists net'. do 2 eexists. split.
  - apply Htrain. rewrite py_index_ok by (simpl; lia). f_equal. f_equal. lia.
  - rewrite (Htrain label) by (apply (py_index_wrap 2); simpl; lia).
    replace (Z.of_nat am =? label)%Z with false
      by (symmetry; apply Z.eqb_neq; lia).
    reflexivity.
Qed.

(** X21. The layers that the notebook initialises fit the images that
    [preprocess_image] returns: the input length of the dense layer,
    (IMG_HEIGHT - 2) // 2 * (IMG_WIDTH - 2) // 2 * 8, is the number of elements
    of the pooled tensor.  So on an array of
    IMG_HEIGHT * IMG_WIDTH * IMG_CHANNELS elements and a label that is 0 or 1,
    whatever the random draws and the learning rate, [preprocess_image] and then
    [train] raise nothing, and the layers still fit such images after the
    step. *)
Theorem initial_layers_fit_images (randn_filters randn_weights : list F)
        (image_array : ndarray F) (label : Z) (lr : F) :
  size (shape image_array) = IMG_HEIGHT * IMG_WIDTH * IMG_CHANNELS ->
  (0 <= label < 2)%Z ->
  net_wf (Network.init randn_filters randn_weights) IMG_HEIGHT IMG_WIDTH
  /\ exists im net' loss acc,
       preprocess_image image_array = Ok im
       /\ Network.train im label lr (Network.init randn_filters randn_weights)
          = (net', Ok (loss, acc))
       /\ net_wf net' IMG_HEIGHT IMG_WIDTH.
Proof.
  intros Hsize Hl.
  assert (Hnet : net_wf (Network.init randn_filters randn_weights)
                        IMG_HEIGHT IMG_WIDTH).
  { unfold net_wf, Network.init.
    cbn [Network.conv Network.pool Network.dense Conv2D.init Conv2D.filter_size
         Conv2D.num_filters MaxPooling2D.init MaxPooling2D.pool_size].
    split; [reflexivity|].
    split; [unfold IMG_HEIGHT; lia|]. split; [unfold IMG_WIDTH; lia|].
    split; [lia|].
    split; [|reflexivity].
    cbn [Dense.init Dense.weights shape]. vm_compute. reflexivity. }
  split; [exact Hnet|].
  assert (Es : size [IMG_HEIGHT; IMG_WIDTH; IMG_CHANNELS]
               = IMG_HEIGHT * IMG_WIDTH * IMG_CHANNELS)
    by (cbn [size fold_right]; lia).
  exists {| shape := [IMG_HEIGHT; IMG_WIDTH; IMG_CHANNELS]; data := data image_array |}.
  destruct (network_train_at (Network.init randn_filters randn_weights)
              {| shape := [IMG_HEIGHT; IMG_WIDTH; IMG_CHANNELS];
                 data := data image_array |}
              lr IMG_HEIGHT IMG_WIDTH (Z.to_nat label) Hnet eq_refl)
    as (net' & out & am & Hwf & _ & _ & _ & Htrain); [lia|].
  exists net'. do 2 eexists. split; [|split; [|exact Hwf]].
  - unfold preprocess_image, reshape. rewrite Es, Hsize, Nat.eqb_refl. reflexivity.
  - apply Htrain. apply py_index_ok. simpl. lia.
Qed.

(** X22. One epoch of the training loop.  When the layers fit images of H rows
    and W columns, every image has that shape and every label is 0 or 1, the
    loop raises nothing: every step leaves layers that fit the images still,
    with the same number and size of filters and the same pool size.  The
    number of correct predictions it counts is at most the number of samples,
    which is the length of the shorter of the two lists. *)
Theorem train_epoch_ok (net : Network.t F) (X_train : list (ndarray F))
        (Y_train : list Z) (lr : F) (h w : nat) :
  net_wf net h w ->
  Forall (fun im => shape im = [h; w; IMG_CHANNELS]) X_train ->
  Forall (fun y => (0 <= y < 2)%Z) Y_train ->
  exists net' loss num_correct,
    Network.train_epoch X_train Y_train lr net = (net', Ok (loss, num_correct))
    /\ net_wf net' h w
    /\ Conv2D.num_filters (Network.conv net') = Conv2D.num_filters (Network.conv net)
    /\ Conv2D.filter_size (Network.conv net') = Conv2D.filter_size (Network.conv net)
    /\ MaxPooling2D.pool_size (Network.pool net')
       = MaxPooling2D.pool_size (Network.pool net)
    /\ num_correct <= Nat.min (length X_train) (length Y_train).
Proof.
  intros Hnet HX HY. unfold Network.train_epoch.
  rewrite <- length_combine.
  assert (Hs : forall im y, In (im, y) (combine X_train Y_train) ->
                 shape im = [h; w; IMG_CHANNELS] /\ (0 <= y < 2)%Z).
  { intros im y Hin. split.
    - apply in_combine_l in Hin. rewrite Forall_forall in HX. apply HX, Hin.
    - apply in_combine_r in Hin. rewrite Forall_forall in HY. apply HY, Hin. }
  clear HX HY. revert Hs. generalize (combine X_train Y_train) as samples.
  intros samples Hs.
  enough (G : forall (loss0 : F) n0,
             exists net' loss n,
               Network.train_loop samples lr loss0 n0 net = (net', Ok (loss, n))
               /\ net_wf net' h w
               /\ Conv2D.num_filters (Network.conv net')
                  = Conv2D.num_filters (Network.conv net)
               /\ Conv2D.filter_size (Network.conv net')
                  = Conv2D.filter_size (Network.conv net)
               /\ MaxPooling2D.pool_size (Network.pool net')
                  = MaxPooling2D.pool_size (Network.pool net)
               /\ n <= n0 + length samples).
  { destruct (G f0 0) as (net' & loss & n & H). exists net', loss, n. exact H. }
  revert net Hnet.
  induction samples as [|[im y] rest IH]; intros net Hnet loss0 n0.
  - exists net, loss0, n0. simpl.
    split; [reflexivity|]. split; [exact Hnet|]. do 3 (split; [reflexivity|]). lia.
  - destruct (Hs im y (or_introl eq_refl)) as [Him Hy].
    destruct (network_train_at net im lr h w (Z.to_nat y) Hnet Him)
      as (net1 & out & am & Hwf1 & E1 & E2 & E3 & Htrain); [lia|].
    specialize (Htrain y (py_index_ok 2 y ltac:(simpl; lia))).
    destruct (IH (fun im' y' Hin => Hs im' y' (or_intror Hin)) net1 Hwf1
                 (fadd loss0 (fneg (flog (get out [Z.to_nat y]))))
                 (n0 + (if (Z.of_nat am =? y)%Z then 1 else 0)))
      as (net' & loss & n & Hloop & Hwf' & E1' & E2' & E3' & Hn).
    exists net', loss, n.
    split.
    { cbn [Network.train_loop]. unfold bind. rewrite Htrain. exact Hloop. }
    split; [exact Hwf'|].
    split; [congruence|]. split; [congruence|]. split; [congruence|].
    simpl length. destruct (Z.of_nat am =? y)%Z; lia.
Qed.

(** X23. The evaluation on the test data never changes a learned parameter: the
    filters, the weights and the biases after the loop are those of before it,
    whatever the data, also when an exception ends the loop. *)
Theorem evaluate_preserves_parameters (net : Network.t F)
        (X_test : list (ndarray F)) (Y_test : list Z) :
  Conv2D.filters (Network.conv (fst (Network.evaluate X_test Y_test net)))
  = Conv2D.filters (Network.conv net)
  /\ Dense.weights (Network.dense (fst (Network.evaluate X_test Y_test net)))
     = Dense.weights (Network.dense net)
  /\ Dense.biases (Network.dense (fst (Network.evaluate X_test Y_test net)))
     = Dense.biases (Network.dense net).
Proof.
  unfold Network.evaluate.
  generalize (combine X_test Y_test) as samples. generalize (f0 : F) as loss0.
  generalize 0 as n0. intros n0 loss0 samples. revert n0 loss0 net.
  induction samples as [|[im y] rest IH]; intros n0 loss0 net.
  - repeat split.
  - cbn [Network.test_loop]. unfold bind.
    pose proof (network_forward_params im y net) as (Hf & Hw & Hb).
    destruct (Network.forward im y net) as [net1 [[[out l] acc]|e]];
      cbn [fst] in Hf, Hw, Hb.
    + destruct (IH (n0 + acc) (fadd loss0 l) net1) as (Hf' & Hw' & Hb').
      repeat split; congruence.
    + cbn [fst]. repeat split; assumption.
Qed.

(** X24. When the layers fit images of H rows and W columns, every test image
    has that shape and every label is 0 or 1, the evaluation raises nothing,
    and the number of correct predictions it counts is at most the number of
    samples, the length of the shorter of the two lists. *)
Theorem evaluate_ok (net : Network.t F) (X_test : list (ndarray F))
        (Y_test : list Z) (h w : nat) :
  net_wf net h w ->
  Forall (fun im => shape im = [h; w; IMG_CHANNELS]) X_test ->
  Forall (fun y => (0 <= y < 2)%Z) Y_test ->
  exists net' test_loss test_correct,
    Network.evaluate X_test Y_test net = (net', Ok (test_loss, test_correct))
    /\ test_correct <= Nat.min (length X_test) (length Y_test).
Proof.
  intros Hnet HX HY. unfold Network.evaluate.
  rewrite <- length_combine.
  assert (Hs : forall im y, In (im, y) (combine X_test Y_test) ->
                 shape im = [h; w; IMG_CHANNELS] /\ (0 <= y < 2)%Z).
  { intros im y Hin. split.
    - apply in_combine_l in Hin. rewrite Forall_forall in HX. apply HX, Hin.
    - apply in_combine_r in Hin. rewrite Forall_forall in HY. apply HY, Hin. }
  clear HX HY. revert Hs. generalize (combine X_test Y_test) as samples.
  intros samples Hs.
  enough (G : forall (loss0 : F) n0,
             exists net' loss n,
               Network.test_loop samples loss0 n0 net = (net', Ok (loss, n))
               /\ n <= n0 + length samples).
  { destruct (G f0 0) as (net' & loss & n & H). exists net', loss, n. exact H. }
  revert net Hnet.
  induction samples as [|[im y] rest IH]; intros net Hnet loss0 n0.
  - exists net, loss0, n0. simpl. split; [reflexivity | lia].
  - destruct (Hs im y (or_introl eq_refl)) as [Him Hy].
    destruct (network_forward_at net im h w Hnet Him)
      as (cout & pout & totals & out & am & _ & _ & _ & _ & Hfw).
    specialize (Hfw y). rewrite (py_index_ok 2 y) in Hfw by (simpl; lia).
    match type of Hfw with _ = (?s, _) => set (net1 := s) in * end.
    assert (Hwf1 : net_wf net1 h w) by exact Hnet.
    destruct (IH (fun im' y' Hin => Hs im' y' (or_intror Hin)) net1 Hwf1
                 (fadd loss0 (fneg (flog (get out [Z.to_nat y]))))
                 (n0 + (if (Z.of_nat am =? y)%Z then 1 else 0)))
      as (net' & loss & n & Hloop & Hn).
    exists net', loss, n. split.
    { cbn [Network.test_loop]. unfold bind. rewrite Hfw. exact Hloop. }
    simpl length. destruct (Z.of_nat am =? y)%Z; lia.
Qed.

End DriverMore.


(** * The layers on sample inputs *)

Import Sample.

(** A 4 x 4 image of ones under a 2 x 2 filter of ones: every output is the
    number of weights of the filter, 12 for the three channels. *)
Example conv_ones :
  snd (Conv2D.forward (ones [4; 4; 3]) conv2)
  = Ok {| shape := [3; 3; 1]; data := repeat 12%Z 9 |}.
Proof. reflexivity. Qed.

Example conv_iota :
  snd (Conv2D.forward (iota [3; 3; 3]) conv2)
  = Ok {| shape := [2; 2; 1]; data := [84; 120; 192; 228]%Z |}.
Proof. reflexivity. Qed.

(** A single channel is broadcast against the three channels of the filter. *)
Example conv_one_channel :
  snd (Conv2D.forward (ones [4; 4; 1]) conv2)
  = Ok {| shape := [3; 3; 1]; data := repeat 12%Z 9 |}.
Proof. reflexivity. Qed.

Example conv_two_channels :
  snd (Conv2D.forward (ones [4; 4; 2]) conv2) = Err BroadcastError.
Proof. reflexivity. Qed.

(** A 5 x 5 input with pool size 2 gives a 2 x 2 output; the last row and
    the last column are dropped. *)
Example pool_5x5 :
  snd (MaxPooling2D.forward (iota [5; 5; 1]) pool2)
  = Ok {| shape := [2; 2; 1]; data := [6; 8; 16; 18]%Z |}.
Proof. reflexivity. Qed.

Example pool_zero_size :
  snd (MaxPooling2D.forward (iota [5; 5; 1]) (MaxPooling2D.init 0))
  = Err ZeroDivisionError.
Proof. reflexivity. Qed.

(** A unique maximum in each window receives the gradient alone. *)
Example pool_backward_unique :
  snd (MaxPooling2D.backward (iota [2; 2; 1])
         (fst (MaxPooling2D.forward (iota [5; 5; 1]) pool2)))
  = Ok {| shape := [5; 5; 1];
          data := [0; 0; 0; 0; 0;
                   0; 0; 0; 1; 0;
                   0; 0; 0; 0; 0;
                   0; 2; 0; 3; 0;
                   0; 0; 0; 0; 0]%Z |}.
Proof. reflexivity. Qed.

(** Tied maxima each receive the gradient of their window. *)
Example pool_backward_ties :
  snd (MaxPooling2D.backward (iota [2; 2; 1])
         (fst (MaxPooling2D.forward (ones [5; 5; 1]) pool2)))
  = Ok {| shape := [5; 5; 1];
          data := [0; 0; 1; 1; 0;
                   0; 0; 1; 1; 0;
                   2; 2; 3; 3; 0;
                   2; 2; 3; 3; 0;
                   0; 0; 0; 0; 0]%Z |}.
Proof. reflexivity. Qed.

Example dense_forward_iota :
  snd (Dense.forward (iota [2; 2; 1]) dense42)
  = Ok {| shape := [2]; data := [29; 35]%Z |}.
Proof. reflexivity. Qed.

Example dense_backward_iota :
  let d := fst (Dense.forward (iota [2; 2; 1]) dense42) in
  let r := Dense.backward (iota [2]) 1%Z d in
  Dense.weights (fst r) = {| shape := [4; 2]; data := [0; 1; 2; 2; 4; 3; 6; 4]%Z |}
  /\ Dense.biases (fst r) = {| shape := [2]; data := [1; 0]%Z |}
  /\ snd r = Ok {| shape := [2; 2; 1]; data := [1; 3; 5; 7]%Z |}.
Proof. repeat split. Qed.

(** * The theorems at sample inputs *)

(** Each theorem above that has hypotheses is applied here to one of the
    sample inputs, which shows its hypotheses can be met. *)

(** [conv_forward_spec] with one 2 x 2 filter of ones: on the 3 x 3 image
    0, 1, 2, ... of three channels, on the one of a single channel, and on
    an image of two channels. *)
Lemma conv_forward_spec_witness :
  conv_wf conv2 /\ Conv2D.filter_size conv2 <= 3
  /\ shape (iota [3; 3; 3]) = [3; 3; IMG_CHANNELS]
  /\ (exists out,
        Conv2D.forward (iota [3; 3; 3]) conv2
        = (Conv2D.set_last_input (iota [3; 3; 3]) conv2, Ok out)
        /\ shape out = [2; 2; 1]
        /\ get out [0; 0; 0] = 84%Z /\ get out [1; 1; 0] = 228%Z
        /\ get out [1; 1; 0] = cross_correlation conv2 (iota [3; 3; 3]) 3 1 1 0)
  /\ shape (iota [3; 3; 1]) = [3; 3; 1]
  /\ (exists out,
        Conv2D.forward (iota [3; 3; 1]) conv2
        = (Conv2D.set_last_input (iota [3; 3; 1]) conv2, Ok out)
        /\ shape out = [2; 2; 1]
        /\ get out [0; 0; 0] = 24%Z /\ get out [1; 1; 0] = 72%Z)
  /\ shape (ones [4; 4; 2]) = [4; 4; 2]
  /\ Conv2D.forward (ones [4; 4; 2]) conv2
     = (Conv2D.set_last_input (ones [4; 4; 2]) conv2, Err BroadcastError).
Proof.
  split; [reflexivity|]. split; [simpl; lia|]. split; [reflexivity|].
  split.
  { destruct (conv_forward_spec conv2 (iota [3; 3; 3]) 3 3 3) as (H3 & _ & _);
      [reflexivity | reflexivity | simpl; lia | simpl; lia |].
    destruct (H3 eq_refl) as (out & Hf & Hs & Hv).
    exists out. split; [exact Hf|]. split; [exact Hs|].
    destruct (Hv 0 0 0) as [E0 _]; [simpl; lia | simpl; lia | simpl; lia |].
    destruct (Hv 1 1 0) as [E1 Hz]; [simpl; lia | simpl; lia | simpl; lia |].
    split; [rewrite E0; reflexivity|]. split; [rewrite E1; reflexivity|].
    apply Hz. intros x. reflexivity. }
  split; [reflexivity|]. split.
  { destruct (conv_forward_spec conv2 (iota [3; 3; 1]) 3 3 1) as (_ & H1 & _);
      [reflexivity | reflexivity | simpl; lia | simpl; lia |].
    destruct (H1 eq_refl) as (out & Hf & Hs & Hv).
    exists out. split; [exact Hf|]. split; [exact Hs|].
    split; [rewrite (Hv 0 0 0) | rewrite (Hv 1 1 0)];
      first [reflexivity | simpl; lia]. }
  split; [reflexivity|].
  destruct (conv_forward_spec conv2 (ones [4; 4; 2]) 4 4 2) as (_ & _ & H2);
    [reflexivity | reflexivity | simpl; lia | simpl; lia |].
  apply H2; discriminate.
Defined.

(** [conv_backward_spec] after that forward pass, on a gradient of ones. *)
Lemma conv_backward_spec_witness :
  conv_wf conv2 /\ shape (ones [4; 4; 3]) = [4; 4; IMG_CHANNELS]
  /\ Conv2D.filter_size conv2 <= 4
  /\ Conv2D.forward (ones [4; 4; 3]) conv2
     = (Conv2D.set_last_input (ones [4; 4; 3]) conv2,
        Ok {| shape := [3; 3; 1]; data := repeat 12%Z 9 |})
  /\ shape (ones [3; 3; 1]) = [3; 3; 1]
  /\ exists W,
       Conv2D.backward (ones [3; 3; 1]) 1%Z
         (Conv2D.set_last_input (ones [4; 4; 3]) conv2)
       = (Conv2D.set_filters W (Conv2D.set_last_input (ones [4; 4; 3]) conv2), Ok tt)
       /\ shape W = [1; 2; 2; 3].
Proof.
  split; [reflexivity|]. split; [reflexivity|]. split; [simpl; lia|].
  split; [reflexivity|]. split; [reflexivity|].
  destruct (conv_backward_spec conv2 (Conv2D.set_last_input (ones [4; 4; 3]) conv2)
              (ones [4; 4; 3]) {| shape := [3; 3; 1]; data := repeat 12%Z 9 |}
              (ones [3; 3; 1]) 1%Z 4 4)
    as (W & Hb & Hs & _);
    [reflexivity | reflexivity | simpl; lia | simpl; lia | reflexivity | reflexivity |].
  exists W. split; [exact Hb | exact Hs].
Defined.

(** [pool_forward_spec] on the integers, with a 5 x 5 input and pool size 2. *)
Lemma pool_forward_spec_witness :
  shape (iota [5; 5; 1]) = [5; 5; 1]
  /\ 0 < MaxPooling2D.pool_size pool2
  /\ exists out,
       MaxPooling2D.forward (iota [5; 5; 1]) pool2
       = (MaxPooling2D.set_last_input (iota [5; 5; 1]) pool2, Ok out)
       /\ shape out = [2; 2; 1]
       /\ fle (get (iota [5; 5; 1]) [3; 2; 0]) (get out [1; 1; 0]).
Proof.
  split; [reflexivity|]. split; [simpl; lia|].
  destruct (pool_forward_spec pool2 (iota [5; 5; 1]) 5 5 1)
    as (out & Hf & Hs & Hv); [reflexivity | simpl; lia |].
  exists out. split; [exact Hf|]. split; [exact Hs|].
  destruct (Hv 1 1 0) as [_ Hmax]; [simpl; lia | simpl; lia | lia |].
  destruct Hmax as [_ Hub]; [constructor; intros; simpl; lia|].
  apply (Hub 1 0); simpl; lia.
Defined.

(** [pool_backward_spec] after that forward pass, where every window has one
    maximum, and after a forward pass on an input of ones, where the four
    positions of a window tie. *)
Lemma pool_backward_spec_witness :
  shape (iota [5; 5; 1]) = [5; 5; 1]
  /\ MaxPooling2D.forward (iota [5; 5; 1]) pool2
     = (MaxPooling2D.set_last_input (iota [5; 5; 1]) pool2,
        Ok {| shape := [2; 2; 1]; data := [6; 8; 16; 18]%Z |})
  /\ shape (iota [2; 2; 1]) = [2; 2; 1]
  /\ (exists g,
        MaxPooling2D.backward (iota [2; 2; 1])
          (MaxPooling2D.set_last_input (iota [5; 5; 1]) pool2)
        = (MaxPooling2D.set_last_input (iota [5; 5; 1]) pool2, Ok g)
        /\ shape g = [5; 5; 1]
        /\ get g [3; 3; 0] = 3%Z /\ get g [1; 3; 0] = 1%Z
        /\ get g [2; 2; 0] = 0%Z /\ get g [3; 2; 0] = 0%Z
        /\ get g [4; 4; 0] = 0%Z)
  /\ MaxPooling2D.forward (ones [5; 5; 1]) pool2
     = (MaxPooling2D.set_last_input (ones [5; 5; 1]) pool2,
        Ok {| shape := [2; 2; 1]; data := [1; 1; 1; 1]%Z |})
  /\ (exists g,
        MaxPooling2D.backward (iota [2; 2; 1])
          (MaxPooling2D.set_last_input (ones [5; 5; 1]) pool2)
        = (MaxPooling2D.set_last_input (ones [5; 5; 1]) pool2, Ok g)
        /\ get g [2; 2; 0] = 3%Z /\ get g [2; 3; 0] = 3%Z
        /\ get g [3; 2; 0] = 3%Z /\ get g [3; 3; 0] = 3%Z
        /\ get g [0; 4; 0] = 0%Z).
Proof.
  assert (laws : MaxLaws Z) by (constructor; intros; simpl; lia).
  assert (Heq : forall x y : Z, feqb x y = true <-> x = y) by (intros; apply Z.eqb_eq).
  split; [reflexivity|]. split; [reflexivity|]. split; [reflexivity|].
  split.
  { destruct (pool_backward_spec pool2 (MaxPooling2D.set_last_input (iota [5; 5; 1]) pool2)
                (iota [5; 5; 1]) {| shape := [2; 2; 1]; data := [6; 8; 16; 18]%Z |}
                (iota [2; 2; 1]) 5 5 1)
      as (g & Hb & Hs & _ & Hl); [reflexivity | reflexivity | reflexivity |].
    destruct (Hl laws Heq) as (_ & Hmax & Hzero & _).
    exists g. split; [exact Hb|]. split; [exact Hs|].
    split; [|split; [|split; [|split]]].
    - rewrite (Hmax 3 3 0); [reflexivity | simpl; lia | simpl; lia | lia |].
      intros a b Ha Hb'. change (a < 2) in Ha. change (b < 2) in Hb'.
      destruct a as [|[|a]], b as [|[|b]]; try lia; reflexivity.
    - rewrite (Hmax 1 3 0); [reflexivity | simpl; lia | simpl; lia | lia |].
      intros a b Ha Hb'. change (a < 2) in Ha. change (b < 2) in Hb'.
      destruct a as [|[|a]], b as [|[|b]]; try lia; reflexivity.
    - apply Hzero; [lia | lia | lia |]. right; right. intros Hat.
      specialize (Hat 1 1 (le_n 2) (le_n 2)). discriminate Hat.
    - apply Hzero; [lia | lia | lia |]. right; right. intros Hat.
      specialize (Hat 1 1 (le_n 2) (le_n 2)). discriminate Hat.
    - apply Hzero; [lia | lia | lia |]. left. simpl. lia. }
  split; [reflexivity|].
  destruct (pool_backward_spec pool2 (MaxPooling2D.set_last_input (ones [5; 5; 1]) pool2)
              (ones [5; 5; 1]) {| shape := [2; 2; 1]; data := [1; 1; 1; 1]%Z |}
              (iota [2; 2; 1]) 5 5 1)
    as (g & Hb & _ & _ & Hl); [reflexivity | reflexivity | reflexivity |].
  destruct (Hl laws Heq) as (_ & Hmax & Hzero & _).
  assert (Hat : forall r c, r < 4 -> c < 4 -> attains_max (ones [5; 5; 1]) 2 r c 0).
  { intros r c Hr Hc a b Ha Hb'. change (a < 2) in Ha. change (b < 2) in Hb'.
    destruct r as [|[|[|[|r]]]], c as [|[|[|[|c]]]],
             a as [|[|a]], b as [|[|b]]; try lia; reflexivity. }
  exists g. split; [exact Hb|].
  split; [|split; [|split; [|split]]].
  - rewrite (Hmax 2 2 0); [reflexivity | simpl; lia | simpl; lia | lia | apply Hat; lia].
  - rewrite (Hmax 2 3 0); [reflexivity | simpl; lia | simpl; lia | lia | apply Hat; lia].
  - rewrite (Hmax 3 2 0); [reflexivity | simpl; lia | simpl; lia | lia | apply Hat; lia].
  - rewrite (Hmax 3 3 0); [reflexivity | simpl; lia | simpl; lia | lia | apply Hat; lia].
  - apply Hzero; [lia | lia | lia |]. right; left. simpl. lia.
Defined.

(** [dense_backward_spec] on a layer of four inputs and two classes. *)
Lemma dense_backward_spec_witness :
  dense_wf dense42 4 2 /\ size (shape (iota [2; 2; 1])) = 4
  /\ Dense.forward (iota [2; 2; 1]) dense42
     = (Dense.set_last_totals {| shape := [2]; data := [29; 35]%Z |}
          (Dense.set_last_input (flatten (iota [2; 2; 1]))
             (Dense.set_last_input_shape [2; 2; 1] dense42)),
        Ok {| shape := [2]; data := [29; 35]%Z |})
  /\ shape (iota [2]) = [2]
  /\ exists W b g,
       Dense.backward (iota [2]) 1%Z
         (Dense.set_last_totals {| shape := [2]; data := [29; 35]%Z |}
            (Dense.set_last_input (flatten (iota [2; 2; 1]))
               (Dense.set_last_input_shape [2; 2; 1] dense42)))
       = (Dense.set_biases b
            (Dense.set_weights W
               (Dense.set_last_totals {| shape := [2]; data := [29; 35]%Z |}
                  (Dense.set_last_input (flatten (iota [2; 2; 1]))
                     (Dense.set_last_input_shape [2; 2; 1] dense42)))), Ok g)
       /\ shape W = [4; 2] /\ shape b = [2] /\ shape g = [2; 2; 1].
Proof.
  split; [split; reflexivity|].
  split; [reflexivity|]. split; [reflexivity|]. split; [reflexivity|].
  destruct (dense_backward_spec dense42
              (Dense.set_last_totals {| shape := [2]; data := [29; 35]%Z |}
                 (Dense.set_last_input (flatten (iota [2; 2; 1]))
                    (Dense.set_last_input_shape [2; 2; 1] dense42)))
              (iota [2; 2; 1]) {| shape := [2]; data := [29; 35]%Z |}
              (iota [2]) 1%Z 4 2)
    as (W & b & g & Hb & HW & _ & Hbs & _ & _ & Hg & _);
    [split; reflexivity | reflexivity | reflexivity | reflexivity |].
  exists W, b, g. repeat split; assumption.
Defined.

(** [train_spec] on the real numbers, with the network for one-pixel images. *)
Lemma train_spec_witness :
  net_wf net1 1 1 /\ shape pixel = [1; 1; IMG_CHANNELS] /\ (0 <= 0 < 2)%Z
  /\ exists net' loss acc,
       Network.train pixel 0%Z 1%R net1 = (net', Ok (loss, acc)).
Proof.
  assert (Hnet : net_wf net1 1 1).
  { unfold net_wf. simpl.
    split; [reflexivity|]. split; [lia|]. split; [lia|]. split; [lia|].
    split; reflexivity. }
  split; [exact Hnet|]. split; [reflexivity|]. split; [lia|].
  destruct (train_spec net1 pixel 0%Z 1%R 1 1 Hnet)
    as (n1 & out & loss & acc & grad & d1 & g1 & p1 & g2 & c1 & _ & _ & _ & _ & _ & _ & _ & Ht);
    [reflexivity | lia |].
  eexists _, loss, acc. exact Ht.
Defined.

(** [forward_raises_spec] on an image of two channels, which the convolution
    and the dense layer of four inputs both reject. *)
Lemma forward_raises_spec_witness :
  conv_wf conv2 /\ dense_wf dense42 4 2
  /\ (raises (Conv2D.forward (ones [4; 4; 2])) conv2
      <-> conv_rejects conv2 [4; 4; 2])
  /\ (raises (Dense.forward (ones [4; 4; 2])) dense42
      <-> size (shape (ones [4; 4; 2])) <> 4).
Proof.
  split; [reflexivity|]. split; [split; reflexivity|].
  destruct (forward_raises_spec conv2 pool2 dense42 (ones [4; 4; 2]) 4 2)
    as (Hc & _ & Hd & _); [reflexivity | split; reflexivity |].
  split; [exact Hc | exact Hd].
Defined.

(** [conv_forward_oversize] with a 3 x 3 filter on a 2 x 2 image. *)
Lemma conv_forward_oversize_witness :
  shape (ones [2; 2; 3]) = [2; 2; 3]
  /\ (2 < Conv2D.filter_size conv3 \/ 2 < Conv2D.filter_size conv3)
  /\ exists out,
       snd (Conv2D.forward (ones [2; 2; 3]) conv3) = Ok out
       /\ shape out = [0; 0; 1] /\ size (shape out) = 0 /\ data out = [].
Proof.
  split; [reflexivity|]. split; [left; simpl; lia|].
  destruct (conv_forward_oversize conv3 (ones [2; 2; 3]) 2 2 3) as [Hempty _];
    [reflexivity | left; simpl; lia |].
  apply Hempty; simpl; lia.
Defined.

(** [softmax_real_spec] on two scores, with the constant 3. *)
Lemma softmax_real_spec_witness :
  shape scores = [2] /\ 0 < 2
  /\ exists out out',
       softmax scores = Ok out /\ shape out = [2]
       /\ Rplus (get out [0]) (get out [1]) = 1%R
       /\ softmax (np_map (fun v => (v + 3)%R) scores) = Ok out'
       /\ get out' [0] = get out [0] /\ get out' [1] = get out [1].
Proof.
  split; [reflexivity|]. split; [lia|].
  destruct (softmax_real_spec scores 3%R 2 eq_refl) as [_ Hpos].
  destruct Hpos as (out & out' & Hs & Ho & Hsum & Hs' & _ & Hg); [lia|].
  exists out, out'. split; [exact Hs|]. split; [exact Ho|].
  split; [cbn [fold_left map seq] in Hsum; lra|].
  split; [exact Hs'|]. split; apply Hg; lia.
Defined.
(** ** The further properties on sample inputs *)

(** The corners of the windows, in the order [iterate_regions] yields them. *)
Example conv_regions_order :
  match Conv2D.iterate_regions conv2 (ones [3; 4; 3]) with
  | Ok regions => map (fun r => (snd (fst r), snd r)) regions
  | Err _ => []
  end
  = [(0, 0); (0, 1); (0, 2); (1, 0); (1, 1); (1, 2)].
Proof. reflexivity. Qed.

(** After a forward pass with an output of shape (3, 3, 1): a gradient of
    shape (2, 3, 1) is too small, one of shape (4, 5, 2) is accepted and gives
    the update of its restriction to the shape of the output. *)
Example conv_backward_small_gradient :
  snd (Conv2D.backward (ones [2; 3; 1]) 1%Z
         (fst (Conv2D.forward (ones [4; 4; 3]) conv2)))
  = Err IndexError.
Proof. reflexivity. Qed.

Example conv_backward_large_gradient :
  Conv2D.backward (ones [4; 5; 2]) 1%Z (fst (Conv2D.forward (ones [4; 4; 3]) conv2))
  = Conv2D.backward (ones [3; 3; 1]) 1%Z (fst (Conv2D.forward (ones [4; 4; 3]) conv2))
  /\ Conv2D.filters
       (fst (Conv2D.backward (ones [4; 5; 2]) 1%Z
               (fst (Conv2D.forward (ones [4; 4; 3]) conv2))))
     = {| shape := [1; 2; 2; 3]; data := repeat (-8)%Z 12 |}.
Proof. split; reflexivity. Qed.

(** Pool size one: the input comes back. *)
Example pool_one :
  snd (MaxPooling2D.forward (iota [2; 3; 2]) (MaxPooling2D.init 1))
  = Ok (iota [2; 3; 2]).
Proof. reflexivity. Qed.

(** Pool size 2 on an input of one row: no window, no element, no error. *)
Example pool_one_row :
  snd (MaxPooling2D.forward (iota [1; 5; 1]) pool2)
  = Ok {| shape := [0; 2; 1]; data := [] |}.
Proof. reflexivity. Qed.

(** A backward pass before any forward pass. *)
Example conv_backward_first :
  Conv2D.backward (ones [3; 3; 1]) 1%Z conv2 = (conv2, Err AttributeError).
Proof. reflexivity. Qed.

(** A gradient of three numbers for two classes. *)
Example dense_backward_three :
  let d := fst (Dense.forward (iota [2; 2; 1]) dense42) in
  Dense.backward (iota [3]) 1%Z d = (d, Err DotShapeError).
Proof. reflexivity. Qed.

(** ** The further theorems at sample inputs *)

(** [conv_iterate_regions_spec]: the nine windows of a 4 x 4 image under a
    2 x 2 filter. *)
Lemma conv_iterate_regions_spec_witness :
  shape (ones [4; 4; 3]) = [4; 4; 3]
  /\ exists regions,
       Conv2D.iterate_regions conv2 (ones [4; 4; 3]) = Ok regions
       /\ length regions = 9.
Proof.
  split; [reflexivity|].
  destruct (proj2 (conv_iterate_regions_spec conv2 (ones [4; 4; 3])) 4 4 3 eq_refl)
    as (regions & Hr & Hl & _).
  exists regions. split; [exact Hr | exact Hl].
Defined.

(** [conv_backward_gradient_shape]: after a forward pass with an output of
    shape (3, 3, 1), a gradient of shape (2, 3, 1) is too small. *)
Lemma conv_backward_gradient_shape_witness :
  conv_wf conv2 /\ shape (ones [4; 4; 3]) = [4; 4; IMG_CHANNELS]
  /\ Conv2D.filter_size conv2 <= 4 /\ 0 < Conv2D.num_filters conv2
  /\ Conv2D.forward (ones [4; 4; 3]) conv2
     = (Conv2D.set_last_input (ones [4; 4; 3]) conv2,
        Ok {| shape := [3; 3; 1]; data := repeat 12%Z 9 |})
  /\ shape (ones [2; 3; 1]) = [2; 3; 1]
  /\ Conv2D.backward (ones [2; 3; 1]) 1%Z
       (Conv2D.set_last_input (ones [4; 4; 3]) conv2)
     = (Conv2D.set_last_input (ones [4; 4; 3]) conv2, Err IndexError).
Proof.
  split; [reflexivity|]. split; [reflexivity|]. split; [simpl; lia|].
  split; [simpl; lia|]. split; [reflexivity|]. split; [reflexivity|].
  destruct (conv_backward_gradient_shape conv2
              (Conv2D.set_last_input (ones [4; 4; 3]) conv2) (ones [4; 4; 3])
              {| shape := [3; 3; 1]; data := repeat 12%Z 9 |} (ones [2; 3; 1])
              1%Z 4 4 2 3 1) as [_ Hsmall];
    [reflexivity | reflexivity | simpl; lia | simpl; lia | simpl; lia
    | reflexivity | reflexivity |].
  apply Hsmall. left. simpl. lia.
Defined.

(** [pool_iterate_regions_spec]: the four windows of a 5 x 5 input with pool
    size 2. *)
Lemma pool_iterate_regions_spec_witness :
  shape (iota [5; 5; 1]) = [5; 5; 1] /\ 0 < MaxPooling2D.pool_size pool2
  /\ exists regions,
       MaxPooling2D.iterate_regions pool2 (iota [5; 5; 1]) = Ok regions
       /\ length regions = 4.
Proof.
  split; [reflexivity|]. split; [simpl; lia|].
  destruct (pool_iterate_regions_spec pool2 (iota [5; 5; 1]) 5 5 1 eq_refl)
    as [_ Hpos].
  destruct Hpos as (regions & Hr & Hl & _); [simpl; lia|].
  exists regions. split; [exact Hr | exact Hl].
Defined.

(** [dense_forward_spec] on the layer of four inputs and two classes. *)
Lemma dense_forward_spec_witness :
  dense_wf dense42 4 2 /\ size (shape (iota [2; 2; 1])) = 4
  /\ exists totals self',
       Dense.forward (iota [2; 2; 1]) dense42 = (self', Ok totals)
       /\ shape totals = [2]
       /\ get totals [0] = 29%Z /\ get totals [1] = 35%Z
       /\ Dense.last_input_shape self' = Some [2; 2; 1].
Proof.
  split; [split; reflexivity|]. split; [reflexivity|].
  destruct (dense_forward_spec dense42 (iota [2; 2; 1]) 4 2)
    as (totals & self' & Hf & Hs & Hv & Hl & _);
    [split; reflexivity | reflexivity |].
  exists totals, self'. split; [exact Hf|]. split; [exact Hs|].
  split; [rewrite (Hv 0); [reflexivity | lia]|].
  split; [rewrite (Hv 1); [reflexivity | lia] | exact Hl].
Defined.

(** [dense_backward_wrong_length]: a gradient of three numbers for a layer
    of two classes. *)
Lemma dense_backward_wrong_length_witness :
  dense_wf dense42 4 2
  /\ Dense.forward (iota [2; 2; 1]) dense42
     = (Dense.set_last_totals {| shape := [2]; data := [29; 35]%Z |}
          (Dense.set_last_input (flatten (iota [2; 2; 1]))
             (Dense.set_last_input_shape [2; 2; 1] dense42)),
        Ok {| shape := [2]; data := [29; 35]%Z |})
  /\ shape (iota [3]) = [3] /\ 3 <> 2
  /\ Dense.backward (iota [3]) 1%Z
       (Dense.set_last_totals {| shape := [2]; data := [29; 35]%Z |}
          (Dense.set_last_input (flatten (iota [2; 2; 1]))
             (Dense.set_last_input_shape [2; 2; 1] dense42)))
     = (Dense.set_last_totals {| shape := [2]; data := [29; 35]%Z |}
          (Dense.set_last_input (flatten (iota [2; 2; 1]))
             (Dense.set_last_input_shape [2; 2; 1] dense42)),
        Err DotShapeError).
Proof.
  split; [split; reflexivity|]. split; [reflexivity|]. split; [reflexivity|].
  split; [lia|].
  apply (dense_backward_wrong_length dense42 _ (iota [2; 2; 1])
           {| shape := [2]; data := [29; 35]%Z |} (iota [3]) 1%Z 4 2 3);
    [split; reflexivity | reflexivity | reflexivity | lia].
Defined.

(** [softmax_spec] on the two scores 1 and 2. *)
Lemma softmax_spec_witness :
  shape scores = [2] /\ 0 < 2
  /\ exists out,
       softmax scores = Ok out /\ shape out = [2]
       /\ get out [0] = (exp (1 - 2) / (exp (1 - 2) + exp (2 - 2)))%R
       /\ get out [1] = (exp (2 - 2) / (exp (1 - 2) + exp (2 - 2)))%R.
Proof.
  split; [reflexivity|]. split; [lia|].
  destruct (softmax_spec scores 2 eq_refl) as [_ Hpos].
  destruct Hpos as (m & out & _ & Em & Hs & Ho & Hv); [lia|].
  assert (E2 : m = 2%R).
  { rewrite Em. change (Rmax 1 2 = 2%R). apply Rmax_right. lra. }
  subst m. rewrite E2 in Hv.
  exists out. split; [exact Hs|]. split; [exact Ho|].
  split; [rewrite (Hv 0) | rewrite (Hv 1)]; first [reflexivity | lia].
Defined.

(** [softmax_sums_to_one] and [softmax_shift] on two scores. *)
Lemma softmax_sums_to_one_witness :
  shape scores = [2] /\ 0 < 2
  /\ exists out, softmax scores = Ok out /\ shape out = [2]
                 /\ add_reduce (elements out) = 1%R.
Proof.
  split; [reflexivity|]. split; [lia|].
  apply (softmax_sums_to_one scores 2); [reflexivity | lia].
Defined.

Lemma softmax_shift_witness :
  shape scores = [2] /\ 0 < 2
  /\ exists out out',
       softmax scores = Ok out
       /\ softmax (np_map (fun v => (v + 5)%R) scores) = Ok out'
       /\ shape out' = shape out
       /\ forall k, k < 2 -> get out' [k] = get out [k].
Proof.
  split; [reflexivity|]. split; [lia|].
  apply (softmax_shift scores 5%R 2); [reflexivity | lia].
Defined.

(** [cross_entropy_loss_spec] on two numbers: the labels 1 and -1 read the
    same one, the label 2 is out of range. *)
Lemma cross_entropy_loss_spec_witness :
  shape scores = [2] /\ (0 <= 1 < Z.of_nat 2)%Z /\ (- Z.of_nat 2 <= -1 < 0)%Z
  /\ cross_entropy_loss scores 1 = Ok (fneg (flog (get scores [1])))
  /\ cross_entropy_loss scores (-1) = Ok (fneg (flog (get scores [1])))
  /\ cross_entropy_loss scores 2 = Err IndexError.
Proof.
  split; [reflexivity|]. split; [simpl; lia|]. split; [simpl; lia|].
  split; [|split].
  - apply (proj1 (cross_entropy_loss_spec scores 2 1 eq_refl)). simpl. lia.
  - apply (proj1 (proj2 (cross_entropy_loss_spec scores 2 (-1) eq_refl))). simpl. lia.
  - apply (proj2 (proj2 (cross_entropy_loss_spec scores 2 2 eq_refl))). simpl. lia.
Defined.

(** [preprocess_image_spec] on a row of IMG_HEIGHT * IMG_WIDTH * IMG_CHANNELS
    numbers. *)
Lemma preprocess_image_spec_witness :
  size (shape blank_row) = IMG_HEIGHT * IMG_WIDTH * IMG_CHANNELS
  /\ exists im,
       preprocess_image blank_row = Ok im
       /\ shape im = [IMG_HEIGHT; IMG_WIDTH; IMG_CHANNELS].
Proof.
  assert (Hs : size (shape blank_row) = IMG_HEIGHT * IMG_WIDTH * IMG_CHANNELS)
    by (cbn [blank_row shape size fold_right]; apply Nat.mul_1_r).
  split; [exact Hs|].
  destruct (proj2 (preprocess_image_spec blank_row) Hs) as (im & Hp & Hi & _).
  exists im. split; [exact Hp | exact Hi].
Defined.

(** [initial_layers_fit_images] on that row, with the label 1. *)
Lemma initial_layers_fit_images_witness :
  size (shape blank_row) = IMG_HEIGHT * IMG_WIDTH * IMG_CHANNELS
  /\ (0 <= 1 < 2)%Z
  /\ exists im net' loss acc,
       preprocess_image blank_row = Ok im
       /\ Network.train im 1 (/ 200)%R
            (Network.init (repeat 1%R (8 * 27)) (repeat 1%R (49 * 49 * 16)))
          = (net', Ok (loss, acc)).
Proof.
  assert (Hs : size (shape blank_row) = IMG_HEIGHT * IMG_WIDTH * IMG_CHANNELS)
    by (cbn [blank_row shape size fold_right]; apply Nat.mul_1_r).
  split; [exact Hs|]. split; [lia|].
  destruct (initial_layers_fit_images (repeat 1%R (8 * 27)) (repeat 1%R (49 * 49 * 16))
              blank_row 1 (/ 200)%R Hs) as (_ & im & net' & loss & acc & Hp & Ht & _);
    [lia|].
  exists im, net', loss, acc. split; [exact Hp | exact Ht].
Defined.

(** [train_epoch_ok] and [evaluate_ok] on the network for one-pixel images,
    with two samples. *)
Lemma train_epoch_ok_witness :
  net_wf net1 1 1
  /\ Forall (fun im => shape im = [1; 1; IMG_CHANNELS]) [pixel; pixel]
  /\ Forall (fun y => (0 <= y < 2)%Z) [0; 1]%Z
  /\ exists net' loss num_correct,
       Network.train_epoch [pixel; pixel] [0; 1]%Z 1%R net1
       = (net', Ok (loss, num_correct))
       /\ net_wf net' 1 1 /\ num_correct <= 2.
Proof.
  assert (Hnet : net_wf net1 1 1).
  { unfold net_wf. simpl.
    split; [reflexivity|]. split; [lia|]. split; [lia|]. split; [lia|].
    split; reflexivity. }
  assert (HX : Forall (fun im => shape im = [1; 1; IMG_CHANNELS]) [pixel; pixel])
    by (repeat constructor).
  assert (HY : Forall (fun y => (0 <= y < 2)%Z) [0; 1]%Z)
    by (repeat constructor; lia).
  split; [exact Hnet|]. split; [exact HX|]. split; [exact HY|].
  destruct (train_epoch_ok net1 [pixel; pixel] [0; 1]%Z 1%R 1 1 Hnet HX HY)
    as (net' & loss & n & Ht & Hwf & _ & _ & _ & Hn).
  exists net', loss, n. split; [exact Ht|]. split; [exact Hwf | exact Hn].
Defined.

Lemma evaluate_ok_witness :
  net_wf net1 1 1
  /\ Forall (fun im => shape im = [1; 1; IMG_CHANNELS]) [pixel; pixel]
  /\ Forall (fun y => (0 <= y < 2)%Z) [0; 1]%Z
  /\ exists net' test_loss test_correct,
       Network.evaluate [pixel; pixel] [0; 1]%Z net1
       = (net', Ok (test_loss, test_correct))
       /\ test_correct <= 2.
Proof.
  assert (Hnet : net_wf net1 1 1).
  { unfold net_wf. simpl.
    split; [reflexivity|]. split; [lia|]. split; [lia|]. split; [lia|].
    split; reflexivity. }
  assert (HX : Forall (fun im => shape im = [1; 1; IMG_CHANNELS]) [pixel; pixel])
    by (repeat constructor).
  assert (HY : Forall (fun y => (0 <= y < 2)%Z) [0; 1]%Z)
    by (repeat constructor; lia).
  split; [exact Hnet|]. split; [exact HX|]. split; [exact HY|].
  destruct (evaluate_ok net1 [pixel; pixel] [0; 1]%Z 1 1 Hnet HX HY)
    as (net' & loss & n & Ht & Hn).
  exists net', loss, n. split; [exact Ht | exact Hn].
Defined.

(** [train_label_out_of_range] with the label 2, and [train_negative_label]
    with the label -1. *)
Lemma train_label_out_of_range_witness :
  net_wf net1 1 1 /\ shape pixel = [1; 1; IMG_CHANNELS] /\ (2 <= 2)%Z
  /\ Network.train pixel 2 1%R net1
     = (fst (Network.forward pixel 2 net1), Err IndexError)
  /\ Conv2D.filters (Network.conv (fst (Network.train pixel 2 1%R net1)))
     = Conv2D.filters (Network.conv net1).
Proof.
  assert (Hnet : net_wf net1 1 1).
  { unfold net_wf. simpl.
    split; [reflexivity|]. split; [lia|]. split; [lia|]. split; [lia|].
    split; reflexivity. }
  split; [exact Hnet|]. split; [reflexivity|]. split; [lia|].
  destruct (train_label_out_of_range net1 pixel 2 1%R 1 1 Hnet eq_refl)
    as (_ & Ht & Hf & _); [right; lia|].
  split; [exact Ht | exact Hf].
Defined.

Lemma train_negative_label_witness :
  net_wf net1 1 1 /\ shape pixel = [1; 1; IMG_CHANNELS] /\ (-2 <= -1 < 0)%Z
  /\ exists net' loss acc,
       Network.train pixel 1 1%R net1 = (net', Ok (loss, acc))
       /\ Network.train pixel (-1) 1%R net1 = (net', Ok (loss, 0)).
Proof.
  assert (Hnet : net_wf net1 1 1).
  { unfold net_wf. simpl.
    split; [reflexivity|]. split; [lia|]. split; [lia|]. split; [lia|].
    split; reflexivity. }
  split; [exact Hnet|]. split; [reflexivity|]. split; [lia|].
  apply (train_negative_label net1 pixel (-1) 1%R 1 1 Hnet eq_refl). lia.
Defined.

(** [pool_forward_crop]: a 5 x 5 input with pool size 2 and its 4 x 4 crop. *)
Lemma pool_forward_crop_witness :
  shape (iota [5; 5; 1]) = [5; 5; 1] /\ 0 < MaxPooling2D.pool_size pool2
  /\ exists crop out out',
       slice2 (iota [5; 5; 1]) 0 4 0 4 = Ok crop
       /\ shape crop = [4; 4; 1]
       /\ snd (MaxPooling2D.forward (iota [5; 5; 1]) pool2) = Ok out
       /\ snd (MaxPooling2D.forward crop pool2) = Ok out'
       /\ get out' [1; 1; 0] = get out [1; 1; 0].
Proof.
  split; [reflexivity|]. split; [simpl; lia|].
  destruct (pool_forward_crop pool2 (iota [5; 5; 1]) 5 5 1 eq_refl)
    as (crop & out & out' & Hc & Hs & Ho & Ho' & _ & Hv); [simpl; lia|].
  exists crop, out, out'. split; [exact Hc|]. split; [exact Hs|].
  split; [exact Ho|]. split; [exact Ho'|]. apply Hv; simpl; lia.
Defined.

(** [pool_size_one_identity] on a 2 x 2 input. *)
Lemma pool_size_one_identity_witness :
  shape (iota [2; 2; 1]) = [2; 2; 1]
  /\ MaxPooling2D.pool_size (MaxPooling2D.init 1 : MaxPooling2D.t Z) = 1
  /\ exists out,
       MaxPooling2D.forward (iota [2; 2; 1]) (MaxPooling2D.init 1)
       = (MaxPooling2D.set_last_input (iota [2; 2; 1]) (MaxPooling2D.init 1), Ok out)
       /\ shape out = [2; 2; 1]
       /\ get out [1; 0; 0] = get (iota [2; 2; 1]) [1; 0; 0].
Proof.
  split; [reflexivity|]. split; [reflexivity|].
  destruct (pool_size_one_identity (MaxPooling2D.init 1) (iota [2; 2; 1])
              (ones [2; 2; 1]) 2 2 1 eq_refl eq_refl) as (out & Hf & Hs & Hv & _).
  exists out. split; [exact Hf|]. split; [exact Hs|]. apply Hv; lia.
Defined.

(** [conv_forward_crop]: the 3 x 3 crop at (1, 1) of a 4 x 4 image. *)
Lemma conv_forward_crop_witness :
  conv_wf conv2 /\ shape (iota [4; 4; 3]) = [4; 4; IMG_CHANNELS]
  /\ 1 + 3 <= 4 /\ Conv2D.filter_size conv2 <= 3
  /\ exists crop out out',
       slice2 (iota [4; 4; 3]) 1 (1 + 3) 1 (1 + 3) = Ok crop
       /\ snd (Conv2D.forward (iota [4; 4; 3]) conv2) = Ok out
       /\ snd (Conv2D.forward crop conv2) = Ok out'
       /\ get out' [0; 1; 0] = get out [1; 2; 0].
Proof.
  split; [reflexivity|]. split; [reflexivity|]. split; [lia|]. split; [simpl; lia|].
  destruct (conv_forward_crop conv2 (iota [4; 4; 3]) 4 4 1 1 3 3)
    as (crop & out & out' & Hc & _ & Ho & Ho' & _ & Hv);
    [reflexivity | reflexivity | lia | lia | simpl; lia | simpl; lia |].
  exists crop, out, out'. split; [exact Hc|]. split; [exact Ho|]. split; [exact Ho'|].
  apply (Hv 0 1 0); simpl; lia.
Defined.

(** [conv_forward_single_channel] on a 3 x 3 image of one channel. *)
Lemma conv_forward_single_channel_witness :
  conv_wf conv2 /\ shape (iota [3; 3; 1]) = [3; 3; 1]
  /\ Conv2D.filter_size conv2 <= 3
  /\ exists out,
       Conv2D.forward (iota [3; 3; 1]) conv2
       = (Conv2D.set_last_input (iota [3; 3; 1]) conv2, Ok out)
       /\ shape out = [2; 2; 1]
       /\ get out [0; 0; 0] = 24%Z /\ get out [0; 1; 0] = 36%Z
       /\ get out [1; 0; 0] = 60%Z /\ get out [1; 1; 0] = 72%Z.
Proof.
  split; [reflexivity|]. split; [reflexivity|]. split; [simpl; lia|].
  destruct (conv_forward_single_channel conv2 (iota [3; 3; 1]) 3 3)
    as (out & Hf & Hs & Hv); [reflexivity | reflexivity | simpl; lia | simpl; lia |].
  exists out. split; [exact Hf|]. split; [exact Hs|].
  split; [|split; [|split]];
    [rewrite (Hv 0 0 0) | rewrite (Hv 0 1 0) | rewrite (Hv 1 0 0) | rewrite (Hv 1 1 0)];
    first [reflexivity | simpl; lia].
Defined.

(** [pool_forward_oversize] with pool size 2 on an input of one row. *)
Lemma pool_forward_oversize_witness :
  shape (iota [1; 5; 1]) = [1; 5; 1]
  /\ 1 < MaxPooling2D.pool_size pool2
  /\ exists out,
       MaxPooling2D.forward (iota [1; 5; 1]) pool2
       = (MaxPooling2D.set_last_input (iota [1; 5; 1]) pool2, Ok out)
       /\ shape out = [0; 2; 1] /\ size (shape out) = 0.
Proof.
  split; [reflexivity|]. split; [simpl; lia|].
  destruct (pool_forward_oversize pool2 (iota [1; 5; 1]) (iota [0; 2; 1]) 1 5 1 eq_refl)
    as (out & Hf & Hs & Hz & _); [left; simpl; lia|].
  exists out. split; [exact Hf|]. split; [exact Hs | exact Hz].
Defined.

(** * Where the specification asks for more than the code does *)

(** C1. A 2 x 2 filter fits a 3 x 3 image of one channel, and the value that
    [forward] returns at (0, 0, 0) is 24, three times the sum 8 of the
    products over the 2 x 2 x 1 window.  It fits a 4 x 4 image of two channels
    as well, and there [forward] returns no tensor: it raises. *)
Lemma channel_count_counterexample :
  shape (iota [3; 3; 1]) = [3; 3; 1] /\ Conv2D.filter_size conv2 <= 3
  /\ Conv2D.forward (iota [3; 3; 1]) conv2
     = (Conv2D.set_last_input (iota [3; 3; 1]) conv2,
        Ok {| shape := [2; 2; 1]; data := [24; 36; 60; 72]%Z |})
  /\ cross_correlation conv2 (iota [3; 3; 1]) 1 0 0 0 = 8%Z
  /\ get {| shape := [2; 2; 1]; data := [24; 36; 60; 72]%Z |} [0; 0; 0]
     <> cross_correlation conv2 (iota [3; 3; 1]) 1 0 0 0
  /\ shape (ones [4; 4; 2]) = [4; 4; 2] /\ Conv2D.filter_size conv2 <= 4
  /\ Conv2D.forward (ones [4; 4; 2]) conv2
     = (Conv2D.set_last_input (ones [4; 4; 2]) conv2, Err BroadcastError)
  /\ ~ (exists out, snd (Conv2D.forward (ones [4; 4; 2]) conv2) = Ok out).
Proof.
  split; [reflexivity|]. split; [simpl; lia|]. split; [reflexivity|].
  split; [reflexivity|]. split; [discriminate|].
  split; [reflexivity|]. split; [simpl; lia|]. split; [reflexivity|].
  intros (out & H). discriminate H.
Qed.

(** C7. A vector without elements is a finite vector, and [softmax] returns
    nothing on it: [np.max] raises. *)
Lemma softmax_empty_counterexample :
  shape {| shape := [0]; data := @nil R |} = [0]
  /\ softmax {| shape := [0]; data := @nil R |} = Err ZeroSizeReduction
  /\ ~ (exists out, softmax {| shape := [0]; data := @nil R |} = Ok out).
Proof.
  split; [reflexivity|]. split; [reflexivity|].
  intros (out & H). discriminate H.
Qed.

(** C8. A filter of size 3 is larger than a 2 x 2 image and no error follows:
    [forward] returns a tensor without elements.  An image of one channel does
    not have the three channels of the filters and no error follows either:
    the channel is broadcast. *)
Lemma fail_fast_counterexample :
  2 < Conv2D.filter_size conv3
  /\ Conv2D.forward (ones [2; 2; 3]) conv3
     = (Conv2D.set_last_input (ones [2; 2; 3]) conv3,
        Ok {| shape := [0; 0; 1]; data := [] |})
  /\ ~ raises (Conv2D.forward (ones [2; 2; 3])) conv3
  /\ 1 <> IMG_CHANNELS
  /\ Conv2D.forward (ones [4; 4; 1]) conv2
     = (Conv2D.set_last_input (ones [4; 4; 1]) conv2,
        Ok {| shape := [3; 3; 1]; data := repeat 12%Z 9 |})
  /\ ~ raises (Conv2D.forward (ones [4; 4; 1])) conv2.
Proof.
  split; [simpl; lia|]. split; [reflexivity|].
  split; [intros (e & He); discriminate He|].
  split; [discriminate|]. split; [reflexivity|].
  intros (e & He); discriminate He.
Qed.

(** C9. A filter of size 3 on a 1 x 1 image: [forward] raises. *)
Lemma oversize_counterexample :
  1 < Conv2D.filter_size conv3
  /\ Conv2D.forward (ones [1; 1; 3]) conv3
     = (Conv2D.set_last_input (ones [1; 1; 3]) conv3, Err NegativeDimensions).
Proof. split; [simpl; lia | reflexivity]. Qed.
